(** * Request admission and lifecycle pipeline of the backend API

    A shallow embedding of [app.js] (in its two variants, the long-running
    server and the serverless one), of [server.js] and of [utils/logger.js],
    together with the properties of the pipeline that the specification
    states.

    Conventions of the embedding:
    - [process.env] is a finite map from names to strings;
    - strings are sequences of bytes, in UTF-8 where a character is not
      ASCII;
    - a JavaScript value that may be [undefined] is an [option];
    - numbers are [Z]; what [parseInt] reads is rounded as a double is;
    - what the code obtains from outside (the clock, the random bytes of
      [crypto.randomUUID], what each router does with a request, whether a
      promise is fulfilled or rejected, and the few texts that depend on
      the installed version of a package) is an explicit input;
    - the middleware chain is an explicit list of layers, run by an
      interpreter that follows Express's dispatch rule;
    - a response is what the application sends: its status, its body and
      the headers that [app.js] configures.  The body that the transport
      withholds from a [HEAD] request is kept.

    The packages that the sources only configure ([express-rate-limit],
    [express-slow-down]) and the module [utils/cacheConfig] are modelled
    from the specification, and are marked so.  The routers and the API
    documentation are inputs. *)

From Stdlib Require Import ZArith String Ascii List Bool Lia.
From Stdlib Require Import DecimalString DecimalPos.
From stdpp Require Import base option gmap strings list.
Import ListNotations.

Local Open Scope string_scope.
Local Open Scope Z_scope.

(** ** JavaScript values *)

Module Js.

(** [!!v] for a value that is a string or [undefined]: the empty string
    and [undefined] are falsy. *)
Definition truthy (v : option string) : bool :=
  match v with
  | Some s => negb (String.eqb s "")
  | None => false
  end.

(** [n || d] for a number [n] that may be [NaN] ([None]): [NaN] and [0]
    are falsy. *)
Definition or_default (n : option Z) (d : Z) : Z :=
  match n with
  | Some 0 => d
  | Some v => v
  | None => d
  end.

(** [v === s] for an optional string. *)
Definition strict_eq (v : option string) (s : string) : bool :=
  match v with
  | Some t => String.eqb t s
  | None => false
  end.

(** [`${v}`] for an optional string. *)
Definition template (v : option string) : string :=
  match v with
  | Some s => s
  | None => "undefined"
  end.

(** [s.endsWith(suffix)]. *)
Definition endsWith (s suffix : string) : bool :=
  let n := String.length s in
  let m := String.length suffix in
  if (m <=? n)%nat
  then String.eqb (String.substring (n - m) m s) suffix
  else false.

(** [l.join(sep)]. *)
Definition join (sep : string) (l : list string) : string :=
  String.concat sep l.

(** The white space and the line terminators of ASCII. *)
Definition is_space (c : ascii) : bool :=
  match nat_of_ascii c with
  | 9%nat | 10%nat | 11%nat | 12%nat | 13%nat | 32%nat => true
  | _ => false
  end.

Definition code (c : ascii) : Z := Z.of_nat (nat_of_ascii c).

(** The length in bytes of the white space character or line terminator
    at the head of [s], and 0 when there is none.  Besides the ASCII ones
    these are U+00A0, U+1680, U+2000 to U+200A, U+2028, U+2029, U+202F,
    U+205F, U+3000 and U+FEFF. *)
Definition space_width (s : string) : nat :=
  match s with
  | String c rest =>
      if is_space c then 1%nat
      else if code c =? 194 then
        match rest with
        | String d _ => if code d =? 160 then 2%nat else 0%nat
        | _ => 0%nat
        end
      else if code c =? 225 then
        match rest with
        | String d (String e _) =>
            if (code d =? 154) && (code e =? 128) then 3%nat else 0%nat
        | _ => 0%nat
        end
      else if code c =? 226 then
        match rest with
        | String d (String e _) =>
            if (code d =? 128)
               && (((128 <=? code e) && (code e <=? 138))
                   || (code e =? 168) || (code e =? 169) || (code e =? 175))
            then 3%nat
            else if (code d =? 129) && (code e =? 159) then 3%nat
            else 0%nat
        | _ => 0%nat
        end
      else if code c =? 227 then
        match rest with
        | String d (String e _) =>
            if (code d =? 128) && (code e =? 128) then 3%nat else 0%nat
        | _ => 0%nat
        end
      else if code c =? 239 then
        match rest with
        | String d (String e _) =>
            if (code d =? 187) && (code e =? 191) then 3%nat else 0%nat
        | _ => 0%nat
        end
      else 0%nat
  | EmptyString => 0%nat
  end.

(** The string without its first [skip] bytes and without the white space
    that follows them. *)
Fixpoint trim_from (skip : nat) (s : string) : string :=
  match s with
  | String _ s' =>
      match skip with
      | S k => trim_from k s'
      | O =>
          match space_width s with
          | O => s
          | S k => trim_from k s'
          end
      end
  | EmptyString => s
  end.

Definition trim_start (s : string) : string := trim_from 0 s.

(** Value of a character as a digit in the given radix. *)
Definition digit (radix : Z) (c : ascii) : option Z :=
  let n := Z.of_nat (nat_of_ascii c) in
  let v :=
    if (48 <=? n) && (n <=? 57) then Some (n - 48)
    else if (97 <=? n) && (n <=? 122) then Some (n - 87)
    else if (65 <=? n) && (n <=? 90) then Some (n - 55)
    else None in
  match v with
  | Some d => if d <? radix then Some d else None
  | None => None
  end.

(** The longest prefix of digits, as a number; [None] when it is empty. *)
Fixpoint digits (radix : Z) (acc : option Z) (s : string) : option Z :=
  match s with
  | String c s' =>
      match digit radix c with
      | Some d => digits radix (Some (radix * default 0 acc + d)) s'
      | None => acc
      end
  | EmptyString => acc
  end.

Definition strip_sign (s : string) : bool * string :=
  match s with
  | String "-" s' => (true, s')
  | String "+" s' => (false, s')
  | _ => (false, s)
  end.

Definition strip_hex (s : string) : Z * string :=
  match s with
  | String "0" (String "x" s') => (16, s')
  | String "0" (String "X" s') => (16, s')
  | _ => (10, s)
  end.

(** The double nearest to the integer [n], ties to the even mantissa: an
    integer of up to 53 bits is a double as it is, a longer one keeps its
    53 leading bits.  (Beyond the largest double, a numeral of more than
    308 digits, JavaScript has [Infinity], which is not among the numbers
    of the embedding.) *)
Definition to_double (n : Z) : Z :=
  let a := Z.abs n in
  if a <? 2 ^ 53 then n
  else
    let e := Z.log2 a - 52 in
    let q := Z.shiftr a e in
    let r := Z.land a (Z.ones e) in
    let half := 2 ^ (e - 1) in
    let q' := if (half <? r) || ((r =? half) && Z.odd q) then q + 1 else q in
    Z.sgn n * Z.shiftl q' e.

(** [parseInt(v)] without a radix argument; [None] is [NaN].  An
    [undefined] argument is read as the text "undefined", which has no
    digits. *)
Definition parseInt (v : option string) : option Z :=
  match v with
  | None => None
  | Some s =>
      let '(neg, s1) := strip_sign (trim_start s) in
      let '(radix, s2) := strip_hex s1 in
      match digits radix None s2 with
      | Some n => Some (to_double (if neg : bool then - n else n))
      | None => None
      end
  end.

End Js.

(** ** Configuration: [process.env] and the required variables *)

Module Env.

(** [require('dotenv').config()]: a variable of the [.env] file is set
    only when the process environment does not define it already. *)
Definition dotenv_config (file env : gmap string string) : gmap string string :=
  env ∪ file.

Definition requiredEnvVars : list string := ["JWT_SECRET"; "MONGODB_URI"].

(** [requiredEnvVars.filter(envVar => !process.env[envVar])] *)
Definition missingEnvVars (env : gmap string string) : list string :=
  List.filter (fun envVar => negb (Js.truthy (env !! envVar))) requiredEnvVars.

End Env.

(** ** Request identifiers: [crypto.randomUUID()] *)

Module Uuid.

Definition hexdigit (n : Z) : ascii :=
  if n <? 10 then ascii_of_nat (Z.to_nat (48 + n))
  else ascii_of_nat (Z.to_nat (87 + n)).

(** Two hexadecimal digits of a byte, in front of [rest]. *)
Definition hex2 (b : Z) (rest : string) : string :=
  String (hexdigit ((b mod 256) / 16)) (String (hexdigit (b mod 16)) rest).

Definition byte (rand : list Z) (i : nat) : Z := nth i rand 0.

(** A version 4 identifier from sixteen random bytes: the version and
    variant bits are forced, the text is 8-4-4-4-12 hexadecimal digits. *)
Definition randomUUID (rand : list Z) : string :=
  let b := byte rand in
  let b6 := Z.lor (Z.land (b 6%nat) 15) 64 in
  let b8 := Z.lor (Z.land (b 8%nat) 63) 128 in
  hex2 (b 0%nat) (hex2 (b 1%nat) (hex2 (b 2%nat) (hex2 (b 3%nat) (String "-"
  (hex2 (b 4%nat) (hex2 (b 5%nat) (String "-"
  (hex2 b6 (hex2 (b 7%nat) (String "-"
  (hex2 b8 (hex2 (b 9%nat) (String "-"
  (hex2 (b 10%nat) (hex2 (b 11%nat) (hex2 (b 12%nat) (hex2 (b 13%nat)
  (hex2 (b 14%nat) (hex2 (b 15%nat) ""))))))))))))))))))).

End Uuid.

(** ** Log records: [utils/logger.js] *)

Inductive Level := LInfo | LWarn | LError.

(** What the winston logger is given: a text (with the error object that
    some calls pass along), the record of [requestLogger], or the record of
    [errorLogger]. *)
Inductive LogRecord :=
| LogText (level : Level) (text : string) (detail : option string)
| LogRequest (method url : string) (status : Z) (duration : Z)
             (requestId : option string)
| LogError (error stack method url : string) (requestId : option string).

(** ** Requests, errors and responses *)

Inductive Method := GET | HEAD | POST | PUT | PATCH | DELETE | OPTIONS.

Definition method_name (m : Method) : string :=
  match m with
  | GET => "GET" | HEAD => "HEAD" | POST => "POST" | PUT => "PUT"
  | PATCH => "PATCH" | DELETE => "DELETE" | OPTIONS => "OPTIONS"
  end.

Inductive ContentType := CtJson | CtUrlencoded | CtOther.

(** What the body parsers can observe of a request body. *)
Record Body := {
  ctype : ContentType;
  oversize : bool;     (* larger than the 10mb limit *)
  malformed : bool     (* not parseable in its declared type *)
}.

(** The path is kept as its list of segments: [/api/products] is
    [["api"; "products"]], and [/] is [[]].  The query string, when there
    is one, is what follows the question mark. *)
Record Request := {
  method : Method;
  path : list string;
  query : option string;
  origin : option string;     (* req.headers.origin *)
  ip : string;                (* req.ip *)
  body : Body
}.

Definition pathname (p : list string) : string := "/" ++ Js.join "/" p.

Definition search (rq : Request) : string :=
  match query rq with
  | Some q => "?" ++ q
  | None => ""
  end.

(** [req.url] as the request arrives, and as the layers mounted at the
    root see it. *)
Definition url (rq : Request) : string := pathname (path rq) ++ search rq.

(** [req.url] inside layers mounted below the root: Express removes the
    mount path, [n] segments, while such a layer runs, and puts it back
    when the layer hands over. *)
Definition url_below (n : nat) (rq : Request) : string :=
  pathname (drop n (path rq)) ++ search rq.

(** A thrown value, as far as the error handlers read it; the status it
    declares, if any, is an integer. *)
Record JsError := {
  name : string;
  message : string;
  status : option Z;
  stack : string
}.

Inductive JsonVal := JString (s : string) | JNumber (literal : string).

(** A body: a JSON object, the page by which Express itself shows a text,
    or none. *)
Inductive Payload :=
| JsonBody (fields : list (string * JsonVal))
| TextBody (text : string)
| NoBody.

Record Response := {
  statusCode : Z;
  payload : Payload
}.

(** [res.json({...})]: a field whose value is [undefined] is left out. *)
Fixpoint json_object (fields : list (string * option JsonVal))
  : list (string * JsonVal) :=
  match fields with
  | [] => []
  | (k, Some v) :: rest => (k, v) :: json_object rest
  | (_, None) :: rest => json_object rest
  end.

Fixpoint assoc (k : string) (fields : list (string * JsonVal)) : option JsonVal :=
  match fields with
  | [] => None
  | (k', v) :: rest => if String.eqb k k' then Some v else assoc k rest
  end.

(** The value of a field of a response's JSON body. *)
Definition field (k : string) (r : Response) : option JsonVal :=
  match payload r with
  | JsonBody fields => assoc k fields
  | _ => None
  end.

(** ** Origin validation *)

Inductive Variant := Server | Serverless.

Section OriginValidator.

(** [new URL(origin).hostname], or [None] where the constructor throws.
    The URL parser belongs to the platform; the validator is stated for
    any such function. *)
Variable hostname : string -> option string.

Definition allowedOrigins (v : Variant) : list string :=
  match v with
  | Server =>
      [ "http://localhost:3000";
        "http://localhost:5173";
        "https://delibup.netlify.app";
        "capacitor://localhost";
        "http://localhost";
        "https://localhost";
        "https://dellibup.onrender.com";
        "https://delibup.netlify.app" ]
  | Serverless =>
      [ "http://localhost:3000";
        "http://localhost:5173";
        "https://capstonedelibup-o7sl.onrender.com";
        "capacitor://localhost";
        "http://localhost";
        "https://localhost";
        "https://dellibup.onrender.com" ]
  end.

(** [allowedOrigins.includes(origin)], [allowedOrigins.indexOf(origin) !== -1] *)
Definition includes (l : list string) (s : string) : bool :=
  existsb (String.eqb s) l.

(** The wildcard suffixes of each variant: the serverless one admits the
    [*.vercel.app] front ends, the server one has none. *)
Definition wildcardSuffixes (v : Variant) : list string :=
  match v with
  | Server => []
  | Serverless => [".vercel.app"]
  end.

(** The serverless variant's [isAllowedOrigin]. *)
Definition isAllowedOrigin (origin : option string) : bool :=
  if negb (Js.truthy origin) then true
  else
    let o := default "" origin in
    if includes (allowedOrigins Serverless) o then true
    else
      match hostname o with
      | Some h => if Js.endsWith h ".vercel.app" then true else false
      | None => false
      end.

(** The [origin] option given to [cors]: [true] for [callback(null, true)],
    [false] for [callback(new Error('Not allowed by CORS'))]. *)
Definition origin_callback (v : Variant) (origin : option string) : bool :=
  match v with
  | Server =>
      if negb (Js.truthy origin) then true
      else if includes (allowedOrigins Server) (default "" origin) then true
      else false
  | Serverless => isAllowedOrigin origin
  end.

End OriginValidator.

(** The rules of the origin validator as the specification words them: an
    absent origin is allowed, a present one is allowed exactly when it is
    on the allow-list or its host ends with a wildcard suffix. *)
Definition specified_decision (hostname : string -> option string)
    (v : Variant) (origin : option string) : bool :=
  match origin with
  | None => true
  | Some o =>
      includes (allowedOrigins v) o
      || existsb (fun suffix =>
                    match hostname o with
                    | Some h => Js.endsWith h suffix
                    | None => false
                    end) (wildcardSuffixes v)
  end.

(** [new Error('Not allowed by CORS')] *)
Definition cors_error : JsError :=
  {| name := "Error"; message := "Not allowed by CORS"; status := None;
     stack := "Error: Not allowed by CORS" |}.

(** ** Counting stores of the two admission stages *)

Module RateStore.

(** Modelled from the spec: the rate bucket of a key, its count and the
    time at which its window ends (the start of the window plus the length
    of the window). *)
Record Bucket := { totalHits : Z; resetTime : Z }.

(** Modelled from the spec: the counting store of the [express-rate-limit]
    and [express-slow-down] packages, which the sources only configure.
    One bucket per key per active window, created on the first request of
    a key, counting the requests of the window and replaced by a new one
    once the window has elapsed (a fixed window, not a sliding one). *)
Definition increment (windowMs : Z) (store : gmap string Bucket)
    (key : string) (now : Z) : gmap string Bucket * Bucket :=
  let fresh := {| totalHits := 1; resetTime := now + windowMs |} in
  let b :=
    match store !! key with
    | Some old =>
        if now <? resetTime old
        then {| totalHits := totalHits old + 1; resetTime := resetTime old |}
        else fresh
    | None => fresh
    end in
  (<[key := b]> store, b).

(** The bucket of [k] counts [m] requests and runs until [r]. *)
Definition bucket_is (store : gmap string Bucket) (k : string) (m r : Z)
  : Prop :=
  store !! k = Some {| totalHits := m; resetTime := r |}.

End RateStore.

(** ** Configuration read when the application module is loaded *)

Record Config := {
  windowMs : Z;        (* parseInt(RATE_LIMIT_WINDOW_MS) || 15 * 60 * 1000 *)
  max : Z;             (* parseInt(RATE_LIMIT_MAX_REQUESTS) || 100 *)
  production : bool;   (* NODE_ENV === 'production' *)
  use_redis : bool     (* USE_REDIS === 'true' *)
}.

Definition config_of_env (env : gmap string string) : Config :=
  {| windowMs :=
       Js.or_default (Js.parseInt (env !! "RATE_LIMIT_WINDOW_MS")) (15 * 60 * 1000);
     max := Js.or_default (Js.parseInt (env !! "RATE_LIMIT_MAX_REQUESTS")) 100;
     production := Js.strict_eq (env !! "NODE_ENV") "production";
     use_redis := Js.strict_eq (env !! "USE_REDIS") "true" |}.

(** ** The two admission stages *)

Module Admission.
Import RateStore.

(** The [message] option of [limiter]. *)
Definition message : Payload :=
  JsonBody [("error", JString "Too many requests, please try again later.")].

(** The answer to a request over the ceiling. *)
Definition too_many_requests : Response :=
  {| statusCode := 429; payload := message |}.

(** Modelled from the spec: the ceiling stage of [express-rate-limit],
    configured by [limiter]: the request is counted in the bucket of its
    key ([keyGenerator] is [req.ip]) and, once the count exceeds [max],
    rejected with status 429 and the configured message. *)
Definition limiter (cfg : Config) (store : gmap string Bucket)
    (key : string) (now : Z) : gmap string Bucket * option Response :=
  let '(store', b) := increment (windowMs cfg) store key now in
  (store', if max cfg <? totalHits b then Some too_many_requests else None).

(** The options of [speedLimiter]. *)
Definition delayAfter : Z := 50.
Definition delayMs : Z := 500.
Definition speedWindowMs : Z := 15 * 60 * 1000.

(** Modelled from the spec: the delay stage of [express-slow-down],
    configured by [speedLimiter]: an own counter over a window of the same
    length; once the count exceeds [delayAfter] the request is held back
    by [delayMs] for each request over the threshold, and then passed
    on.  The result is the delay in milliseconds. *)
Definition speedLimiter (store : gmap string Bucket)
    (key : string) (now : Z) : gmap string Bucket * Z :=
  let '(store', b) := increment speedWindowMs store key now in
  (store',
   if delayAfter <? totalHits b then (totalHits b - delayAfter) * delayMs else 0).

(** The added delay of the request that is the [c]-th of its window. *)
Definition delay_of (c : Z) : Z :=
  if delayAfter <? c then (c - delayAfter) * delayMs else 0.

End Admission.

(** ** The routers, which are outside the pipeline *)

(** What a router does with a request: it answers, it throws (or calls
    [next(err)]), or none of its routes matches. *)
Inductive HandlerResult :=
| Responds (r : Response)
| Throws (e : JsError)
| Unmatched.

(** The routers that [app.js] mounts. *)
Inductive Router :=
| ApiDocs               (* swaggerUi.serve, swaggerUi.setup(swaggerSpecs) *)
| AuthRoutes
| ProductRoutes
| StoreRoutes
| StoreMemberRoutes
| CustomerRoutes
| SellerRoutes
| CartRoutes
| OrderRoutes
| ReviewRoutes.

(** How an awaited promise is settled. *)
Inductive Settled := Fulfilled | Rejected (reason : string).

Record RedisClient := { isOpen : bool }.

(** ** Response cache *)

Module Cache.

(** Modelled from the spec: a cache entry, its value and the time after
    which it is not served. *)
Record Entry := { value : Response; expiresAt : Z }.

(** Modelled from the spec: the two implementations of the store, the
    external shared one and the in-process one. *)
Inductive Backend := External | InProcess.

(** Modelled from the spec: the cache and the state of the connection to
    the external store. *)
Record Store := {
  backend : Backend;
  ready : bool;                      (* the external connection is open *)
  external : gmap string Entry;
  local : gmap string Entry
}.

(** Modelled from the spec: [utils/cacheConfig], which is not among the
    sources.  The backend is chosen once, at startup, from the
    configuration; the in-process store also stands in when the external
    one is unavailable. *)
Definition init (cfg : Config) (redisClient : option RedisClient) : Store :=
  {| backend := match redisClient with
                | Some _ => if use_redis cfg then External else InProcess
                | None => InProcess
                end;
     ready := match redisClient with Some c => isOpen c | None => false end;
     external := ∅;
     local := ∅ |}.

(** Modelled from the spec: the entries in use; the in-process ones stand
    in while the external store is not available. *)
Definition entries (st : Store) : gmap string Entry :=
  match backend st with
  | External => if ready st then external st else local st
  | InProcess => local st
  end.

(** Modelled from the spec: [get(key) -> value | miss]; an entry is never
    served past [expiresAt]. *)
Definition get (st : Store) (key : string) (now : Z) : option Response :=
  match entries st !! key with
  | Some e => if now <? expiresAt e then Some (value e) else None
  | None => None
  end.

(** Modelled from the spec: [set(key, value, ttl)]. *)
Definition set (st : Store) (key : string) (v : Response) (ttl now : Z)
  : Store :=
  let e := {| value := v; expiresAt := now + ttl |} in
  match backend st with
  | External =>
      if ready st
      then {| backend := backend st; ready := ready st;
              external := <[key := e]> (external st); local := local st |}
      else {| backend := backend st; ready := ready st;
              external := external st; local := <[key := e]> (local st) |}
  | InProcess =>
      {| backend := backend st; ready := ready st;
         external := external st; local := <[key := e]> (local st) |}
  end.

(** Modelled from the spec: the key of a cache entry, derived from method,
    path and query. *)
Definition key_of (rq : Request) : string :=
  method_name (method rq) ++ " " ++ url rq.

(** Modelled from the spec: the wrapper is applied to safe reads only. *)
Definition safe (m : Method) : bool :=
  match m with GET | HEAD => true | _ => false end.

(** Modelled from the spec: the wrapper [cache(ttl)] around a safe read
    route.  A fresh entry is served; on a miss the handler runs and what
    it answers is stored; other methods go straight to the handler. *)
Definition cache (ttl : Z) (st : Store) (rq : Request) (now : Z)
    (h : HandlerResult) : HandlerResult * Store :=
  if safe (method rq) then
    match get st (key_of rq) now with
    | Some r => (Responds r, st)
    | None =>
        match h with
        | Responds r => (h, set st (key_of rq) r ttl now)
        | _ => (h, st)
        end
    end
  else (h, st).

(** Modelled from the spec: the wrapper answers by itself, without the
    handler. *)
Definition hit (st : Store) (rq : Request) (now : Z) : bool :=
  safe (method rq) && bool_decide (is_Some (get st (key_of rq) now)).

End Cache.

(** ** The middleware chain of [app.js] *)

(** The layers registered on the application, by what they are. *)
Inductive Stage :=
| Helmet            (* app.use(helmet({...})) *)
| Compression       (* app.use(compression()) *)
| Cors              (* app.use(cors({origin, credentials})) *)
| JsonParser        (* app.use(express.json({limit})) *)
| UrlencodedParser  (* app.use(express.urlencoded({extended, limit})) *)
| RequestLogger     (* app.use(requestLogger) *)
| RequestId         (* app.use((req, res, next) => { req.id = ... }) *)
| Limiter           (* app.use('/api', limiter) *)
| SpeedLimiter      (* app.use('/api', speedLimiter) *)
| Dispatch          (* /api-docs, /health, /, and the routers *)
| ErrorLogger       (* app.use(errorLogger) *)
| ErrorHandler.     (* app.use((err, req, res, next) => ...) *)

Global Instance Stage_eq_dec : EqDecision Stage.
Proof. solve_decision. Defined.

(** A layer is a stage mounted at a path prefix. *)
Definition Layer : Type := list string * Stage.

(** The registration order of [app.js], the same in both variants. *)
Definition layers : list Layer :=
  [ ([], Helmet);
    ([], Compression);
    ([], Cors);
    ([], JsonParser);
    ([], UrlencodedParser);
    ([], RequestLogger);
    ([], RequestId);
    (["api"], Limiter);
    (["api"], SpeedLimiter);
    ([], Dispatch);
    ([], ErrorLogger);
    ([], ErrorHandler) ].

(** Layers with four parameters [(err, req, res, next)]. *)
Definition handles_errors (st : Stage) : bool :=
  match st with
  | ErrorLogger | ErrorHandler => true
  | _ => false
  end.

Definition lower (c : ascii) : ascii :=
  let n := nat_of_ascii c in
  if ((65 <=? n) && (n <=? 90))%nat then ascii_of_nat (n + 32) else c.

Fixpoint lowercase (s : string) : string :=
  match s with
  | String c s' => String (lower c) (lowercase s')
  | EmptyString => EmptyString
  end.

(** Express's mount rule: the layer's prefix is matched segment by segment,
    without regard to letter case. *)
Fixpoint mounted (prefix p : list string) : bool :=
  match prefix, p with
  | [], _ => true
  | a :: prefix', b :: p' =>
      String.eqb (lowercase a) (lowercase b) && mounted prefix' p'
  | _ :: _, [] => false
  end.

(** Express's rule for a route: the whole path is matched, without regard
    to letter case and to a slash at its end (an empty last segment). *)
Definition same_path (p q : list string) : bool :=
  mounted p q
  && match drop (length p) q with
     | [] => true
     | [s] => String.eqb s ""
     | _ => false
     end.

(** What the pipeline reads from outside while it handles one request. *)
Record Inputs := {
  now : Z;                   (* Date.now() when the request arrives *)
  finished : Z;              (* Date.now() when the response is finished *)
  random : list Z;           (* the bytes drawn by crypto.randomUUID() *)
  timestamp : string;        (* new Date().toISOString() *)
  uptime : string;           (* process.uptime() *)
  handler : Router -> HandlerResult;   (* what each router does *)
  nested : nat;              (* path segments removed by the mounts inside
                                the router that answers *)
  csp_defaults : list string;  (* the directives that the installed helmet
                                  adds after the configured ones *)
  thrown : string;           (* the stack of the error that Node raises
                                for a status code it cannot send *)
  status_name : Z -> string  (* the names of the statuses *)
}.

(** What is attached to the request and the response on their way. *)
Record Ctx := {
  req_id : option string;        (* req.id *)
  started : option Z;            (* the 'finish' listener of requestLogger *)
  headers : list (string * string);
  compressed : bool;
  delayed : Z;                   (* added delay, in milliseconds *)
  visited : list Stage;          (* the stages run so far, latest last *)
  removed : nat;                 (* the segments missing from req.url when
                                    the response is sent *)
  ended : option Stage           (* the stage that sent the response *)
}.

(** What lives as long as the process. *)
Record AppState := {
  limiter_store : gmap string RateStore.Bucket;
  speed_store : gmap string RateStore.Bucket;
  log : list LogRecord;
  cache_store : Cache.Store
}.

Definition initial_ctx : Ctx :=
  {| req_id := None; started := None; headers := []; compressed := false;
     delayed := 0; visited := []; removed := 0; ended := None |}.

Definition initial_state : AppState :=
  {| limiter_store := ∅; speed_store := ∅; log := [];
     cache_store := {| Cache.backend := Cache.InProcess; Cache.ready := false;
                       Cache.external := ∅; Cache.local := ∅ |} |}.

Definition write_log (r : LogRecord) (s : AppState) : AppState :=
  {| limiter_store := limiter_store s; speed_store := speed_store s;
     log := log s ++ [r]; cache_store := cache_store s |}.

Definition set_limiter_store (st : gmap string RateStore.Bucket) (s : AppState)
  : AppState :=
  {| limiter_store := st; speed_store := speed_store s;
     log := log s; cache_store := cache_store s |}.

Definition set_speed_store (st : gmap string RateStore.Bucket) (s : AppState)
  : AppState :=
  {| limiter_store := limiter_store s; speed_store := st;
     log := log s; cache_store := cache_store s |}.

Definition set_cache (st : Cache.Store) (s : AppState) : AppState :=
  {| limiter_store := limiter_store s; speed_store := speed_store s;
     log := log s; cache_store := st |}.

Definition visit (st : Stage) (c : Ctx) : Ctx :=
  {| req_id := req_id c; started := started c; headers := headers c;
     compressed := compressed c; delayed := delayed c;
     visited := visited c ++ [st]; removed := removed c; ended := ended c |}.

Definition add_headers (h : list (string * string)) (c : Ctx) : Ctx :=
  {| req_id := req_id c; started := started c; headers := headers c ++ h;
     compressed := compressed c; delayed := delayed c; visited := visited c;
     removed := removed c; ended := ended c |}.

(** [res.setHeader(k, v)]: a header of that name is replaced. *)
Definition set_header (k v : string) (h : list (string * string))
  : list (string * string) :=
  List.filter (fun x => negb (String.eqb (fst x) k)) h ++ [(k, v)].

Definition replace_header (k v : string) (c : Ctx) : Ctx :=
  {| req_id := req_id c; started := started c;
     headers := set_header k v (headers c);
     compressed := compressed c; delayed := delayed c; visited := visited c;
     removed := removed c; ended := ended c |}.

Definition set_compressed (c : Ctx) : Ctx :=
  {| req_id := req_id c; started := started c; headers := headers c;
     compressed := true; delayed := delayed c; visited := visited c;
     removed := removed c; ended := ended c |}.

Definition set_started (t : Z) (c : Ctx) : Ctx :=
  {| req_id := req_id c; started := Some t; headers := headers c;
     compressed := compressed c; delayed := delayed c; visited := visited c;
     removed := removed c; ended := ended c |}.

Definition set_req_id (id : string) (c : Ctx) : Ctx :=
  {| req_id := Some id; started := started c; headers := headers c;
     compressed := compressed c; delayed := delayed c; visited := visited c;
     removed := removed c; ended := ended c |}.

Definition add_delay (d : Z) (c : Ctx) : Ctx :=
  {| req_id := req_id c; started := started c; headers := headers c;
     compressed := compressed c; delayed := delayed c + d;
     visited := visited c; removed := removed c; ended := ended c |}.

Definition set_removed (n : nat) (c : Ctx) : Ctx :=
  {| req_id := req_id c; started := started c; headers := headers c;
     compressed := compressed c; delayed := delayed c; visited := visited c;
     removed := n; ended := ended c |}.

(** The stage [st], mounted at [prefix], has sent the response. *)
Definition set_ended (prefix : list string) (st : Stage) (c : Ctx) : Ctx :=
  {| req_id := req_id c; started := started c; headers := headers c;
     compressed := compressed c; delayed := delayed c; visited := visited c;
     removed := (length prefix + removed c)%nat; ended := Some st |}.

(** How a layer hands over: [next()], [next(err)], or a response. *)
Inductive Outcome :=
| Next
| NextErr (e : JsError)
| End (r : Response).

(** The application object: which variant of [app.js] was loaded, and the
    configuration it read. *)
Record App := {
  variant : Variant;
  conf : Config
}.

(** The [directives] given to [helmet] for the content security policy. *)
Definition csp_directives : list string :=
  [ "default-src 'self'";
    "script-src 'self' 'unsafe-inline'";
    "style-src 'self' 'unsafe-inline'";
    "img-src 'self' data: https: http:";
    "connect-src 'self' https: http:" ].

(** The headers that the options given to [helmet] decide: the policy
    with the configured directives first, and the two cross-origin
    policies.  (What else helmet sets by default is not followed.) *)
Definition helmet_headers (i : Inputs) : list (string * string) :=
  [ ("Content-Security-Policy", Js.join ";" (csp_directives ++ csp_defaults i));
    ("Cross-Origin-Resource-Policy", "cross-origin");
    ("Cross-Origin-Opener-Policy", "same-origin") ].

(** The headers that the options given to [cors] decide, for a request
    whose origin is allowed: the origin is reflected when the request
    names one, and credentials are allowed ([credentials: true]).  (What
    else [cors] sets, [Vary] and the headers of a preflight, is not
    followed.) *)
Definition cors_headers (origin : option string) : list (string * string) :=
  (if Js.truthy origin
   then [("Access-Control-Allow-Origin", default "" origin)]
   else [])
  ++ [("Access-Control-Allow-Credentials", "true")].

(** The errors of the body parsers (limit: 10mb). *)
Definition too_large : JsError :=
  {| name := "PayloadTooLargeError"; message := "request entity too large";
     status := Some 413; stack := "PayloadTooLargeError: request entity too large" |}.

Definition bad_syntax : JsError :=
  {| name := "SyntaxError"; message := "Unexpected token in JSON";
     status := Some 400; stack := "SyntaxError: Unexpected token in JSON" |}.

Definition parse_body (ct : ContentType) (b : Body) : Outcome :=
  match ct, ctype b with
  | CtJson, CtJson | CtUrlencoded, CtUrlencoded =>
      if oversize b then NextErr too_large
      else if malformed b then NextErr bad_syntax
      else Next
  | _, _ => Next
  end.

Definition health (i : Inputs) : Response :=
  {| statusCode := 200;
     payload := JsonBody [ ("status", JString "healthy");
                           ("timestamp", JString (timestamp i));
                           ("uptime", JNumber (uptime i)) ] |}.

Definition welcome : Response :=
  {| statusCode := 200;
     payload := JsonBody [ ("message", JString "Welcome to the BuFood API backend!");
                           ("status", JString "ok") ] |}.

Definition is_get (m : Method) : bool :=
  match m with GET | HEAD => true | _ => false end.

(** A preflight request, which [cors] answers itself. *)
Definition is_options (m : Method) : bool :=
  match m with OPTIONS => true | _ => false end.

(** What [app.js] registers after the admission stages. *)
Inductive Route :=
| Use (mount : list string) (cached : bool) (r : Router)
      (* app.use(mount, router), app.use(mount, cache(...), router) *)
| Get (p : list string) (answer : Inputs -> Response).
      (* app.get(p, (req, res) => res.status(200).json(...)) *)

(** "API Documentation", "Health check endpoint", "Root route handler",
    "Routes with caching where appropriate", in their registration
    order. *)
Definition routes : list Route :=
  [ Use ["api-docs"] false ApiDocs;
    Get ["health"] health;
    Get [] (fun _ => welcome);
    Use ["api"; "auth"] false AuthRoutes;
    Use ["api"; "products"] true ProductRoutes;
    Use ["api"; "store"] false StoreRoutes;
    Use ["api"; "store"] false StoreMemberRoutes;
    Use ["api"; "customers"] false CustomerRoutes;
    Use ["api"; "seller"] false SellerRoutes;
    Use ["api"; "cart"] false CartRoutes;
    Use ["api"; "orders"] false OrderRoutes;
    Use ["api"] false ReviewRoutes ].

(** [cache('10 minutes')] *)
Definition ttl : Z := 10 * 60 * 1000.

(** The routes are tried in order.  The first that matches and answers
    ends the chain, and [req.url] is then what is below its mount point;
    a router that throws hands the error over; a router none of whose
    routes matches hands over to the next. *)
Fixpoint route (rs : list Route) (rq : Request) (i : Inputs)
    (st : Cache.Store) : Outcome * nat * Cache.Store :=
  match rs with
  | [] => (Next, 0%nat, st)
  | Get p answer :: rest =>
      if is_get (method rq) && same_path p (path rq)
      then (End (answer i), 0%nat, st)
      else route rest rq i st
  | Use mount cached r :: rest =>
      if mounted mount (path rq) then
        let '(h, st') :=
          if cached then Cache.cache ttl st rq (now i) (handler i r)
          else (handler i r, st) in
        match h with
        | Responds resp =>
            (End resp,
             if cached && Cache.hit st rq (now i)
             then length mount
             else (length mount + nested i)%nat,
             st')
        | Throws e => (NextErr e, 0%nat, st')
        | Unmatched => route rest rq i st'
        end
      else route rest rq i st
  end.

Definition dispatch (rq : Request) (i : Inputs) (st : Cache.Store)
  : Outcome * nat * Cache.Store :=
  route routes rq i st.

(** What the terminal error handler gives to [res.status(...).json(...)]. *)
Definition error_response (cfg : Config) (id : option string) (e : JsError)
  : Response :=
  if String.eqb (name e) "ValidationError" then
    {| statusCode := 400;
       payload := JsonBody (json_object
         [ ("error", Some (JString "Validation Error"));
           ("details", Some (JString (message e)));
           ("requestId", JString <$> id) ]) |}
  else if String.eqb (name e) "UnauthorizedError" then
    {| statusCode := 401;
       payload := JsonBody (json_object
         [ ("error", Some (JString "Authentication Error"));
           ("details", Some (JString (message e)));
           ("requestId", JString <$> id) ]) |}
  else
    {| statusCode := Js.or_default (status e) 500;
       payload := JsonBody (json_object
         [ ("error", Some (JString "Internal Server Error"));
           ("message", Some (JString (if production cfg
                                      then "Something went wrong"
                                      else message e)));
           ("requestId", JString <$> id) ]) |}.

(** The status codes that Node sends. *)
Definition valid_status (c : Z) : bool := (100 <=? c) && (c <=? 999).

(** The status codes that are sent without a body. *)
Definition bodyless (c : Z) : bool :=
  (c <? 200) || (c =? 204) || (c =? 205) || (c =? 304).

(** [res.status(c).json(body)]: a status code outside 100..999 makes it
    throw ([None]); the informational codes and 204, 205 and 304 are sent
    without the body. *)
Definition send_json (r : Response) : option Response :=
  if valid_status (statusCode r) then
    Some (if bodyless (statusCode r)
          then {| statusCode := statusCode r; payload := NoBody |}
          else r)
  else None.

(** The error that [res.status(...).json(...)] throws. *)
Definition invalid_status_code (i : Inputs) : JsError :=
  {| name := "RangeError"; message := "Invalid status code";
     status := None; stack := thrown i |}.

Section Pipeline.

Variable hostname : string -> option string.
Variable app : App.

(** A layer with three parameters, run when no error is pending. *)
Definition exec (st : Stage) (rq : Request) (i : Inputs)
    (c : Ctx) (s : AppState) : Outcome * Ctx * AppState :=
  match st with
  | Helmet => (Next, add_headers (helmet_headers i) c, s)
  | Compression => (Next, set_compressed c, s)
  | Cors =>
      if origin_callback hostname (variant app) (origin rq) then
        let c' := add_headers (cors_headers (origin rq)) c in
        if is_options (method rq)
        then (End {| statusCode := 204; payload := NoBody |}, c', s)
        else (Next, c', s)
      else (NextErr cors_error, c, s)
  | JsonParser => (parse_body CtJson (body rq), c, s)
  | UrlencodedParser => (parse_body CtUrlencoded (body rq), c, s)
  | RequestLogger => (Next, set_started (now i) c, s)
  | RequestId => (Next, set_req_id (Uuid.randomUUID (random i)) c, s)
  | Limiter =>
      let '(store, rejected) :=
        Admission.limiter (conf app) (limiter_store s) (ip rq) (now i) in
      match rejected with
      | Some r => (End r, c, set_limiter_store store s)
      | None => (Next, c, set_limiter_store store s)
      end
  | SpeedLimiter =>
      let '(store, delay) :=
        Admission.speedLimiter (speed_store s) (ip rq) (now i) in
      (Next, add_delay delay c, set_speed_store store s)
  | Dispatch =>
      let '(o, n, st') := dispatch rq i (cache_store s) in
      (o, set_removed n c, set_cache st' s)
  | ErrorLogger | ErrorHandler => (Next, c, s)
  end.

(** A layer with four parameters, run when an error is pending.  The
    error layers are mounted at the root, where [req.url] is whole. *)
Definition exec_err (st : Stage) (e : JsError) (rq : Request) (i : Inputs)
    (c : Ctx) (s : AppState) : Outcome * Ctx * AppState :=
  match st with
  | ErrorLogger =>
      (NextErr e, c,
       write_log (LogError (message e) (stack e) (method_name (method rq))
                           (url rq) (req_id c)) s)
  | ErrorHandler =>
      let s' := write_log (LogText LError
                             ("[Error] [" ++ Js.template (req_id c) ++ "] "
                              ++ stack e)
                             None) s in
      match send_json (error_response (conf app) (req_id c) e) with
      | Some r => (End r, c, s')
      | None => (NextErr (invalid_status_code i), c, s')
      end
  | _ => (NextErr e, c, s)
  end.

(** The layer has handed over: when it has sent the response, that is
    noted together with where it is mounted. *)
Definition handed (prefix : list string) (st : Stage) (o : Outcome) (c : Ctx)
  : Ctx :=
  match o with
  | End _ => set_ended prefix st c
  | _ => c
  end.

(** Express's dispatch: the layers are tried in registration order; a
    layer whose prefix does not match the path is passed over; while an
    error is pending only the error-handling layers run, and otherwise
    only the others; a response ends the chain. *)
Fixpoint run (ls : list Layer) (o : Outcome) (rq : Request) (i : Inputs)
    (c : Ctx) (s : AppState) : Outcome * Ctx * AppState :=
  match ls with
  | [] => (o, c, s)
  | (prefix, st) :: rest =>
      match o with
      | End _ => (o, c, s)
      | Next =>
          if handles_errors st || negb (mounted prefix (path rq))
          then run rest Next rq i c s
          else
            let '(o', c', s') := exec st rq i (visit st c) s in
            run rest o' rq i (handed prefix st o' c') s'
      | NextErr e =>
          if handles_errors st && mounted prefix (path rq)
          then
            let '(o', c', s') := exec_err st e rq i (visit st c) s in
            run rest o' rq i (handed prefix st o' c') s'
          else run rest o rq i c s
      end
  end.

(** The status of Express's own page for an error: the status that the
    error declares when it is an error status, and 500 otherwise (the
    status of the response is not an error status at that point). *)
Definition final_status (e : JsError) : Z :=
  match status e with
  | Some c => if (400 <=? c) && (c <=? 599) then c else 500
  | None => 500
  end.

(** The name of an error status on Express's own page.  That of 500 is
    the one met in this application; the others are as the installed
    package has them. *)
Definition status_text (i : Inputs) (c : Z) : string :=
  if c =? 500 then "Internal Server Error" else status_name i c.

(** What Express answers when the chain is left without a response: its
    page for status 404, or its page for the error, which shows the stack
    of the error or, in production mode, the name of the status.  (In
    this application an error gets here only from the terminal error
    handler, without a status of its own.) *)
Definition finalhandler (cfg : Config) (i : Inputs) (o : Outcome)
    (rq : Request) : Response :=
  match o with
  | End r => r
  | Next =>
      {| statusCode := 404;
         payload := TextBody ("Cannot " ++ method_name (method rq) ++ " "
                              ++ pathname (path rq)) |}
  | NextErr e =>
      {| statusCode := final_status e;
         payload := TextBody (if production cfg
                              then status_text i (final_status e)
                              else stack e) |}
  end.

(** Express's own pages come with a content security policy of their
    own. *)
Definition final_headers (o : Outcome) (c : Ctx) : Ctx :=
  match o with
  | End _ => c
  | _ => replace_header "Content-Security-Policy" "default-src 'none'" c
  end.

Record Result := {
  response : Response;
  context : Ctx;
  state : AppState
}.

(** The end of a request that left the chain as [o]: Express answers if
    no layer has, and when the response is finished the listener that
    [requestLogger] installed, if the request got that far, writes its
    record with the identifier the request has by then and with [req.url]
    as the layer that sent the response has left it. *)
Definition finish (rq : Request) (i : Inputs) (o : Outcome) (c : Ctx)
    (s : AppState) : Result :=
  let r := finalhandler (conf app) i o rq in
  {| response := r;
     context := final_headers o c;
     state :=
       match started c with
       | Some t0 =>
           write_log (LogRequest (method_name (method rq))
                                 (url_below (removed c) rq)
                                 (statusCode r) (finished i - t0) (req_id c)) s
       | None => s
       end |}.

(** One request through the application. *)
Definition handle (rq : Request) (i : Inputs) (s : AppState) : Result :=
  let '(o, c, s1) := run layers Next rq i initial_ctx s in
  finish rq i o c s1.

End Pipeline.

(** ** Code that logs and may throw *)

Module Task.

(** A computation that appends to the log and either returns a value or
    throws. *)
Definition M (A : Type) : Type :=
  list LogRecord -> (A + string) * list LogRecord.

Definition ret {A} (a : A) : M A := fun lg => (inl a, lg).

Definition throw {A} (e : string) : M A := fun lg => (inr e, lg).

Definition bind {A B} (m : M A) (k : A -> M B) : M B :=
  fun lg =>
    match m lg with
    | (inl a, lg') => k a lg'
    | (inr e, lg') => (inr e, lg')
    end.

(** [try { m } catch (e) { h(e) }] *)
Definition try_catch {A} (m : M A) (h : string -> M A) : M A :=
  fun lg =>
    match m lg with
    | (inl a, lg') => (inl a, lg')
    | (inr e, lg') => h e lg'
    end.

Definition say (level : Level) (text : string) (detail : option string)
  : M unit :=
  fun lg => (inl tt, (lg ++ [LogText level text detail])%list).

End Task.

Notation "'let!' x := m 'in' k" := (Task.bind m (fun x => k))
  (at level 10, x name, m at level 100, k at level 200).
Notation "'do' m 'then' k" := (Task.bind m (fun _ => k))
  (at level 10, m at level 100, k at level 200).

(** ** Loading the application module *)

Inductive Load :=
| Exited (code : Z) (stderr : list string)   (* process.exit(code) *)
| Threw (error : string) (stderr : list string)
| Loaded (a : App).

(** The head of [app.js]: the required variables are checked before
    anything else is required or built. *)
Definition load_app (v : Variant) (file env : gmap string string) : Load :=
  let env' := Env.dotenv_config file env in
  let missingEnvVars := Env.missingEnvVars env' in
  if (0 <? length missingEnvVars)%nat then
    let line := "Missing required environment variables: "
                ++ Js.join ", " missingEnvVars in
    match v with
    | Server => Exited 1 [line]
    | Serverless => Threw line [line]
    end
  else Loaded {| variant := v; conf := config_of_env env' |}.

(** [await redisClient.connect()] *)
Definition redis_connect (r : Settled) : Task.M RedisClient :=
  match r with
  | Fulfilled => Task.ret {| isOpen := true |}
  | Rejected e => Task.throw e
  end.

(** "Initialize Redis connection if enabled (best-effort)": the body of the
    asynchronous block, whose promise nobody awaits. *)
Definition redis_init (cfg : Config) (redisClient : option RedisClient)
    (connect : Settled) : Task.M (option RedisClient) :=
  match redisClient with
  | Some client =>
      if use_redis cfg then
        Task.try_catch
          (if negb (isOpen client) then
             let! client' := redis_connect connect in
             do Task.say LInfo "Redis connected successfully" None then
             Task.ret (Some client')
           else Task.ret (Some client))
          (fun error =>
             do Task.say LError "Redis connection error:" (Some error) then
             do Task.say LInfo "Continuing with in-memory cache" None then
             Task.ret (Some client))
      else
        do Task.say LInfo "Running with in-memory cache (Redis disabled)" None then
        Task.ret redisClient
  | None =>
      do Task.say LInfo "Running with in-memory cache (Redis disabled)" None then
      Task.ret None
  end.

(** ** The store connection at startup *)

Module Store.

(** [await p] for a promise that settles as [r]. *)
Definition await (r : Settled) : Task.M unit :=
  match r with
  | Fulfilled => Task.ret tt
  | Rejected e => Task.throw e
  end.

(** "MongoDB connection (reuse connection across function invocations)":
    [mongoose.connect(...).then(...).catch(...)], made only while the
    connection is disconnected.  The server variant's handler swallows the
    error after logging it; the serverless one throws it again. *)
Definition connect (v : Variant) (readyState : Z) (outcome : Settled)
  : Task.M unit :=
  if readyState =? 0 then
    Task.try_catch
      (do await outcome then
       Task.say LInfo "✅ Successfully connected to MongoDB" None)
      (fun err =>
         do Task.say LError "❌ Error connecting to MongoDB:" (Some err) then
         match v with
         | Server => Task.ret tt
         | Serverless => Task.throw err
         end)
  else Task.ret tt.

(** The listener of the connection's ['open'] event: the indexes of the
    cart collection are dropped.  [model] is how [mongoose.model('Cart')]
    ends and [drop] how [dropIndexes()] does. *)
Definition on_open (v : Variant) (model drop : Settled) : Task.M unit :=
  do match v with
     | Server =>
         Task.say LInfo "MongoDB connection established successfully" None
     | Serverless => Task.ret tt
     end then
  Task.try_catch
    (do await model then
     do await drop then
     Task.say LInfo "Successfully dropped all indexes from cart collection" None)
    (fun err => Task.say LError "Error dropping indexes:" (Some err)).

(** The listener is registered with [once]: the first ['open'] event runs
    it and removes it.  [armed] tells whether it is still registered; each
    event comes with how the two calls of the listener would end. *)
Fixpoint open_events (v : Variant) (armed : bool)
    (events : list (Settled * Settled)) : Task.M bool :=
  match events with
  | [] => Task.ret armed
  | (model, drop) :: rest =>
      if armed
      then do on_open v model drop then open_events v false rest
      else open_events v false rest
  end.

(** The records about the index maintenance. *)
Definition about_indexes (r : LogRecord) : bool :=
  match r with
  | LogText LInfo text _ =>
      String.eqb text "Successfully dropped all indexes from cart collection"
  | LogText LError text _ => String.eqb text "Error dropping indexes:"
  | _ => false
  end.

End Store.


(** Whether the initialisation of the cache has to wait for a connection
    attempt; otherwise all it does is done while the module is loaded. *)
Definition cache_awaits (cfg : Config) (redisClient : option RedisClient)
  : bool :=
  use_redis cfg
  && match redisClient with
     | Some client => negb (isOpen client)
     | None => false
     end.

(** The process once the promises of the module load have settled. *)
Inductive Boot :=
| Aborted (l : Load)                       (* the check of the variables failed *)
| Crashed (reason : string) (lg : list LogRecord)   (* unhandled rejection *)
| Serving (a : App) (redisClient : option RedisClient) (lg : list LogRecord).

(** Loading [app.js]: after the check of the variables, the cache
    initialisation and the store connection are started, and nobody awaits
    either.  [connect] is how [redisClient.connect()] ends, [readyState]
    is mongoose's when the module is loaded, [store] is how
    [mongoose.connect()] ends, and [store_first] tells that the promise of
    the store is settled before that of the cache.  A rejection that
    nothing handles ends the process. *)
Definition boot (v : Variant) (file env : gmap string string)
    (redisClient : option RedisClient) (connect : Settled)
    (readyState : Z) (store : Settled) (store_first : bool) : Boot :=
  match load_app v file env with
  | Loaded a =>
      let cache := redis_init (conf a) redisClient connect in
      let db := Store.connect v readyState store in
      let startup :=
        if store_first && cache_awaits (conf a) redisClient
        then (do db then cache)
        else (let! client := cache in do db then Task.ret client) in
      match startup [] with
      | (inl client, lg) => Serving a client lg
      | (inr e, lg) => Crashed e lg
      end
  | l => Aborted l
  end.

(** The state in which a process starts to serve. *)
Definition serving_state (b : Boot) : AppState :=
  match b with
  | Serving a client lg =>
      {| limiter_store := ∅; speed_store := ∅; log := lg;
         cache_store := Cache.init (conf a) client |}
  | _ => initial_state
  end.

(** A request is answered only by a process that is serving. *)
Definition serve (hostname : string -> option string) (b : Boot)
    (rq : Request) (i : Inputs) (s : AppState) : option Result :=
  match b with
  | Serving a _ _ => Some (handle hostname a rq i s)
  | _ => None
  end.

(** ** Graceful shutdown: [server.js] *)

Module Shutdown.

(** Where an invocation of [gracefulShutdown] is suspended. *)
Inductive Await :=
| AwaitQuit       (* await redisClient.quit() *)
| AwaitClose      (* await mongoose.connection.close() *)
| Returned.

Inductive Effect :=
| Logged (r : LogRecord)
| RedisQuit                  (* redisClient.quit() is called *)
| MongoClose                 (* mongoose.connection.close() is called *)
| ProcessExit (code : Z).

(** The process as the shutdown code sees it.  [readyState] is
    mongoose's: 0 disconnected, 1 connected, 2 connecting,
    3 disconnecting. *)
Record Proc := {
  useRedis : bool;                   (* process.env.USE_REDIS === 'true' *)
  redisClient : option RedisClient;
  readyState : Z;
  tasks : list Await;                (* the invocations so far *)
  effects : list Effect;
  exited : option Z
}.

Definition emit (es : list Effect) (p : Proc) : Proc :=
  {| useRedis := useRedis p; redisClient := redisClient p;
     readyState := readyState p; tasks := tasks p;
     effects := effects p ++ es; exited := exited p |}.

Definition info (text : string) : Effect := Logged (LogText LInfo text None).

Definition exit (code : Z) (p : Proc) : Proc :=
  {| useRedis := useRedis p; redisClient := redisClient p;
     readyState := readyState p; tasks := tasks p;
     effects := effects p ++ [ProcessExit code]; exited := Some code |}.

Definition set_task (t : nat) (a : Await) (p : Proc) : Proc :=
  {| useRedis := useRedis p; redisClient := redisClient p;
     readyState := readyState p; tasks := <[t := a]> (tasks p);
     effects := effects p; exited := exited p |}.

Definition set_readyState (n : Z) (p : Proc) : Proc :=
  {| useRedis := useRedis p; redisClient := redisClient p;
     readyState := n; tasks := tasks p;
     effects := effects p; exited := exited p |}.

Definition set_redis (c : option RedisClient) (p : Proc) : Proc :=
  {| useRedis := useRedis p; redisClient := c;
     readyState := readyState p; tasks := tasks p;
     effects := effects p; exited := exited p |}.

(** From the test of [readyState] on: invocation [t] either calls
    [close()] and waits, or exits with status 0. *)
Definition store_phase (t : nat) (p : Proc) : Proc :=
  if negb (readyState p =? 0)
  then set_task t AwaitClose (set_readyState 3 (emit [MongoClose] p))
  else exit 0 (set_task t Returned p).

(** A termination signal: [gracefulShutdown] is invoked and runs up to
    its first [await]. *)
Definition signal (p : Proc) : Proc :=
  let t := length (tasks p) in
  let p1 :=
    emit [info "Received shutdown signal, starting graceful shutdown..."]
      {| useRedis := useRedis p; redisClient := redisClient p;
         readyState := readyState p; tasks := tasks p ++ [Returned];
         effects := effects p; exited := exited p |} in
  match redisClient p1 with
  | Some _ =>
      if useRedis p1
      then set_task t AwaitQuit (emit [RedisQuit] p1)
      else store_phase t p1
  | None => store_phase t p1
  end.

(** The promise that invocation [t] awaits is settled. *)
Definition settle (t : nat) (r : Settled) (p : Proc) : Proc :=
  match tasks p !! t with
  | Some AwaitQuit =>
      match r with
      | Fulfilled =>
          store_phase t
            (emit [info "Redis connection closed"]
               (set_redis (Some {| isOpen := false |}) p))
      | Rejected e =>
          store_phase t
            (emit [Logged (LogText LWarn "Redis quit error (ignored):" (Some e))] p)
      end
  | Some AwaitClose =>
      match r with
      | Fulfilled =>
          exit 0 (set_task t Returned
            (emit [info "MongoDB connection closed"] (set_readyState 0 p)))
      | Rejected e =>
          exit 1 (set_task t Returned
            (emit [Logged (LogText LError "Error during shutdown:" (Some e))] p))
      end
  | _ => p
  end.

Inductive Event :=
| Signal                              (* SIGTERM or SIGINT *)
| Settle (task : nat) (r : Settled).

(** Nothing runs in a process that has exited. *)
Definition step (p : Proc) (ev : Event) : Proc :=
  match exited p with
  | Some _ => p
  | None =>
      match ev with
      | Signal => signal p
      | Settle t r => settle t r p
      end
  end.

Definition run (p : Proc) (evs : list Event) : Proc := fold_left step evs p.

(** The calls that close connections, in the order they were made. *)
Definition closes (es : list Effect) : list Effect :=
  List.filter (fun e => match e with RedisQuit | MongoClose => true | _ => false end) es.

(** A running process whose two connections are open. *)
Definition both_open (p : Proc) : Prop :=
  useRedis p = true ∧ redisClient p = Some {| isOpen := true |} ∧
  readyState p ≠ 0 ∧ exited p = None.

End Shutdown.

(** ** Sequences of requests *)

Section Traffic.

Variable hostname : string -> option string.
Variable app : App.

Definition is_next (o : Outcome) : bool :=
  match o with Next => true | _ => false end.

(** The request gets as far as the assignment of its identifier: its
    origin is allowed, it is not a preflight, and its body is accepted. *)
Definition reaches_context (rq : Request) : bool :=
  origin_callback hostname (variant app) (origin rq)
  && negb (is_options (method rq))
  && is_next (parse_body CtJson (body rq))
  && is_next (parse_body CtUrlencoded (body rq)).

(** The request gets as far as the admission stages: its path is under
    the [/api] prefix as well. *)
Definition reaches_admission (rq : Request) : bool :=
  reaches_context rq && mounted ["api"] (path rq).

(** The requests that the admission stages count for the key [k]. *)
Definition counted (k : string) (rq : Request) : bool :=
  reaches_admission rq && String.eqb (ip rq) k.

(** The requests are handled one after the other. *)
Fixpoint serve_all (s : AppState) (reqs : list (Request * Inputs))
  : list Result * AppState :=
  match reqs with
  | [] => ([], s)
  | (rq, i) :: rest =>
      let r := handle hostname app rq i s in
      let '(rs, s') := serve_all (state r) rest in
      (r :: rs, s')
  end.

(** The results of the requests counted for [k], in order. *)
Definition results_for (k : string) (s : AppState)
    (reqs : list (Request * Inputs)) : list Result :=
  snd <$> List.filter (fun p => counted k (fst (fst p)))
                      (zip reqs (fst (serve_all s reqs))).

(** The request was passed on to the routes. *)
Definition admitted (r : Result) : Prop := In Dispatch (visited (context r)).

(** No bucket of [k] is running at time [t]. *)
Definition no_window (store : gmap string RateStore.Bucket) (k : string)
    (t : Z) : Prop :=
  ∀ b, store !! k = Some b → RateStore.resetTime b <= t.

End Traffic.




(** ** Where the log records go: the transports of [utils/logger.js] *)

Module Winston.

Inductive Sink := Console | File (filename : string).

Record Transport := {
  sink : Sink;
  level : option Level      (* the [level] option of the transport *)
}.

(** "Always log to console"; "Enable file logging only if explicitly
    requested". *)
Definition transports (env : gmap string string) : list Transport :=
  {| sink := Console; level := None |}
  :: (if Js.strict_eq (env !! "ENABLE_FILE_LOGS") "true"
      then [ {| sink := File "logs/error.log"; level := Some LError |};
             {| sink := File "logs/combined.log"; level := None |} ]
      else []).

(** The levels of winston, most severe first. *)
Definition priority (l : Level) : Z :=
  match l with
  | LError => 0
  | LWarn => 1
  | LInfo => 2
  end.

(** A transport takes the records that are at least as severe as its
    level; without a level of its own it takes what the logger passes,
    whose level is [info]. *)
Definition accepts (t : Transport) (l : Level) : bool :=
  (priority l <=? priority LInfo)
  && match level t with
     | Some tl => priority l <=? priority tl
     | None => true
     end.

(** The level at which a record is logged: [requestLogger] calls
    [logger.info], [errorLogger] calls [logger.error]. *)
Definition level_of (r : LogRecord) : Level :=
  match r with
  | LogText l _ _ => l
  | LogRequest _ _ _ _ _ => LInfo
  | LogError _ _ _ _ _ => LError
  end.

Definition sink_eqb (a b : Sink) : bool :=
  match a, b with
  | Console, Console => true
  | File f, File g => String.eqb f g
  | _, _ => false
  end.

(** What of a log arrives at a sink. *)
Definition written (env : gmap string string) (s : Sink)
    (lg : list LogRecord) : list LogRecord :=
  List.filter
    (fun r => existsb (fun t => sink_eqb (sink t) s && accepts t (level_of r))
                      (transports env))
    lg.

End Winston.

(** The records of completed requests, which [requestLogger] writes. *)
Definition is_completion (r : LogRecord) : bool :=
  match r with
  | LogRequest _ _ _ _ _ => true
  | _ => false
  end.

(** The decimal numeral of a positive number. *)
Definition decimal (p : positive) : string :=
  NilEmpty.string_of_uint (Pos.to_uint p).

(** ** Readings of the log, of the answers and of the effects *)

(** The record that [requestLogger] writes when the response is finished;
    [n] segments are missing from [req.url] by then. *)
Definition completion (rq : Request) (i : Inputs) (n : nat) (r : Response)
    (id : option string) : LogRecord :=
  LogRequest (method_name (method rq)) (url_below n rq) (statusCode r)
             (finished i - now i) id.

(** The two records that the error layers write for the error [e]. *)
Definition error_records (rq : Request) (e : JsError) (id : option string)
  : list LogRecord :=
  [ LogError (message e) (stack e) (method_name (method rq)) (url rq) id;
    LogText LError ("[Error] [" ++ Js.template id ++ "] " ++ stack e) None ].

(** The page by which Express answers when the terminal error handler has
    thrown. *)
Definition error_page (cfg : Config) (i : Inputs) : Response :=
  {| statusCode := 500;
     payload := TextBody (if production cfg then "Internal Server Error"
                          else thrown i) |}.

(** *** The chain written out

    The way of a request through [layers], stage by stage, as the
    interpreter takes it ([handle_unfolded] below). *)

Section Unfolded.

Variable hostname : string -> option string.
Variable app : App.
Variable rq : Request.
Variable i : Inputs.

(** From the moment an error is handed over. *)
Definition error_path (e : JsError) (c : Ctx) (s : AppState) : Result :=
  let c' := visit ErrorHandler (visit ErrorLogger c) in
  let s' :=
    write_log (LogText LError
                 ("[Error] [" ++ Js.template (req_id c) ++ "] " ++ stack e)
                 None)
      (write_log (LogError (message e) (stack e) (method_name (method rq))
                           (url rq) (req_id c)) s) in
  match send_json (error_response (conf app) (req_id c) e) with
  | Some r => finish app rq i (End r) (set_ended [] ErrorHandler c') s'
  | None => finish app rq i (NextErr (invalid_status_code i)) c' s'
  end.

(** From the routes on. *)
Definition routes_path (c : Ctx) (s : AppState) : Result :=
  let '(o, n, st) := dispatch rq i (cache_store s) in
  let c' := set_removed n (visit Dispatch c) in
  let s' := set_cache st s in
  match o with
  | End r => finish app rq i (End r) (set_ended [] Dispatch c') s'
  | NextErr e => error_path e c' s'
  | Next => finish app rq i Next c' s'
  end.

(** From the assignment of the identifier on. *)
Definition admission_path (c : Ctx) (s : AppState) : Result :=
  let c' :=
    set_req_id (Uuid.randomUUID (random i))
      (visit RequestId (set_started (now i) (visit RequestLogger c))) in
  if mounted ["api"] (path rq) then
    let '(store, rejected) :=
      Admission.limiter (conf app) (limiter_store s) (ip rq) (now i) in
    match rejected with
    | Some r =>
        finish app rq i (End r) (set_ended ["api"] Limiter (visit Limiter c'))
               (set_limiter_store store s)
    | None =>
        let '(store', delay) :=
          Admission.speedLimiter (speed_store s) (ip rq) (now i) in
        routes_path (add_delay delay (visit SpeedLimiter (visit Limiter c')))
                    (set_speed_store store' (set_limiter_store store s))
    end
  else routes_path c' s.

(** What a layer does that has no response to send: it hands over, or
    hands an error over. *)
Definition after (st : Stage) (o : Outcome) (c : Ctx) (s : AppState)
    (k : Ctx -> AppState -> Result) : Result :=
  match o with
  | Next => k (visit st c) s
  | NextErr e => error_path e (visit st c) s
  | End r => finish app rq i (End r) (set_ended [] st (visit st c)) s
  end.

Definition unfolded (s : AppState) : Result :=
  let c :=
    visit Cors (set_compressed (visit Compression
      (add_headers (helmet_headers i) (visit Helmet initial_ctx)))) in
  if origin_callback hostname (variant app) (origin rq) then
    let c' := add_headers (cors_headers (origin rq)) c in
    if is_options (method rq) then
      finish app rq i (End {| statusCode := 204; payload := NoBody |})
             (set_ended [] Cors c') s
    else
      after JsonParser (parse_body CtJson (body rq)) c' s (fun c1 s1 =>
      after UrlencodedParser (parse_body CtUrlencoded (body rq)) c1 s1
        admission_path)
  else error_path cors_error c s.

End Unfolded.

(** The external cache is the configured backend and its connection is not
    open. *)
Definition outage (st : Cache.Store) : Prop :=
  Cache.backend st = Cache.External ∧ Cache.ready st = false.

(** The same cache with the in-process store as its configured backend. *)
Definition in_process (st : Cache.Store) : Cache.Store :=
  {| Cache.backend := Cache.InProcess; Cache.ready := Cache.ready st;
     Cache.external := Cache.external st; Cache.local := Cache.local st |}.

(** The calls of the cache's [quit]. *)
Definition quit_calls (es : list Shutdown.Effect) : list Shutdown.Effect :=
  List.filter (fun e => match e with Shutdown.RedisQuit => true | _ => false end) es.

(** The calls of the store's [close]. *)
Definition close_calls (es : list Shutdown.Effect) : list Shutdown.Effect :=
  List.filter (fun e => match e with Shutdown.MongoClose => true | _ => false end) es.

(** The line that is logged when the close sequence fails. *)
Definition shutdown_failure (e : string) : Shutdown.Effect :=
  Shutdown.Logged (LogText LError "Error during shutdown:" (Some e)).

(** A process has exited, if at all, with status 0, or with status 1 after
    the failure of the close sequence was logged. *)
Definition exit_explained (p : Shutdown.Proc) : Prop :=
  match Shutdown.exited p with
  | None => True
  | Some c =>
      c = 0 ∨ (c = 1 ∧ ∃ e, In (shutdown_failure e) (Shutdown.effects p))
  end.

(** The cache is switched off and no invocation waits for its [quit]. *)
Definition cache_off (p : Shutdown.Proc) : Prop :=
  (Shutdown.useRedis p = false ∨ Shutdown.redisClient p = None)
  ∧ Forall (fun a => a ≠ Shutdown.AwaitQuit) (Shutdown.tasks p).

(** The store is disconnected and no invocation waits for its [close]. *)
Definition store_off (p : Shutdown.Proc) : Prop :=
  Shutdown.readyState p = 0
  ∧ Forall (fun a => a ≠ Shutdown.AwaitClose) (Shutdown.tasks p).

(** Whether the client, if there is one, is connected. *)
Definition is_open (c : option RedisClient) : bool :=
  match c with
  | Some c => isOpen c
  | None => false
  end.

(** Whether a promise was fulfilled. *)
Definition is_fulfilled (r : Settled) : bool :=
  match r with
  | Fulfilled => true
  | Rejected _ => false
  end.

(** ** Concrete inputs for the examples *)

Module Sample.

Fixpoint after_scheme (s : string) : option string :=
  match s with
  | String ":" (String "/" (String "/" rest)) => Some rest
  | String _ s' => after_scheme s'
  | EmptyString => None
  end.

Fixpoint host_part (s : string) : string :=
  match s with
  | String c s' =>
      if (Ascii.eqb c ":" || Ascii.eqb c "/" || Ascii.eqb c "?" || Ascii.eqb c "#")%bool
      then EmptyString
      else String (lower c) (host_part s')
  | EmptyString => EmptyString
  end.

(** A URL parser for origins written [scheme://host[:port]], enough to
    run the examples; the theorems hold for every parser. *)
Definition hostname (s : string) : option string :=
  match s with
  | String ":" _ => None
  | _ => host_part <$> after_scheme s
  end.

(** A request without a body to parse. *)
Definition no_body : Body :=
  {| ctype := CtOther; oversize := false; malformed := false |}.

(** The inputs of a request that arrives at the time [t], with routers
    that all do [h]. *)
Definition inputs_at (t : Z) (h : HandlerResult) : Inputs :=
  {| now := t; finished := t + 7;
     random := [1; 2; 3; 255; 16; 17; 18; 19; 20; 21; 22; 23; 24; 25; 26; 27];
     timestamp := "2024-01-01T00:00:00.000Z"; uptime := "12.5";
     handler := fun _ => h;
     nested := 0;
     csp_defaults := [];
     thrown := "RangeError [ERR_HTTP_INVALID_STATUS_CODE]: Invalid status code: -1";
     status_name := fun _ => "Error" |}.

Definition inputs (h : HandlerResult) : Inputs := inputs_at 1000 h.

(** What a route answers when all is well. *)
Definition ok : Response :=
  {| statusCode := 200; payload := JsonBody [("ok", JString "yes")] |}.

(** The application with the default configuration. *)
Definition app (v : Variant) : App :=
  {| variant := v; conf := config_of_env ∅ |}.

(** The address of the sample client. *)
Definition client : string := "203.0.113.7".

(** A request of the sample client for the path [p], sent from the origin
    [o]. *)
Definition get (p : list string) (o : option string) : Request :=
  {| method := GET; path := p; query := None; origin := o; ip := client;
     body := no_body |}.

(** A request of the sample client under the [/api] prefix, at time [t]. *)
Definition api_request (t : Z) : Request * Inputs :=
  (get ["api"; "products"] None, inputs_at t (Responds ok)).

(** [n] such requests in quick succession. *)
Definition burst (n : nat) : list (Request * Inputs) :=
  repeat (api_request 1000) n.

(** An error by which a handler declares that something was not found. *)
Definition not_found : JsError :=
  {| name := "NotFoundError"; message := "Order not found";
     status := Some 404; stack := "NotFoundError: Order not found" |}.

(** A state in which the sample client has used up the ceiling of the
    running window. *)
Definition busy : AppState :=
  {| limiter_store :=
       {[client := {| RateStore.totalHits := 100;
                      RateStore.resetTime := 900000 |}]};
     speed_store :=
       {[client := {| RateStore.totalHits := 100;
                      RateStore.resetTime := 900000 |}]};
     log := [];
     cache_store := cache_store initial_state |}.

(** A process environment with the required variables and the external
    cache switched on. *)
Definition env : gmap string string :=
  <["JWT_SECRET" := "s3cret"]>
    (<["MONGODB_URI" := "mongodb://localhost/bufood"]>
       {["USE_REDIS" := "true"]}).

(** The application that the server variant builds in an environment. *)
Definition app_of (e : gmap string string) : App :=
  {| variant := Server; conf := config_of_env (Env.dotenv_config ∅ e) |}.

(** A running process with both connections open. *)
Definition process : Shutdown.Proc :=
  {| Shutdown.useRedis := true;
     Shutdown.redisClient := Some {| isOpen := true |};
     Shutdown.readyState := 1;
     Shutdown.tasks := [];
     Shutdown.effects := [];
     Shutdown.exited := None |}.


(** A validation error that declares a status of its own. *)
Definition invalid : JsError :=
  {| name := "ValidationError"; message := "quantity must be positive";
     status := Some 422; stack := "ValidationError: quantity must be positive" |}.

(** An error that declares a status which is no HTTP status. *)
Definition odd : JsError :=
  {| name := "Error"; message := "odd"; status := Some (-1);
     stack := "Error: odd" |}.

(** The application in production mode. *)
Definition production_app : App :=
  {| variant := Server;
     conf := config_of_env {["NODE_ENV" := "production"]} |}.

(** A running process without the external cache, its store connected. *)
Definition process_without_cache : Shutdown.Proc :=
  {| Shutdown.useRedis := false;
     Shutdown.redisClient := None;
     Shutdown.readyState := 1;
     Shutdown.tasks := [];
     Shutdown.effects := [];
     Shutdown.exited := None |}.

(** A running process with the cache, its store disconnected. *)
Definition process_without_store : Shutdown.Proc :=
  {| Shutdown.useRedis := true;
     Shutdown.redisClient := Some {| isOpen := true |};
     Shutdown.readyState := 0;
     Shutdown.tasks := [];
     Shutdown.effects := [];
     Shutdown.exited := None |}.

End Sample.

(** * Properties *)

(** ** Startup *)

Lemma missing_when_unset (env : gmap string string) :
  env !! "JWT_SECRET" = None ∨ env !! "MONGODB_URI" = None →
  (0 <? length (Env.missingEnvVars env))%nat = true.
Proof.
  intros H. unfold Env.missingEnvVars, Env.requiredEnvVars. cbn [List.filter].
  destruct H as [H | H]; rewrite H; cbn.
  - reflexivity.
  - destruct (negb _); reflexivity.
Qed.

(** C10.  The required variables are checked when the application module is
    loaded, before the application is built: if [JWT_SECRET] or
    [MONGODB_URI] is unset (in the environment and in the [.env] file), the
    server variant exits with status 1, the serverless variant throws, and
    no request is ever served. *)
Theorem required_variables_checked
    (v : Variant) (file env : gmap string string)
    (client : option RedisClient) (connect : Settled)
    (readyState : Z) (store : Settled) (store_first : bool) :
  Env.dotenv_config file env !! "JWT_SECRET" = None
  ∨ Env.dotenv_config file env !! "MONGODB_URI" = None →
  (∃ line,
     boot v file env client connect readyState store store_first =
     Aborted (match v with
              | Server => Exited 1 [line]
              | Serverless => Threw line [line]
              end))
  ∧ (∀ a, load_app v file env ≠ Loaded a)
  ∧ (∀ hostname rq i s,
       serve hostname
         (boot v file env client connect readyState store store_first)
         rq i s = None).
Proof.
  intros H. apply missing_when_unset in H.
  assert (Hl : ∃ line, load_app v file env =
                 match v with
                 | Server => Exited 1 [line]
                 | Serverless => Threw line [line]
                 end).
  { unfold load_app. rewrite H. destruct v; eauto. }
  destruct Hl as [line Hl].
  split; [| split].
  - exists line. unfold boot. rewrite Hl. destruct v; reflexivity.
  - intros a. rewrite Hl. destruct v; discriminate.
  - intros hostname rq i s. unfold boot. rewrite Hl. destruct v; reflexivity.
Qed.

Lemma required_variables_checked_witness :
  (∃ line,
     boot Server ∅ {["MONGODB_URI" := "mongodb://localhost/bufood"]} None Fulfilled
          0 Fulfilled false =
     Aborted (Exited 1 [line]))
  ∧ (∀ a, load_app Server ∅ {["MONGODB_URI" := "mongodb://localhost/bufood"]}
          ≠ Loaded a)
  ∧ (∀ hostname rq i s,
       serve hostname
         (boot Server ∅ {["MONGODB_URI" := "mongodb://localhost/bufood"]}
               None Fulfilled 0 Fulfilled false) rq i s = None).
Proof.
  apply (required_variables_checked Server ∅
           {["MONGODB_URI" := "mongodb://localhost/bufood"]} None Fulfilled
           0 Fulfilled false).
  left. vm_compute. reflexivity.
Defined.

(** With both variables set the application is built, so the check does
    not refuse every environment. *)
Example load_app_complete :
  ∃ a, load_app Server ∅
         (<["JWT_SECRET" := "s3cret"]> {["MONGODB_URI" := "mongodb://localhost/bufood"]})
       = Loaded a.
Proof. eexists. vm_compute. reflexivity. Qed.

(** ** Origin validation *)

Lemma append_cons (c : ascii) (s t : string) :
  String c s ++ t = String c (s ++ t).
Proof. reflexivity. Qed.

Lemma length_append (s t : string) :
  String.length (s ++ t) = (String.length s + String.length t)%nat.
Proof.
  induction s as [| c s IH]; [reflexivity |].
  rewrite append_cons. simpl. now f_equal.
Qed.

Lemma substring_all (s : string) : String.substring 0 (String.length s) s = s.
Proof. induction s as [| c s IH]; simpl; [reflexivity | now f_equal]. Qed.

Lemma substring_append (pre suf : string) :
  String.substring (String.length pre) (String.length suf) (pre ++ suf) = suf.
Proof.
  induction pre as [| c pre IH]; [apply substring_all |].
  rewrite append_cons. exact IH.
Qed.

Lemma substring_split (s : string) (n m : nat) :
  (n + m)%nat = String.length s →
  s = String.substring 0 n s ++ String.substring n m s.
Proof.
  revert n; induction s as [| c s IH]; intros n H.
  - destruct n, m; try discriminate; reflexivity.
  - destruct n as [| n].
    + simpl in H. subst m. simpl. now rewrite substring_all.
    + simpl. rewrite append_cons. f_equal. apply IH. simpl in H. lia.
Qed.

(** [endsWith] holds exactly of the strings that are a prefix followed by
    the suffix. *)
Lemma endsWith_spec (s suffix : string) :
  Js.endsWith s suffix = true ↔ ∃ pre, s = pre ++ suffix.
Proof.
  unfold Js.endsWith. split.
  - destruct (Nat.leb_spec (String.length suffix) (String.length s)) as [Hle |];
      [| discriminate].
    intros H. apply String.eqb_eq in H.
    exists (String.substring 0 (String.length s - String.length suffix) s).
    pose proof (substring_split s (String.length s - String.length suffix)
                  (String.length suffix)) as Hs.
    rewrite H in Hs. apply Hs. lia.
  - intros [pre ->]. rewrite length_append.
    destruct (Nat.leb_spec (String.length suffix)
                (String.length pre + String.length suffix)) as [_ | Hlt]; [| lia].
    replace (String.length pre + String.length suffix - String.length suffix)%nat
      with (String.length pre) by lia.
    rewrite substring_append. apply String.eqb_refl.
Qed.

Lemma includes_In (l : list string) (s : string) :
  includes l s = true ↔ In s l.
Proof.
  unfold includes. rewrite existsb_exists. split.
  - intros (x & Hx & He). apply String.eqb_eq in He. now subst.
  - intros H. exists s. split; [exact H | apply String.eqb_refl].
Qed.

Lemma truthy_false (o : option string) :
  Js.truthy o = false ↔ o = None ∨ o = Some "".
Proof.
  destruct o as [s |]; cbn.
  - rewrite negb_false_iff, String.eqb_eq. split.
    + intros ->. now right.
    + intros [H | H]; congruence.
  - split; [now left | reflexivity].
Qed.

(** C4, as the code has it.  The validator allows an origin exactly when it
    is absent or the empty string, or is on the allow-list, or (in the
    serverless variant, which alone has a wildcard suffix) its host is a
    prefix followed by [.vercel.app]; every other origin is denied.  The
    decision depends on the origin and the configured lists only; on every
    origin other than the empty string it is the specified decision. *)
Theorem origin_rules (hostname : string -> option string)
    (v : Variant) (origin : option string) :
  (origin_callback hostname v origin = true ↔
     origin = None ∨ origin = Some ""
     ∨ (∃ o, origin = Some o ∧ In o (allowedOrigins v))
     ∨ (∃ o h pre suffix, origin = Some o ∧ hostname o = Some h
                          ∧ In suffix (wildcardSuffixes v) ∧ h = pre ++ suffix))
  ∧ (origin ≠ Some "" →
     origin_callback hostname v origin = specified_decision hostname v origin)
  ∧ origin_callback hostname Serverless origin = isAllowedOrigin hostname origin.
Proof.
  split; [| split].
  - destruct (Js.truthy origin) eqn:Ht.
    + destruct origin as [o |]; [| discriminate].
      assert (Hne : o ≠ "").
      { intros ->. discriminate. }
      destruct v; unfold origin_callback, isAllowedOrigin; rewrite Ht;
        cbn [negb default from_option id].
      * destruct (includes (allowedOrigins Server) o) eqn:Hi.
        -- split; [| reflexivity]. intros _. right; right; left.
           exists o. split; [reflexivity | now apply includes_In].
        -- split; [discriminate |].
           intros [H | [H | [(o' & H & Hin) | (o' & h & pre & suf & H & _ & [] & _)]]];
             try congruence.
           injection H as <-. apply includes_In in Hin. congruence.
      * destruct (includes (allowedOrigins Serverless) o) eqn:Hi.
        -- split; [| reflexivity]. intros _. right; right; left.
           exists o. split; [reflexivity | now apply includes_In].
        -- destruct (hostname o) as [h |] eqn:Hh.
           ++ destruct (Js.endsWith h ".vercel.app") eqn:He.
              ** split; [| reflexivity]. intros _. right; right; right.
                 apply endsWith_spec in He as [pre ->].
                 exists o, (pre ++ ".vercel.app"), pre, ".vercel.app".
                 repeat split; [exact Hh | now left].
              ** split; [discriminate |].
                 intros [H | [H | [(o' & H & Hin) | (o' & h' & pre & suf & H & Hh' & Hs & Hp)]]];
                   try congruence.
                 --- injection H as <-. apply includes_In in Hin. congruence.
                 --- injection H as <-. destruct Hs as [<- | []].
                     assert (Js.endsWith h ".vercel.app" = true); [| congruence].
                     apply endsWith_spec. exists pre. congruence.
           ++ split; [discriminate |].
              intros [H | [H | [(o' & H & Hin) | (o' & h' & pre & suf & H & Hh' & _)]]];
                try congruence.
              injection H as <-. apply includes_In in Hin. congruence.
    + split.
      * intros _. apply truthy_false in Ht. tauto.
      * intros _. destruct v; unfold origin_callback, isAllowedOrigin;
          rewrite Ht; reflexivity.
  - intros Hne. destruct origin as [o |].
    + assert (Ht : Js.truthy (Some o) = true).
      { cbn. apply negb_true_iff, String.eqb_neq. congruence. }
      destruct v; unfold origin_callback, isAllowedOrigin, specified_decision;
        rewrite Ht; cbn [negb default from_option id wildcardSuffixes existsb].
      * destruct (includes _ o); reflexivity.
      * destruct (includes _ o); [reflexivity |].
        destruct (hostname o) as [h |]; [| reflexivity].
        destruct (Js.endsWith h ".vercel.app"); reflexivity.
    + destruct v; reflexivity.
  - reflexivity.
Qed.

(** C4, counterexample.  An empty [Origin] header is a present origin that
    is on no allow-list and has no host, and both variants allow it, where
    the specified rules deny it. *)
Lemma origin_rules_empty_origin :
  origin_callback Sample.hostname Serverless (Some "") = true
  ∧ origin_callback Sample.hostname Server (Some "") = true
  ∧ specified_decision Sample.hostname Serverless (Some "") = false
  ∧ specified_decision Sample.hostname Server (Some "") = false
  ∧ ¬ In "" (allowedOrigins Serverless)
  ∧ ¬ In "" (allowedOrigins Server)
  ∧ Sample.hostname "" = None.
Proof.
  repeat split; try reflexivity.
  - cbn. intuition discriminate.
  - cbn. intuition discriminate.
Qed.

Example origin_examples :
  origin_callback Sample.hostname Serverless (Some "https://shop.vercel.app") = true
  ∧ origin_callback Sample.hostname Server (Some "https://shop.vercel.app") = false
  ∧ origin_callback Sample.hostname Serverless (Some "https://vercel.app") = false
  ∧ origin_callback Sample.hostname Server (Some "http://localhost:5173") = true
  ∧ origin_callback Sample.hostname Serverless (Some "https://delibup.netlify.app") = false.
Proof. repeat split. Qed.

(** ** Shutdown *)

Local Open Scope list_scope.

Module ShutdownFacts.
Import Shutdown.

Lemma insert_new_task (l : list Await) (a b : Await) :
  <[length l := a]> (l ++ [b]) = l ++ [a].
Proof.
  rewrite insert_app_r_alt by lia. now rewrite Nat.sub_diag.
Qed.

Lemma closes_app (es fs : list Effect) :
  closes (es ++ fs) = closes es ++ closes fs.
Proof. apply List.filter_app. Qed.

(** A signal with the cache enabled: the invocation calls [quit] and
    waits for it. *)
Lemma signal_quit (p : Proc) (c : RedisClient) :
  useRedis p = true → redisClient p = Some c →
  signal p =
    {| useRedis := true; redisClient := Some c; readyState := readyState p;
       tasks := tasks p ++ [AwaitQuit];
       effects := effects p
         ++ [info "Received shutdown signal, starting graceful shutdown..."]
         ++ [RedisQuit];
       exited := exited p |}.
Proof.
  intros Hu Hc. destruct p as [u c' rs ts es ex]. cbn in Hu, Hc. subst u c'.
  unfold signal, set_task, emit. cbn.
  rewrite insert_new_task, <- app_assoc. reflexivity.
Qed.

(** The awaited [quit] is settled, with the store connection not
    disconnected: whatever the outcome, [close] is called next. *)
Lemma settle_quit (p : Proc) (t : nat) (r : Settled) :
  tasks p !! t = Some AwaitQuit → readyState p ≠ 0 →
  settle t r p =
    {| useRedis := useRedis p;
       redisClient := match r with
                      | Fulfilled => Some {| isOpen := false |}
                      | Rejected _ => redisClient p
                      end;
       readyState := 3;
       tasks := <[t := AwaitClose]> (tasks p);
       effects := effects p
         ++ [match r with
             | Fulfilled => info "Redis connection closed"
             | Rejected e =>
                 Logged (LogText LWarn "Redis quit error (ignored):" (Some e))
             end]
         ++ [MongoClose];
       exited := exited p |}.
Proof.
  intros Ht Hr. unfold settle. rewrite Ht.
  assert (Hrs : negb (readyState p =? 0) = true).
  { apply negb_true_iff, Z.eqb_neq, Hr. }
  destruct p as [u c rs ts es ex]. cbn in Hrs.
  destruct r; unfold store_phase, set_task, set_readyState, emit, set_redis;
    cbn; rewrite Hrs; cbn; rewrite <- app_assoc; reflexivity.
Qed.

(** The awaited [close] is settled: the process exits, with status 0
    when it succeeded and 1 when it raised. *)
Lemma settle_close (p : Proc) (t : nat) (r : Settled) :
  tasks p !! t = Some AwaitClose →
  settle t r p =
    {| useRedis := useRedis p; redisClient := redisClient p;
       readyState := match r with Fulfilled => 0 | Rejected _ => readyState p end;
       tasks := <[t := Returned]> (tasks p);
       effects := effects p
         ++ [match r with
             | Fulfilled => info "MongoDB connection closed"
             | Rejected e =>
                 Logged (LogText LError "Error during shutdown:" (Some e))
             end]
         ++ [ProcessExit (match r with Fulfilled => 0 | Rejected _ => 1 end)];
       exited := Some (match r with Fulfilled => 0 | Rejected _ => 1 end) |}.
Proof.
  intros Ht. unfold settle. rewrite Ht.
  destruct p as [u c rs ts es ex].
  destruct r; unfold exit, set_task, set_readyState, emit; cbn;
    rewrite <- app_assoc; reflexivity.
Qed.

Lemma step_signal (p : Proc) :
  exited p = None → step p Signal = signal p.
Proof. intros H. unfold step. now rewrite H. Qed.

Lemma step_settle (p : Proc) (t : nat) (r : Settled) :
  exited p = None → step p (Settle t r) = settle t r p.
Proof. intros H. unfold step. now rewrite H. Qed.

End ShutdownFacts.

(** C6.  With the cache connection and the store connection both open, a
    termination signal makes the process quit the cache connection first
    and close the store connection after it; when the quit fails, the
    failure is logged as a warning and the close is made all the same; the
    process exits with status 0 when the close succeeds and with status 1
    when it raises. *)
Theorem shutdown_sequence (p : Shutdown.Proc) (quit close : Settled) :
  Shutdown.both_open p →
  let t := length (Shutdown.tasks p) in
  let final := Shutdown.run p
                 [Shutdown.Signal; Shutdown.Settle t quit; Shutdown.Settle t close] in
  Shutdown.effects final =
    Shutdown.effects p
    ++ [ Shutdown.info "Received shutdown signal, starting graceful shutdown...";
         Shutdown.RedisQuit;
         match quit with
         | Fulfilled => Shutdown.info "Redis connection closed"
         | Rejected e =>
             Shutdown.Logged (LogText LWarn "Redis quit error (ignored):" (Some e))
         end;
         Shutdown.MongoClose ]
    ++ match close with
       | Fulfilled =>
           [ Shutdown.info "MongoDB connection closed"; Shutdown.ProcessExit 0 ]
       | Rejected e =>
           [ Shutdown.Logged (LogText LError "Error during shutdown:" (Some e));
             Shutdown.ProcessExit 1 ]
       end
  ∧ Shutdown.closes (Shutdown.effects final) =
      Shutdown.closes (Shutdown.effects p)
      ++ [Shutdown.RedisQuit; Shutdown.MongoClose]
  ∧ Shutdown.exited final =
      Some (match close with Fulfilled => 0 | Rejected _ => 1 end).
Proof.
  intros (Hu & Hc & Hr & He) t final.
  assert (Hfinal : final =
    Shutdown.settle t close
      (Shutdown.settle t quit (Shutdown.signal p))).
  { subst final. unfold Shutdown.run. cbn [fold_left].
    rewrite (ShutdownFacts.step_signal p He).
    rewrite (ShutdownFacts.step_settle (Shutdown.signal p) t quit)
      by (rewrite (ShutdownFacts.signal_quit p _ Hu Hc); exact He).
    apply ShutdownFacts.step_settle.
    rewrite (ShutdownFacts.signal_quit p _ Hu Hc).
    rewrite ShutdownFacts.settle_quit;
      [exact He | apply list_lookup_middle; reflexivity | exact Hr]. }
  rewrite Hfinal. clear final Hfinal.
  rewrite (ShutdownFacts.signal_quit p _ Hu Hc).
  rewrite (ShutdownFacts.settle_quit _ t quit);
    [| apply list_lookup_middle; reflexivity | exact Hr].
  rewrite ShutdownFacts.settle_close;
    [| cbn [Shutdown.tasks]; apply list_lookup_insert_eq;
       rewrite length_app; simpl; lia].
  cbn [Shutdown.effects Shutdown.exited].
  split; [| split].
  - rewrite <- !app_assoc. destruct close; reflexivity.
  - rewrite !ShutdownFacts.closes_app. cbn.
    destruct quit, close; cbn; rewrite app_nil_r, <- app_assoc; reflexivity.
  - reflexivity.
Qed.

Lemma shutdown_sequence_witness :
  Shutdown.both_open Sample.process
  ∧ Shutdown.exited
      (Shutdown.run Sample.process
         [Shutdown.Signal; Shutdown.Settle 0 (Rejected "Socket closed unexpectedly");
          Shutdown.Settle 0 Fulfilled]) = Some 0.
Proof.
  assert (H : Shutdown.both_open Sample.process).
  { unfold Shutdown.both_open. simpl. repeat split; try reflexivity. lia. }
  split; [exact H |].
  apply (shutdown_sequence Sample.process
           (Rejected "Socket closed unexpectedly") Fulfilled H).
Defined.

(** C7, as the code has it.  [gracefulShutdown] has no guard against
    re-entry: in a process that has not exited, every termination signal,
    also one that arrives while a shutdown is in progress, starts a new
    invocation that logs the start of the shutdown and goes through the
    close sequence from its beginning (the cache's [quit] when the cache is
    enabled, otherwise the store's [close] when it is not disconnected,
    otherwise the exit).  When a [quit] that was made fails, the failure is
    logged as a warning and does not make the process exit with status 1. *)
Theorem signal_reenters (p : Shutdown.Proc) :
  Shutdown.exited p = None →
  (let p' := Shutdown.step p Shutdown.Signal in
   length (Shutdown.tasks p') = S (length (Shutdown.tasks p))
   ∧ p' ≠ p
   ∧ Shutdown.effects p' =
       Shutdown.effects p
       ++ Shutdown.info "Received shutdown signal, starting graceful shutdown..."
          :: (if Shutdown.useRedis p && bool_decide (is_Some (Shutdown.redisClient p))
              then [Shutdown.RedisQuit]
              else if negb (Shutdown.readyState p =? 0)
                   then [Shutdown.MongoClose]
                   else [Shutdown.ProcessExit 0]))
  ∧ (∀ t e,
       Shutdown.tasks p !! t = Some Shutdown.AwaitQuit →
       let p' := Shutdown.step p (Shutdown.Settle t (Rejected e)) in
       In (Shutdown.Logged (LogText LWarn "Redis quit error (ignored):" (Some e)))
          (Shutdown.effects p')
       ∧ Shutdown.exited p' ≠ Some 1).
Proof.
  intros He. split.
  - cbn zeta. rewrite (ShutdownFacts.step_signal p He).
    assert (Hlen : ∀ q, length (Shutdown.tasks q) = S (length (Shutdown.tasks p))
                        → q ≠ p).
    { intros q Hq ->. lia. }
    destruct p as [u c rs ts es ex]. cbn in He. subst ex.
    cbn [Shutdown.useRedis Shutdown.redisClient Shutdown.readyState
         Shutdown.tasks Shutdown.effects] in *.
    assert (Hl : ∀ a, length (<[length ts := a]> (ts ++ [Shutdown.Returned]))
                      = S (length ts)).
    { intros a. rewrite length_insert, length_app. simpl. lia. }
    unfold Shutdown.signal.
    cbn [Shutdown.useRedis Shutdown.redisClient Shutdown.readyState
         Shutdown.tasks Shutdown.effects Shutdown.emit].
    destruct c as [c |], u; cbn [andb bool_decide];
      try (rewrite bool_decide_eq_true_2 by eauto);
      try (rewrite bool_decide_eq_false_2 by (intros [? ?]; discriminate));
      unfold Shutdown.store_phase, Shutdown.set_task, Shutdown.set_readyState,
        Shutdown.exit, Shutdown.emit;
      cbn [Shutdown.useRedis Shutdown.redisClient Shutdown.readyState
           Shutdown.tasks Shutdown.effects];
      try destruct (negb (rs =? 0));
      cbn [Shutdown.useRedis Shutdown.redisClient Shutdown.readyState
           Shutdown.tasks Shutdown.effects];
      (split; [apply Hl | split; [apply Hlen, Hl | rewrite <- app_assoc; reflexivity]]).
  - intros t e Ht. cbn zeta. rewrite (ShutdownFacts.step_settle p t _ He).
    unfold Shutdown.settle. rewrite Ht.
    destruct p as [u c rs ts es ex]. cbn in He. subst ex.
    unfold Shutdown.store_phase, Shutdown.set_task, Shutdown.set_readyState,
      Shutdown.exit, Shutdown.emit.
    cbn [Shutdown.useRedis Shutdown.redisClient Shutdown.readyState
         Shutdown.tasks Shutdown.effects].
    destruct (negb (rs =? 0));
      cbn [Shutdown.effects Shutdown.exited]; split;
      try discriminate; rewrite !in_app_iff; cbn; tauto.
Qed.

Lemma signal_reenters_witness :
  Shutdown.exited (Shutdown.step Sample.process Shutdown.Signal) = None
  ∧ length (Shutdown.tasks
              (Shutdown.step (Shutdown.step Sample.process Shutdown.Signal)
                             Shutdown.Signal)) = 2%nat.
Proof.
  split; [reflexivity |].
  apply (signal_reenters (Shutdown.step Sample.process Shutdown.Signal)).
  reflexivity.
Defined.

(** C7, counterexample.  A second signal that arrives while the first
    shutdown waits for the cache's [quit] is not ignored: it changes the
    state of the process, [quit] is called a second time, and when the two
    invocations go on the store's [close] is called twice as well. *)
Lemma second_signal_not_ignored :
  let p1 := Shutdown.step Sample.process Shutdown.Signal in
  Shutdown.exited p1 = None
  ∧ Shutdown.tasks p1 = [Shutdown.AwaitQuit]
  ∧ Shutdown.step p1 Shutdown.Signal ≠ p1
  ∧ Shutdown.closes (Shutdown.effects (Shutdown.step p1 Shutdown.Signal))
    = [Shutdown.RedisQuit; Shutdown.RedisQuit]
  ∧ Shutdown.closes
      (Shutdown.effects
         (Shutdown.run Sample.process
            [Shutdown.Signal; Shutdown.Signal;
             Shutdown.Settle 0 Fulfilled;
             Shutdown.Settle 1 (Rejected "The client is closed")]))
    = [Shutdown.RedisQuit; Shutdown.RedisQuit;
       Shutdown.MongoClose; Shutdown.MongoClose].
Proof.
  cbn zeta. repeat split; try reflexivity.
  intros H. apply (f_equal Shutdown.tasks) in H. vm_compute in H. discriminate.
Qed.

(** ** The middleware chain *)

#[local] Arguments origin_callback : simpl never.
#[local] Arguments parse_body : simpl never.
#[local] Arguments dispatch : simpl never.
#[local] Arguments error_response : simpl never.
#[local] Arguments send_json : simpl never.
#[local] Arguments helmet_headers : simpl never.
#[local] Arguments cors_headers : simpl never.
#[local] Arguments Admission.limiter : simpl never.
#[local] Arguments Admission.speedLimiter : simpl never.
#[local] Arguments Uuid.randomUUID : simpl never.
#[local] Arguments url : simpl never.
#[local] Arguments url_below : simpl never.
#[local] Arguments pathname : simpl never.
#[local] Arguments method_name : simpl never.
#[local] Arguments is_options : simpl never.
#[local] Arguments mounted : simpl never.
#[local] Arguments String.append : simpl never.

Lemma mounted_root (p : list string) : mounted [] p = true.
Proof. reflexivity. Qed.

Lemma run_next (hostname : string -> option string) (app : App)
    (prefix : list string) (st : Stage) (rest : list Layer)
    (rq : Request) (i : Inputs) (c : Ctx) (s : AppState) :
  run hostname app ((prefix, st) :: rest) Next rq i c s =
  if handles_errors st || negb (mounted prefix (path rq))
  then run hostname app rest Next rq i c s
  else let '(o', c', s') := exec hostname app st rq i (visit st c) s in
       run hostname app rest o' rq i (handed prefix st o' c') s'.
Proof. reflexivity. Qed.

Lemma run_err (hostname : string -> option string) (app : App)
    (prefix : list string) (st : Stage) (rest : list Layer) (e : JsError)
    (rq : Request) (i : Inputs) (c : Ctx) (s : AppState) :
  run hostname app ((prefix, st) :: rest) (NextErr e) rq i c s =
  if handles_errors st && mounted prefix (path rq)
  then let '(o', c', s') := exec_err app st e rq i (visit st c) s in
       run hostname app rest o' rq i (handed prefix st o' c') s'
  else run hostname app rest (NextErr e) rq i c s.
Proof. reflexivity. Qed.

Lemma run_end (hostname : string -> option string) (app : App)
    (ls : list Layer) (r : Response)
    (rq : Request) (i : Inputs) (c : Ctx) (s : AppState) :
  run hostname app ls (End r) rq i c s = (End r, c, s).
Proof. destruct ls as [| [prefix st] rest]; reflexivity. Qed.

Lemma run_nil (hostname : string -> option string) (app : App)
    (o : Outcome) (rq : Request) (i : Inputs) (c : Ctx) (s : AppState) :
  run hostname app [] o rq i c s = (o, c, s).
Proof. reflexivity. Qed.

(** Case analysis along the chain: the test that decides the next step is
    split before the chain is run on. *)
Ltac walk_step :=
  match goal with
  | |- context [origin_callback ?h ?v ?o] =>
      destruct (origin_callback h v o) eqn:?
  | |- context [is_options ?m] => destruct (is_options m) eqn:?
  | |- context [parse_body CtJson ?b] => destruct (parse_body CtJson b) eqn:?
  | |- context [parse_body CtUrlencoded ?b] =>
      destruct (parse_body CtUrlencoded b) eqn:?
  | |- context [mounted (?a :: ?l) ?p] => destruct (mounted (a :: l) p) eqn:?
  | |- context [Admission.limiter ?c ?s ?k ?t] =>
      destruct (Admission.limiter c s k t) as [? [?|]] eqn:?
  | |- context [Admission.speedLimiter ?s ?k ?t] =>
      destruct (Admission.speedLimiter s k t) as [? ?] eqn:?
  | |- context [dispatch ?r ?i ?st] =>
      destruct (dispatch r i st) as [[[| ? | ?] ?] ?] eqn:?
  | |- context [send_json ?r] => destruct (send_json r) eqn:?
  end.

Ltac layer :=
  first [rewrite run_end | rewrite run_nil | rewrite run_next | rewrite run_err];
  cbn [handles_errors orb andb negb exec exec_err
       limiter_store speed_store cache_store req_id
       set_limiter_store set_speed_store set_cache write_log
       visit add_headers set_compressed set_started set_req_id add_delay
       set_removed];
  rewrite ?mounted_root;
  cbn [orb andb negb];
  repeat walk_step;
  cbn [orb andb negb handed];
  cbn beta iota zeta.

(** The property of the result is set aside while the chain is run. *)
Ltac walk :=
  match goal with
  | |- context [handle ?h ?a ?r ?i ?s] =>
      pattern (handle h a r i s);
      match goal with
      | |- ?P _ =>
          let Q := fresh "Q" in
          set (Q := P); unfold handle, layers; repeat layer;
          subst Q; cbn beta
      end
  end.


(** What the record projections and the updates compute to at the end of
    a walk. *)
Ltac tidy :=
  cbn [context response state visited headers compressed delayed started
       req_id removed ended limiter_store speed_store log cache_store
       visit add_headers set_compressed set_started set_req_id add_delay
       set_removed set_ended replace_header final_headers
       set_limiter_store set_speed_store set_cache write_log
       initial_ctx finalhandler List.app length Nat.add fst snd] in *.




(** What the terminal handler answers to an error that is neither a
    validation error nor an authentication error. *)
Lemma error_response_default (cfg : Config) (id : option string) (e : JsError) :
  String.eqb (name e) "ValidationError" = false →
  String.eqb (name e) "UnauthorizedError" = false →
  statusCode (error_response cfg id e) = Js.or_default (status e) 500
  ∧ field "error" (error_response cfg id e) = Some (JString "Internal Server Error").
Proof.
  intros H1 H2. unfold error_response. rewrite H1, H2. split; reflexivity.
Qed.

(** A response whose status Node sends with its body is sent as it is. *)
Lemma send_json_plain (r : Response) :
  valid_status (statusCode r) = true → bodyless (statusCode r) = false →
  send_json r = Some r.
Proof. intros Hv Hb. unfold send_json. now rewrite Hv, Hb. Qed.

(** What [res.status(...).json(...)] does, by the status. *)
Lemma send_json_cases (r r' : Response) :
  send_json r = Some r' →
  valid_status (statusCode r) = true
  ∧ statusCode r' = statusCode r
  ∧ (bodyless (statusCode r) = false → r' = r)
  ∧ (bodyless (statusCode r) = true → payload r' = NoBody).
Proof.
  unfold send_json. destruct (valid_status (statusCode r)); [| discriminate].
  destruct (bodyless (statusCode r)); intros [= <-]; repeat split;
    try discriminate; reflexivity.
Qed.

Lemma send_json_throws (r : Response) :
  send_json r = None ↔ valid_status (statusCode r) = false.
Proof.
  unfold send_json. destruct (valid_status (statusCode r)); split;
    congruence.
Qed.

Lemma send_json_cors (cfg : Config) (id : option string) :
  send_json (error_response cfg id cors_error)
  = Some (error_response cfg id cors_error).
Proof. apply send_json_plain; reflexivity. Qed.


(** The interpreter takes a request through the layers as [unfolded]
    writes it out. *)
Lemma handle_unfolded (hostname : string -> option string) (app : App)
    (rq : Request) (i : Inputs) (s : AppState) :
  handle hostname app rq i s = unfolded hostname app rq i s.
Proof.
  unfold unfolded, after, admission_path, routes_path, error_path.
  walk.
  all: try discriminate.
  all: cbn [req_id visit add_headers set_compressed set_started set_req_id
            add_delay set_removed set_ended limiter_store speed_store
            cache_store set_limiter_store set_speed_store set_cache write_log].
  all: repeat match goal with
              | H : ?x = _ |- context [?x] => rewrite H
              end.
  all: reflexivity.
Qed.

(** The routes leave [req.url] whole where they hand over. *)
Lemma route_removed (rs : list Route) (rq : Request) (i : Inputs) :
  ∀ (st st' : Cache.Store) (o : Outcome) (n : nat),
    route rs rq i st = (o, n, st') →
    (∀ r, o ≠ End r) → n = 0%nat.
Proof.
  induction rs as [| [mount cached r | p answer] rest IH];
    intros st st' o n H Ho; cbn [route] in H.
  - now injection H as <- <- <-.
  - destruct (mounted mount (path rq)); [| exact (IH _ _ _ _ H Ho)].
    destruct (if cached then Cache.cache ttl st rq (now i) (handler i r)
              else (handler i r, st)) as [[resp | e |] st1].
    + injection H as <- <- <-. exfalso. now apply (Ho resp).
    + now injection H as <- <- <-.
    + exact (IH _ _ _ _ H Ho).
  - destruct (is_get (method rq) && same_path p (path rq));
      [| exact (IH _ _ _ _ H Ho)].
    injection H as <- <- <-. exfalso. now apply (Ho (answer i)).
Qed.

Lemma dispatch_err (rq : Request) (i : Inputs) (st st' : Cache.Store)
    (e : JsError) (n : nat) :
  dispatch rq i st = (NextErr e, n, st') → n = 0%nat.
Proof. intros H. apply (route_removed _ _ _ _ _ _ _ H). discriminate. Qed.

Lemma dispatch_next (rq : Request) (i : Inputs) (st st' : Cache.Store)
    (n : nat) :
  dispatch rq i st = (Next, n, st') → n = 0%nat.
Proof. intros H. apply (route_removed _ _ _ _ _ _ _ H). discriminate. Qed.

(** Case analysis along the chain as it is written out. *)
Ltac paths :=
  rewrite !handle_unfolded;
  unfold unfolded, after, admission_path, routes_path, error_path;
  rewrite ?send_json_cors;
  repeat (walk_step; cbn beta iota zeta);
  repeat match goal with
         | H : dispatch _ _ _ = (NextErr _, ?n, _) |- _ =>
             is_var n; pose proof (dispatch_err _ _ _ _ _ _ H); subst n
         | H : dispatch _ _ _ = (Next, ?n, _) |- _ =>
             is_var n; pose proof (dispatch_next _ _ _ _ _ H); subst n
         end;
  unfold finish; tidy.

(** C2, as the code has it.  A request whose origin the validator denies is
    answered by the terminal error handler as any unclassified error is:
    with status 500 and the label [Internal Server Error]; the chain ends
    after the origin check and the two error layers. *)
Theorem denied_origin_is_internal_error
    (hostname : string -> option string) (app : App)
    (rq : Request) (i : Inputs) (s : AppState) :
  origin_callback hostname (variant app) (origin rq) = false →
  response (handle hostname app rq i s) = error_response (conf app) None cors_error
  ∧ statusCode (response (handle hostname app rq i s)) = 500
  ∧ field "error" (response (handle hostname app rq i s))
    = Some (JString "Internal Server Error")
  ∧ visited (context (handle hostname app rq i s))
    = [Helmet; Compression; Cors; ErrorLogger; ErrorHandler].
Proof.
  intros H. rewrite !handle_unfolded. unfold unfolded, error_path.
  rewrite H, send_json_cors. unfold finish. tidy. repeat split.
Qed.

Lemma denied_origin_is_internal_error_witness :
  origin_callback Sample.hostname Server (Some "https://evil.example.com") = false
  ∧ statusCode
      (response
         (handle Sample.hostname (Sample.app Server)
            (Sample.get ["api"; "products"] (Some "https://evil.example.com"))
            (Sample.inputs (Responds Sample.ok)) initial_state)) = 500.
Proof.
  assert (H : origin_callback Sample.hostname Server
                (Some "https://evil.example.com") = false) by reflexivity.
  split; [exact H |].
  apply (denied_origin_is_internal_error Sample.hostname (Sample.app Server)
           (Sample.get ["api"; "products"] (Some "https://evil.example.com"))
           (Sample.inputs (Responds Sample.ok)) initial_state H).
Defined.

(** C2, counterexample.  A request from an origin that is not allowed is
    answered with status 500 and the label of the internal errors, not with
    status 403. *)
Lemma denied_origin_not_403 :
  let res := handle Sample.hostname (Sample.app Server)
               (Sample.get ["api"; "products"] (Some "https://evil.example.com"))
               (Sample.inputs (Responds Sample.ok)) initial_state in
  origin_callback Sample.hostname Server (Some "https://evil.example.com") = false
  ∧ statusCode (response res) = 500
  ∧ statusCode (response res) ≠ 403
  ∧ field "error" (response res) = Some (JString "Internal Server Error").
Proof. cbn zeta. repeat split. vm_compute. discriminate. Qed.

(** The tests that a request passes on its way to the admission stages. *)
Lemma reaches_context_inv (hostname : string -> option string) (app : App)
    (rq : Request) :
  reaches_context hostname app rq = true →
  origin_callback hostname (variant app) (origin rq) = true
  ∧ is_options (method rq) = false
  ∧ parse_body CtJson (body rq) = Next
  ∧ parse_body CtUrlencoded (body rq) = Next.
Proof.
  unfold reaches_context. rewrite !andb_true_iff, negb_true_iff.
  intros [[[H1 H2] H3] H4]. repeat split; try assumption.
  - destruct (parse_body CtJson (body rq)); try discriminate; reflexivity.
  - destruct (parse_body CtUrlencoded (body rq)); try discriminate; reflexivity.
Qed.

(** Facts met on the way are brought together at the end of a walk. *)
Ltac clash :=
  repeat match goal with
         | H1 : ?x = _, H2 : context [?x] |- _ => rewrite H1 in H2
         end;
  cbn [fst snd] in *; try congruence.





Lemma limiter_rejection (cfg : Config) (store : gmap string RateStore.Bucket)
    (k : string) (t : Z) (r : Response) :
  snd (Admission.limiter cfg store k t) = Some r →
  r = Admission.too_many_requests.
Proof.
  unfold Admission.limiter.
  destruct (RateStore.increment (windowMs cfg) store k t) as [store' b].
  cbn. destruct (max cfg <? RateStore.totalHits b); congruence.
Qed.







(** A request from an origin that is not allowed is answered before its
    identifier is assigned: the body of the error response has no
    identifier and the records of the error are logged without one. *)
Example denied_origin_has_no_identifier :
  let res := handle Sample.hostname (Sample.app Server)
               (Sample.get ["api"; "orders"] (Some "https://evil.example.com"))
               (Sample.inputs (Responds Sample.ok)) initial_state in
  field "requestId" (response res) = None
  ∧ log (state res) =
      [LogError "Not allowed by CORS" "Error: Not allowed by CORS" "GET"
         "/api/orders" None;
       LogText LError "[Error] [undefined] Error: Not allowed by CORS" None].
Proof. cbn zeta. split; vm_compute; reflexivity. Qed.
(** ** Admission control *)

#[local] Arguments RateStore.increment : simpl never.

(** What one request does to the two counting stores, and what the
    admission stages decide about it. *)
Lemma handle_admission (hostname : string -> option string) (app : App)
    (rq : Request) (i : Inputs) (s : AppState) :
  (reaches_admission hostname app rq = false →
   limiter_store (state (handle hostname app rq i s)) = limiter_store s
   ∧ speed_store (state (handle hostname app rq i s)) = speed_store s)
  ∧ (reaches_admission hostname app rq = true →
     limiter_store (state (handle hostname app rq i s))
     = fst (Admission.limiter (conf app) (limiter_store s) (ip rq) (now i))
     ∧ match snd (Admission.limiter (conf app) (limiter_store s) (ip rq) (now i)) with
       | Some _ =>
           response (handle hostname app rq i s) = Admission.too_many_requests
           ∧ speed_store (state (handle hostname app rq i s)) = speed_store s
           ∧ ¬ admitted (handle hostname app rq i s)
       | None =>
           admitted (handle hostname app rq i s)
           ∧ speed_store (state (handle hostname app rq i s))
             = fst (Admission.speedLimiter (speed_store s) (ip rq) (now i))
           ∧ delayed (context (handle hostname app rq i s))
             = snd (Admission.speedLimiter (speed_store s) (ip rq) (now i))
       end).
Proof.
  unfold reaches_admission, reaches_context, admitted.
  paths.
  all: cbn [andb negb is_next].
  all: split; intros Hr; try discriminate; try (split; reflexivity).
  all: clash.
  all: (split; [reflexivity |]).
  all: try (split; [| split; [reflexivity | cbn; intuition discriminate]];
            match goal with
            | H : Admission.limiter _ _ _ _ = (_, Some ?r) |- _ =>
                exact (limiter_rejection _ _ _ _ r
                         ltac:(erewrite H; reflexivity))
            end).
  all: split; [cbn; tauto | split; [reflexivity | lia]].
Qed.

(** *** The counting store *)

Module StoreFacts.
Import RateStore.

Lemma increment_other (w : Z) (store : gmap string Bucket)
    (k k' : string) (t : Z) :
  k' ≠ k → fst (increment w store k' t) !! k = store !! k.
Proof. intros H. unfold increment. cbn. now rewrite lookup_insert_ne. Qed.

Lemma increment_running (w : Z) (store : gmap string Bucket)
    (k : string) (t m r : Z) :
  bucket_is store k m r → t < r →
  bucket_is (fst (increment w store k t)) k (m + 1) r
  ∧ totalHits (snd (increment w store k t)) = m + 1.
Proof.
  unfold bucket_is, increment. intros -> Ht. cbn.
  destruct (Z.ltb_spec t r) as [_ | Hge]; [| lia].
  split; [apply lookup_insert_eq | reflexivity].
Qed.

Lemma increment_fresh (w : Z) (store : gmap string Bucket)
    (k : string) (t : Z) :
  (∀ b, store !! k = Some b → resetTime b <= t) →
  bucket_is (fst (increment w store k t)) k 1 (t + w)
  ∧ totalHits (snd (increment w store k t)) = 1.
Proof.
  unfold bucket_is, increment. intros H. cbn.
  destruct (store !! k) as [b |] eqn:Hb.
  - specialize (H b eq_refl).
    destruct (Z.ltb_spec t (resetTime b)) as [Hlt | _]; [lia |].
    split; [apply lookup_insert_eq | reflexivity].
  - split; [apply lookup_insert_eq | reflexivity].
Qed.

End StoreFacts.

Import RateStore StoreFacts.

Lemma limiter_store_other (cfg : Config) (store : gmap string RateStore.Bucket)
    (k k' : string) (t : Z) :
  k' ≠ k → fst (Admission.limiter cfg store k' t) !! k = store !! k.
Proof.
  intros H. unfold Admission.limiter.
  pose proof (increment_other (windowMs cfg) store k k' t H) as Ho.
  destruct (RateStore.increment (windowMs cfg) store k' t). exact Ho.
Qed.

Lemma speed_store_other (store : gmap string RateStore.Bucket)
    (k k' : string) (t : Z) :
  k' ≠ k → fst (Admission.speedLimiter store k' t) !! k = store !! k.
Proof.
  intros H. unfold Admission.speedLimiter.
  pose proof (increment_other Admission.speedWindowMs store k k' t H) as Ho.
  destruct (RateStore.increment Admission.speedWindowMs store k' t). exact Ho.
Qed.

(** The ceiling stage on a request whose bucket then counts [m]. *)
Lemma limiter_decides (cfg : Config) (store : gmap string RateStore.Bucket)
    (k : string) (t m r : Z) :
  bucket_is (fst (RateStore.increment (windowMs cfg) store k t)) k m r →
  RateStore.totalHits (snd (RateStore.increment (windowMs cfg) store k t)) = m →
  bucket_is (fst (Admission.limiter cfg store k t)) k m r
  ∧ snd (Admission.limiter cfg store k t)
    = if max cfg <? m then Some Admission.too_many_requests else None.
Proof.
  unfold Admission.limiter.
  destruct (RateStore.increment (windowMs cfg) store k t) as [store' b].
  cbn. intros Hb ->. split; [exact Hb | reflexivity].
Qed.

(** The delay stage on a request whose bucket then counts [m]. *)
Lemma speedLimiter_decides (store : gmap string RateStore.Bucket)
    (k : string) (t m r : Z) :
  bucket_is (fst (RateStore.increment Admission.speedWindowMs store k t)) k m r →
  RateStore.totalHits (snd (RateStore.increment Admission.speedWindowMs store k t)) = m →
  bucket_is (fst (Admission.speedLimiter store k t)) k m r
  ∧ snd (Admission.speedLimiter store k t)
    = if 50 <? m then (m - 50) * 500 else 0.
Proof.
  unfold Admission.speedLimiter.
  destruct (RateStore.increment Admission.speedWindowMs store k t) as [store' b].
  cbn. intros Hb ->. split; [exact Hb | reflexivity].
Qed.

(** *** Sequences of requests *)

Section TrafficFacts.

Variable hostname : string -> option string.
Variable app : App.
Variable k : string.

Lemma serve_all_cons (s : AppState) (rq : Request) (i : Inputs)
    (rest : list (Request * Inputs)) :
  serve_all hostname app s ((rq, i) :: rest) =
  (handle hostname app rq i s
     :: fst (serve_all hostname app (state (handle hostname app rq i s)) rest),
   snd (serve_all hostname app (state (handle hostname app rq i s)) rest)).
Proof.
  cbn [serve_all].
  destruct (serve_all hostname app (state (handle hostname app rq i s)) rest).
  reflexivity.
Qed.

Lemma results_for_cons (s : AppState) (rq : Request) (i : Inputs)
    (rest : list (Request * Inputs)) :
  results_for hostname app k s ((rq, i) :: rest) =
  if counted hostname app k rq
  then handle hostname app rq i s
         :: results_for hostname app k (state (handle hostname app rq i s)) rest
  else results_for hostname app k (state (handle hostname app rq i s)) rest.
Proof.
  unfold results_for. rewrite serve_all_cons. cbn [fst zip zip_with List.filter].
  destruct (counted hostname app k rq); reflexivity.
Qed.

Lemma counted_inv (rq : Request) :
  counted hostname app k rq = true →
  reaches_admission hostname app rq = true ∧ ip rq = k.
Proof.
  unfold counted. rewrite andb_true_iff, String.eqb_eq. tauto.
Qed.

(** A request that is not counted for [k] leaves the buckets of [k]
    alone. *)
Lemma handle_not_counted (rq : Request) (i : Inputs) (s : AppState) :
  counted hostname app k rq = false →
  limiter_store (state (handle hostname app rq i s)) !! k = limiter_store s !! k
  ∧ speed_store (state (handle hostname app rq i s)) !! k = speed_store s !! k.
Proof.
  intros Hc. destruct (handle_admission hostname app rq i s) as [Hout Hin].
  destruct (reaches_admission hostname app rq) eqn:Hr.
  - assert (Hk : ip rq ≠ k).
    { unfold counted in Hc. rewrite Hr in Hc. cbn in Hc.
      now apply String.eqb_neq. }
    destruct (Hin eq_refl) as [Hl Hd]. rewrite Hl.
    split; [now apply limiter_store_other |].
    destruct (snd (Admission.limiter (conf app) (limiter_store s) (ip rq) (now i))).
    + destruct Hd as (_ & -> & _). reflexivity.
    + destruct Hd as (_ & -> & _). now apply speed_store_other.
  - destruct (Hout eq_refl) as [-> ->]. split; reflexivity.
Qed.

(** A counted request in the running window of the ceiling stage. *)
Lemma handle_counted (rq : Request) (i : Inputs) (s : AppState) (m r : Z) :
  counted hostname app k rq = true →
  bucket_is (limiter_store s) k m r → now i < r →
  bucket_is (limiter_store (state (handle hostname app rq i s))) k (m + 1) r
  ∧ (if max (conf app) <? m + 1
     then response (handle hostname app rq i s) = Admission.too_many_requests
          ∧ ¬ admitted (handle hostname app rq i s)
          ∧ speed_store (state (handle hostname app rq i s)) = speed_store s
     else admitted (handle hostname app rq i s)
          ∧ speed_store (state (handle hostname app rq i s))
            = fst (Admission.speedLimiter (speed_store s) k (now i))
          ∧ delayed (context (handle hostname app rq i s))
            = snd (Admission.speedLimiter (speed_store s) k (now i))).
Proof.
  intros Hc Hb Ht. apply counted_inv in Hc as [Hr Hk].
  destruct (handle_admission hostname app rq i s) as [_ Hin].
  destruct (Hin Hr) as [Hl Hd]. clear Hin. rewrite Hk in *.
  destruct (increment_running (windowMs (conf app)) _ k (now i) m r Hb Ht)
    as [Hb' Hh].
  destruct (limiter_decides (conf app) _ k (now i) (m + 1) r Hb' Hh)
    as [Hb2 Hs].
  rewrite Hl. split; [exact Hb2 |].
  rewrite Hs in Hd. destruct (max (conf app) <? m + 1); tauto.
Qed.

(** A counted request that finds no running window starts one. *)
Lemma handle_counted_fresh (rq : Request) (i : Inputs) (s : AppState) :
  counted hostname app k rq = true →
  no_window (limiter_store s) k (now i) →
  bucket_is (limiter_store (state (handle hostname app rq i s))) k 1
            (now i + windowMs (conf app))
  ∧ (if max (conf app) <? 1
     then response (handle hostname app rq i s) = Admission.too_many_requests
          ∧ ¬ admitted (handle hostname app rq i s)
          ∧ speed_store (state (handle hostname app rq i s)) = speed_store s
     else admitted (handle hostname app rq i s)
          ∧ speed_store (state (handle hostname app rq i s))
            = fst (Admission.speedLimiter (speed_store s) k (now i))
          ∧ delayed (context (handle hostname app rq i s))
            = snd (Admission.speedLimiter (speed_store s) k (now i))).
Proof.
  intros Hc Hb. apply counted_inv in Hc as [Hr Hk].
  destruct (handle_admission hostname app rq i s) as [_ Hin].
  destruct (Hin Hr) as [Hl Hd]. clear Hin. rewrite Hk in *.
  destruct (increment_fresh (windowMs (conf app)) _ k (now i) Hb) as [Hb' Hh].
  destruct (limiter_decides (conf app) _ k (now i) 1 _ Hb' Hh) as [Hb2 Hs].
  rewrite Hl. split; [exact Hb2 |].
  rewrite Hs in Hd. destruct (max (conf app) <? 1); tauto.
Qed.

(** Within a running window of the ceiling stage, the [j]-th further
    request counted for [k] is admitted while the count stays within the
    ceiling, and rejected with the answer of the stage beyond it. *)
Lemma serve_window (r : Z) (reqs : list (Request * Inputs)) :
  ∀ (s : AppState) (m : Z),
    bucket_is (limiter_store s) k m r →
    (∀ rq i, In (rq, i) reqs → counted hostname app k rq = true → now i < r) →
    bucket_is (limiter_store (snd (serve_all hostname app s reqs))) k
              (m + Z.of_nat (length (results_for hostname app k s reqs))) r
    ∧ ∀ (j : nat) (res : Result),
        results_for hostname app k s reqs !! j = Some res →
        if max (conf app) <? m + Z.of_nat (S j)
        then response res = Admission.too_many_requests ∧ ¬ admitted res
        else admitted res.
Proof.
  induction reqs as [| [rq i] rest IH]; intros s m Hb Ht.
  - cbn. split; [now rewrite Z.add_0_r | intros j res H; discriminate].
  - rewrite serve_all_cons, results_for_cons. cbn [snd].
    assert (Ht' : ∀ rq' i', In (rq', i') rest →
                  counted hostname app k rq' = true → now i' < r).
    { intros rq' i' Hin. apply Ht. now right. }
    destruct (counted hostname app k rq) eqn:Hc.
    + destruct (handle_counted rq i s m r Hc Hb (Ht rq i (or_introl eq_refl) Hc))
        as [Hb' Hd].
      destruct (IH _ _ Hb' Ht') as [Hfin Hres].
      split.
      * cbn [length]. rewrite Nat2Z.inj_succ.
        replace (m + Z.succ (Z.of_nat (length
                   (results_for hostname app k
                      (state (handle hostname app rq i s)) rest))))
          with (m + 1 + Z.of_nat (length
                   (results_for hostname app k
                      (state (handle hostname app rq i s)) rest))) by lia.
        exact Hfin.
      * intros [| j] res Hj.
        -- cbn in Hj. injection Hj as <-.
           replace (m + Z.of_nat 1) with (m + 1) by lia.
           destruct (max (conf app) <? m + 1); tauto.
        -- cbn in Hj. specialize (Hres j res Hj).
           replace (m + Z.of_nat (S (S j))) with (m + 1 + Z.of_nat (S j)) by lia.
           exact Hres.
    + destruct (handle_not_counted rq i s Hc) as [Hl _].
      apply IH; [| exact Ht'].
      unfold bucket_is. rewrite Hl. exact Hb.
Qed.

End TrafficFacts.

(** C3, as the code has it.  Let a request counted for the key [k] start a
    window of the ceiling stage at the time [t0], and let the requests
    counted for [k] that follow fall into that window, exactly as many in
    all as the configured ceiling (100 unless configured otherwise),
    whatever other requests come in between.  Then each of them is
    admitted; one more request of [k] in the same window is rejected with
    status 429 and a body that is the configured message and nothing else,
    [{error: 'Too many requests, please try again later.'}] (that sentence
    is in the place of the label; there is no label [rate-limited]); and
    once the window has elapsed a request of [k] is admitted again. *)
Theorem ceiling_rejects_next_request
    (hostname : string -> option string) (app : App) (k : string)
    (s : AppState) (rq0 : Request) (i0 : Inputs)
    (rest : list (Request * Inputs))
    (over : Request) (i_over : Inputs) (late : Request) (i_late : Inputs) :
  let t0 := now i0 in
  let w := windowMs (conf app) in
  let reqs := (rq0, i0) :: rest in
  let s1 := snd (serve_all hostname app s reqs) in
  let s2 := state (handle hostname app over i_over s1) in
  counted hostname app k rq0 = true →
  no_window (limiter_store s) k t0 →
  (∀ rq i, In (rq, i) rest → counted hostname app k rq = true → now i < t0 + w) →
  Z.of_nat (length (results_for hostname app k s reqs)) = max (conf app) →
  counted hostname app k over = true → now i_over < t0 + w →
  counted hostname app k late = true → t0 + w <= now i_late →
  Forall (admitted) (results_for hostname app k s reqs)
  ∧ response (handle hostname app over i_over s1)
    = {| statusCode := 429;
         payload := JsonBody
           [("error", JString "Too many requests, please try again later.")] |}
  ∧ ¬ admitted (handle hostname app over i_over s1)
  ∧ admitted (handle hostname app late i_late s2).
Proof.
  intros t0 w reqs s1 s2 Hc0 Hfresh Hwin Hn Hco Hto Hcl Htl.
  assert (Hpos : 0 < max (conf app)).
  { rewrite <- Hn. subst reqs. rewrite results_for_cons, Hc0. cbn [length]. lia. }
  destruct (handle_counted_fresh hostname app k rq0 i0 s Hc0 Hfresh) as [Hb0 Hd0].
  fold t0 w in Hb0.
  destruct (Z.ltb_spec (max (conf app)) 1) as [Hlt | _]; [lia |].
  destruct Hd0 as (Ha0 & _ & _).
  destruct (serve_window hostname app k (t0 + w) rest _ 1 Hb0 Hwin) as [Hfin Hres].
  assert (Hlen : 1 + Z.of_nat (length (results_for hostname app k
                   (state (handle hostname app rq0 i0 s)) rest))
                 = max (conf app)).
  { rewrite <- Hn. subst reqs. rewrite results_for_cons, Hc0. cbn [length]. lia. }
  rewrite Hlen in Hfin.
  assert (Hs1 : bucket_is (limiter_store s1) k (max (conf app)) (t0 + w)).
  { subst s1 reqs. rewrite serve_all_cons. exact Hfin. }
  split; [| split; [| split]].
  - subst reqs. rewrite results_for_cons, Hc0. constructor; [exact Ha0 |].
    apply Forall_lookup_2. intros j res Hj.
    specialize (Hres j res Hj).
    assert (Hj' : (j < length (results_for hostname app k
                     (state (handle hostname app rq0 i0 s)) rest))%nat).
    { apply lookup_lt_is_Some. eauto. }
    destruct (Z.ltb_spec (max (conf app)) (1 + Z.of_nat (S j))) as [Hgt | _];
      [lia | exact Hres].
  - destruct (handle_counted hostname app k over i_over s1 _ _ Hco Hs1 Hto)
      as [_ Hd].
    destruct (Z.ltb_spec (max (conf app)) (max (conf app) + 1)) as [_ | Hge];
      [| lia].
    destruct Hd as [-> _]. reflexivity.
  - destruct (handle_counted hostname app k over i_over s1 _ _ Hco Hs1 Hto)
      as [_ Hd].
    destruct (Z.ltb_spec (max (conf app)) (max (conf app) + 1)) as [_ | Hge];
      [| lia].
    tauto.
  - destruct (handle_counted hostname app k over i_over s1 _ _ Hco Hs1 Hto)
      as [Hb2 _].
    fold s2 in Hb2.
    assert (Hnw : no_window (limiter_store s2) k (now i_late)).
    { intros b Hb. unfold bucket_is in Hb2. rewrite Hb2 in Hb.
      injection Hb as <-. cbn. lia. }
    destruct (handle_counted_fresh hostname app k late i_late s2 Hcl Hnw)
      as [_ Hd].
    destruct (Z.ltb_spec (max (conf app)) 1) as [Hlt | _]; [lia | tauto].
Qed.

Section DelayFacts.

Variable hostname : string -> option string.
Variable app : App.
Variable k : string.

Lemma delay_of_mono (c c' : Z) : c <= c' → Admission.delay_of c <= Admission.delay_of c'.
Proof.
  unfold Admission.delay_of, Admission.delayAfter, Admission.delayMs. intros H.
  destruct (Z.ltb_spec 50 c), (Z.ltb_spec 50 c'); lia.
Qed.

(** Within running windows of both stages: while the count of the
    ceiling stage stays within the ceiling the delay stage has counted
    the same requests, and the [j]-th further request counted for [k] is
    admitted with the delay of its count. *)
Lemma serve_window_delay (r1 r2 : Z) (reqs : list (Request * Inputs)) :
  ∀ (s : AppState) (m : Z),
    1 <= m → 1 <= max (conf app) →
    bucket_is (limiter_store s) k m r1 →
    bucket_is (speed_store s) k (Z.min m (max (conf app))) r2 →
    (∀ rq i, In (rq, i) reqs → counted hostname app k rq = true →
             now i < r1 ∧ now i < r2) →
    ∀ (j : nat) (res : Result),
      results_for hostname app k s reqs !! j = Some res →
      m + Z.of_nat (S j) <= max (conf app) →
      admitted res ∧ delayed (context res) = Admission.delay_of (m + Z.of_nat (S j)).
Proof.
  induction reqs as [| [rq i] rest IH]; intros s m Hm Hn Hb1 Hb2 Ht j res Hj Hle.
  - discriminate.
  - rewrite results_for_cons in Hj.
    assert (Ht' : ∀ rq' i', In (rq', i') rest →
                  counted hostname app k rq' = true →
                  now i' < r1 ∧ now i' < r2).
    { intros rq' i' Hin. apply Ht. now right. }
    destruct (counted hostname app k rq) eqn:Hc.
    + destruct (Ht rq i (or_introl eq_refl) Hc) as [Ht1 Ht2].
      destruct (handle_counted hostname app k rq i s m r1 Hc Hb1 Ht1)
        as [Hb1' Hd].
      destruct (Z.ltb_spec (max (conf app)) (m + 1)) as [Hover | Hin].
      * (* beyond the ceiling: no further request is within it *)
        destruct j; lia.
      * destruct Hd as (Ha & Hs & Hdel).
        rewrite Z.min_l in Hb2 by lia.
        destruct (increment_running Admission.speedWindowMs _ k (now i) m r2
                    Hb2 Ht2) as [Hb2' Hh].
        destruct (speedLimiter_decides _ k (now i) (m + 1) r2 Hb2' Hh)
          as [Hb2s Hdl].
        destruct j as [| j].
        -- cbn in Hj. injection Hj as <-. split; [exact Ha |].
           rewrite Hdel, Hdl. unfold Admission.delay_of, Admission.delayAfter,
             Admission.delayMs.
           replace (m + Z.of_nat 1) with (m + 1) by lia. reflexivity.
        -- cbn in Hj.
           replace (m + Z.of_nat (S (S j))) with (m + 1 + Z.of_nat (S j)) by lia.
           apply (IH (state (handle hostname app rq i s)) (m + 1));
             try assumption; try lia.
           rewrite Hs, Z.min_l by lia. exact Hb2s.
    + destruct (handle_not_counted hostname app k rq i s Hc) as [Hl Hsp].
      apply (IH (state (handle hostname app rq i s)) m); try assumption.
      * unfold bucket_is. rewrite Hl. exact Hb1.
      * unfold bucket_is. rewrite Hsp. exact Hb2.
Qed.

End DelayFacts.

(** C8.  Let a request counted for the key [k] start a window of both
    admission stages at the time [t0], and let the requests counted for [k]
    that follow fall into both windows, whatever other requests come in
    between.  Then every such request whose count [c] in the window does
    not exceed the ceiling is admitted, never rejected; its added delay is
    0 up to the threshold of 50 and [(c - 50) * 500] milliseconds above it,
    that is 500 milliseconds more for each request over the threshold; and
    the added delay does not decrease as the count grows. *)
Theorem delay_grows_with_count
    (hostname : string -> option string) (app : App) (k : string)
    (s : AppState) (rq0 : Request) (i0 : Inputs)
    (rest : list (Request * Inputs)) :
  let t0 := now i0 in
  let reqs := (rq0, i0) :: rest in
  counted hostname app k rq0 = true →
  no_window (limiter_store s) k t0 →
  no_window (speed_store s) k t0 →
  (∀ rq i, In (rq, i) rest → counted hostname app k rq = true →
           now i < t0 + windowMs (conf app)
           ∧ now i < t0 + Admission.speedWindowMs) →
  (∀ (j : nat) (res : Result),
     results_for hostname app k s reqs !! j = Some res →
     Z.of_nat (S j) <= max (conf app) →
     admitted res
     ∧ delayed (context res) =
         if 50 <? Z.of_nat (S j) then (Z.of_nat (S j) - 50) * 500 else 0)
  ∧ (∀ (j j' : nat) (res res' : Result),
       results_for hostname app k s reqs !! j = Some res →
       results_for hostname app k s reqs !! j' = Some res' →
       (j <= j')%nat → Z.of_nat (S j') <= max (conf app) →
       delayed (context res) <= delayed (context res')).
Proof.
  intros t0 reqs Hc0 Hf1 Hf2 Hwin.
  assert (Hmain : ∀ (j : nat) (res : Result),
     results_for hostname app k s reqs !! j = Some res →
     Z.of_nat (S j) <= max (conf app) →
     admitted res ∧ delayed (context res) = Admission.delay_of (Z.of_nat (S j))).
  { intros j res Hj Hle.
    assert (Hn : 1 <= max (conf app)) by lia.
    subst reqs. rewrite results_for_cons, Hc0 in Hj.
    destruct (handle_counted_fresh hostname app k rq0 i0 s Hc0 Hf1) as [Hb1 Hd].
    destruct (Z.ltb_spec (max (conf app)) 1) as [Hlt | _]; [lia |].
    destruct Hd as (Ha & Hs & Hdel).
    destruct (increment_fresh Admission.speedWindowMs _ k (now i0) Hf2)
      as [Hb2 Hh].
    destruct (speedLimiter_decides _ k (now i0) 1 _ Hb2 Hh) as [Hb2s Hdl].
    destruct j as [| j].
    - cbn in Hj. injection Hj as <-. split; [exact Ha |].
      rewrite Hdel, Hdl. reflexivity.
    - cbn in Hj.
      replace (Z.of_nat (S (S j))) with (1 + Z.of_nat (S j)) by lia.
      apply (serve_window_delay hostname app k
               (now i0 + windowMs (conf app))
               (now i0 + Admission.speedWindowMs) rest
               (state (handle hostname app rq0 i0 s)) 1);
        try assumption; try lia.
      rewrite Hs, Z.min_l by lia. exact Hb2s. }
  split.
  - intros j res Hj Hle. exact (Hmain j res Hj Hle).
  - intros j j' res res' Hj Hj' Hjj Hle.
    destruct (Hmain j res Hj ltac:(lia)) as [_ ->].
    destruct (Hmain j' res' Hj' Hle) as [_ ->].
    apply delay_of_mono. lia.
Qed.

Lemma no_window_empty (k : string) (t : Z) : no_window ∅ k t.
Proof. intros b H. rewrite lookup_empty in H. discriminate. Qed.

Lemma ceiling_rejects_next_request_witness :
  Z.of_nat
    (length
       (results_for Sample.hostname (Sample.app Server) Sample.client
          initial_state
          ((Sample.get ["api"; "products"] None,
            Sample.inputs_at 1000 (Responds Sample.ok)) :: Sample.burst 99)))
  = max (conf (Sample.app Server))
  ∧ statusCode
      (response
         (handle Sample.hostname (Sample.app Server)
            (Sample.get ["api"; "products"] None)
            (Sample.inputs_at 2000 (Responds Sample.ok))
            (snd (serve_all Sample.hostname (Sample.app Server) initial_state
                    ((Sample.get ["api"; "products"] None,
                      Sample.inputs_at 1000 (Responds Sample.ok))
                       :: Sample.burst 99))))) = 429.
Proof.
  assert (Hn : Z.of_nat
    (length
       (results_for Sample.hostname (Sample.app Server) Sample.client
          initial_state
          ((Sample.get ["api"; "products"] None,
            Sample.inputs_at 1000 (Responds Sample.ok)) :: Sample.burst 99)))
    = max (conf (Sample.app Server))).
  { vm_compute. reflexivity. }
  assert (Hwin : ∀ rq i, In (rq, i) (Sample.burst 99) →
            counted Sample.hostname (Sample.app Server) Sample.client rq = true →
            now i < 1000 + windowMs (conf (Sample.app Server))).
  { intros rq i Hin _. apply repeat_spec in Hin. injection Hin as -> ->.
    reflexivity. }
  split; [exact Hn |].
  destruct (ceiling_rejects_next_request Sample.hostname (Sample.app Server)
              Sample.client initial_state
              (Sample.get ["api"; "products"] None)
              (Sample.inputs_at 1000 (Responds Sample.ok))
              (Sample.burst 99)
              (Sample.get ["api"; "products"] None)
              (Sample.inputs_at 2000 (Responds Sample.ok))
              (Sample.get ["api"; "products"] None)
              (Sample.inputs_at 901000 (Responds Sample.ok))
              eq_refl (no_window_empty _ _) Hwin Hn eq_refl eq_refl eq_refl
              ltac:(vm_compute; discriminate))
    as (_ & Hs & _).
  rewrite Hs. reflexivity.
Defined.

(** The scenario of the specification: of 101 requests in quick succession
    from one client under [/api], with the ceiling of 100, the first hundred
    are answered with status 200 (by the route, and then from the cache)
    and the last one with status 429. *)
Example hundred_and_one_requests :
  (fun r => statusCode (response r))
    <$> fst (serve_all Sample.hostname (Sample.app Server) initial_state
               (Sample.burst 101))
  = repeat 200 100 ++ [429].
Proof. vm_compute. reflexivity. Qed.


(** C3, counterexample.  In the scenario of the specification the request
    beyond the ceiling is answered with status 429, and what its body has
    in the place of the label is the configured sentence, not
    [rate-limited]. *)
Lemma rejection_is_not_labelled_rate_limited :
  let res := handle Sample.hostname (Sample.app Server)
               (Sample.get ["api"; "products"] None)
               (Sample.inputs_at 2000 (Responds Sample.ok))
               (snd (serve_all Sample.hostname (Sample.app Server) initial_state
                       (Sample.burst 100))) in
  statusCode (response res) = 429
  ∧ field "error" (response res)
    = Some (JString "Too many requests, please try again later.")
  ∧ field "error" (response res) ≠ Some (JString "rate-limited").
Proof.
  cbn zeta.
  assert (H : field "error"
     (response (handle Sample.hostname (Sample.app Server)
               (Sample.get ["api"; "products"] None)
               (Sample.inputs_at 2000 (Responds Sample.ok))
               (snd (serve_all Sample.hostname (Sample.app Server) initial_state
                       (Sample.burst 100)))))
    = Some (JString "Too many requests, please try again later."))
    by (vm_compute; reflexivity).
  split; [vm_compute; reflexivity | split; [exact H |]].
  rewrite H. discriminate.
Qed.

Lemma delay_grows_with_count_witness :
  (fun r => delayed (context r))
    <$> (results_for Sample.hostname (Sample.app Server) Sample.client
           initial_state
           ((Sample.get ["api"; "products"] None,
             Sample.inputs_at 1000 (Responds Sample.ok)) :: Sample.burst 59)
         !! 59%nat)
  = Some 5000.
Proof.
  assert (Hwin : ∀ rq i, In (rq, i) (Sample.burst 59) →
            counted Sample.hostname (Sample.app Server) Sample.client rq = true →
            now i < 1000 + windowMs (conf (Sample.app Server))
            ∧ now i < 1000 + Admission.speedWindowMs).
  { intros rq i Hin _. apply repeat_spec in Hin. injection Hin as -> ->.
    split; reflexivity. }
  destruct (delay_grows_with_count Sample.hostname (Sample.app Server)
              Sample.client initial_state
              (Sample.get ["api"; "products"] None)
              (Sample.inputs_at 1000 (Responds Sample.ok))
              (Sample.burst 59)
              eq_refl (no_window_empty _ _) (no_window_empty _ _) Hwin)
    as [Hmain _].
  destruct (results_for Sample.hostname (Sample.app Server) Sample.client
              initial_state
              ((Sample.get ["api"; "products"] None,
                Sample.inputs_at 1000 (Responds Sample.ok)) :: Sample.burst 59)
            !! 59%nat) as [res |] eqn:Hres.
  - destruct (Hmain 59%nat res Hres ltac:(vm_compute; discriminate)) as [_ Hd].
    cbn [fmap option_fmap option_map]. rewrite Hd. reflexivity.
  - exfalso. apply lookup_ge_None_1 in Hres. vm_compute in Hres. lia.
Defined.

(** The delays of sixty requests in quick succession from one client: none
    for the first fifty, then 500 milliseconds more with each request. *)
Example sixty_requests :
  (fun r => delayed (context r))
    <$> fst (serve_all Sample.hostname (Sample.app Server) initial_state
               (Sample.burst 60))
  = repeat 0 50
    ++ [500; 1000; 1500; 2000; 2500; 3000; 3500; 4000; 4500; 5000].
Proof. vm_compute. reflexivity. Qed.


(** ** Cache outage at startup *)

(** The try block of the Redis initialisation catches whatever the
    connection attempt throws. *)
Lemma redis_init_never_throws (cfg : Config) (client : option RedisClient)
    (connect : Settled) (lg : list LogRecord) :
  ∃ c lg', redis_init cfg client connect lg = (inl c, lg').
Proof.
  unfold redis_init.
  destruct client as [c |]; [destruct (use_redis cfg) |].
  - unfold Task.try_catch. destruct (isOpen c); cbn; [eauto |].
    destruct connect; cbn; eauto.
  - cbn. eauto.
  - cbn. eauto.
Qed.

Module CacheFacts.
Import Cache.

(** During an outage the wrapper works on the in-process store, as it
    does when that store is the configured backend. *)
Lemma get_outage (st : Store) (key : string) (t : Z) :
  outage st → get (in_process st) key t = get st key t.
Proof. intros [Hb Hr]. unfold get, entries. cbn. now rewrite Hb, Hr. Qed.

Lemma set_outage (st : Store) (key : string) (v : Response) (ttl t : Z) :
  outage st →
  set (in_process st) key v ttl t = in_process (set st key v ttl t)
  ∧ outage (set st key v ttl t)
  ∧ external (set st key v ttl t) = external st
  ∧ local (set st key v ttl t)
    = <[key := {| value := v; expiresAt := t + ttl |}]> (local st).
Proof.
  intros [Hb Hr]. unfold set, outage. cbn. rewrite Hb, Hr. cbn.
  repeat split; assumption.
Qed.

Lemma cache_outage (ttl : Z) (st : Store) (rq : Request) (t : Z)
    (h : HandlerResult) :
  outage st →
  cache ttl (in_process st) rq t h
  = (fst (cache ttl st rq t h), in_process (snd (cache ttl st rq t h)))
  ∧ outage (snd (cache ttl st rq t h))
  ∧ external (snd (cache ttl st rq t h)) = external st
  ∧ hit (in_process st) rq t = hit st rq t.
Proof.
  intros Ho. unfold cache, hit. rewrite (get_outage _ _ _ Ho).
  destruct (safe (method rq)); [| cbn; auto].
  destruct (get st (key_of rq) t) as [r |]; [cbn; auto |].
  destruct h as [r | e |]; [| cbn; auto ..].
  destruct (set_outage st (key_of rq) r ttl t Ho) as (H1 & H2 & H3 & _).
  cbn [fst snd]. rewrite H1. auto.
Qed.

(** What is stored on a miss is served while it is fresh. *)
Lemma get_set (st : Store) (key : string) (v : Response) (ttl t t' : Z) :
  t' < t + ttl → get (set st key v ttl t) key t' = Some v.
Proof.
  intros Ht. unfold get, entries, set.
  destruct (backend st), (ready st); cbn; rewrite lookup_insert_eq; cbn;
    destruct (Z.ltb_spec t' (t + ttl)); (reflexivity || lia).
Qed.

End CacheFacts.

(** The routes during an outage and with the in-process backend. *)
Lemma route_outage (rs : list Route) (rq : Request) (i : Inputs) :
  ∀ st : Cache.Store,
    outage st →
    route rs rq i (in_process st)
    = (fst (route rs rq i st), in_process (snd (route rs rq i st)))
    ∧ outage (snd (route rs rq i st))
    ∧ Cache.external (snd (route rs rq i st)) = Cache.external st.
Proof.
  induction rs as [| [mount cached r | p answer] rest IH]; intros st Ho;
    cbn [route].
  - cbn. auto.
  - destruct (mounted mount (path rq)); [| exact (IH st Ho)].
    destruct cached.
    + destruct (CacheFacts.cache_outage ttl st rq (now i) (handler i r) Ho)
        as (Hc & Ho' & He & Hh).
      rewrite Hc. cbn [andb]. rewrite Hh.
      destruct (Cache.cache ttl st rq (now i) (handler i r)) as [h st'].
      cbn [fst snd] in *.
      destruct h as [resp | e |]; [cbn; auto ..|].
      destruct (IH st' Ho') as (H1 & H2 & H3).
      rewrite H1. split; [reflexivity | split; [exact H2 | congruence]].
    + cbn [andb]. destruct (handler i r) as [resp | e |]; [cbn; auto ..|].
      exact (IH st Ho).
  - destruct (is_get (method rq) && same_path p (path rq));
      [cbn; auto | exact (IH st Ho)].
Qed.

Lemma dispatch_outage (rq : Request) (i : Inputs) (st : Cache.Store) :
  outage st →
  dispatch rq i (in_process st)
  = (fst (dispatch rq i st), in_process (snd (dispatch rq i st)))
  ∧ outage (snd (dispatch rq i st))
  ∧ Cache.external (snd (dispatch rq i st)) = Cache.external st.
Proof. apply route_outage. Qed.

(** The cache after a request, and the answer of the routes. *)
Lemma handle_routes (hostname : string -> option string) (app : App)
    (rq : Request) (i : Inputs) (s : AppState) :
  (admitted (handle hostname app rq i s) →
   cache_store (state (handle hostname app rq i s))
   = snd (dispatch rq i (cache_store s))
   ∧ ∀ r, fst (fst (dispatch rq i (cache_store s))) = End r →
          response (handle hostname app rq i s) = r
          ∧ ended (context (handle hostname app rq i s)) = Some Dispatch
          ∧ removed (context (handle hostname app rq i s))
            = snd (fst (dispatch rq i (cache_store s))))
  ∧ (¬ admitted (handle hostname app rq i s) →
     cache_store (state (handle hostname app rq i s)) = cache_store s).
Proof.
  unfold admitted.
  paths.
  all: clash; simplify_eq.
  all: split; intros Ha.
  all: try (exfalso; cbn in Ha; intuition discriminate).
  all: try reflexivity.
  all: try (exfalso; apply Ha; cbn; tauto).
  all: (split; [reflexivity |]); intros resp Hr; try discriminate.
  all: injection Hr as <-; repeat split.
Qed.

(** A request during an outage is handled as it is by an application whose
    configured backend is the in-process store. *)
Lemma handle_outage (hostname : string -> option string) (app : App)
    (rq : Request) (i : Inputs) (s : AppState) :
  outage (cache_store s) →
  response (handle hostname app rq i (set_cache (in_process (cache_store s)) s))
  = response (handle hostname app rq i s)
  ∧ context (handle hostname app rq i (set_cache (in_process (cache_store s)) s))
    = context (handle hostname app rq i s)
  ∧ log (state (handle hostname app rq i
                  (set_cache (in_process (cache_store s)) s)))
    = log (state (handle hostname app rq i s))
  ∧ outage (cache_store (state (handle hostname app rq i s)))
  ∧ Cache.external (cache_store (state (handle hostname app rq i s)))
    = Cache.external (cache_store s).
Proof.
  intros Ho.
  destruct (dispatch_outage rq i (cache_store s) Ho) as (Hd & [Hb' Hr'] & He).
  destruct Ho as [Hb Hr].
  rewrite !handle_unfolded.
  unfold unfolded, after, admission_path, routes_path, error_path.
  cbn [cache_store set_cache set_limiter_store set_speed_store
       limiter_store speed_store log].
  rewrite Hd.
  repeat (walk_step; cbn [fst snd] in *; cbn beta iota zeta).
  all: unfold finish; tidy.
  all: repeat split; assumption.
Qed.

Lemma safe_is_get (m : Method) : Cache.safe m = is_get m.
Proof. destruct m; reflexivity. Qed.

(** No route registered before the product routes matches a path under
    [/api/products]. *)
Lemma under_products (p : list string) :
  mounted ["api"; "products"] p = true →
  mounted ["api-docs"] p = false
  ∧ same_path ["health"] p = false
  ∧ same_path [] p = false
  ∧ mounted ["api"; "auth"] p = false.
Proof.
  intros H. destruct p as [| a [| b p]]; unfold same_path, mounted in *;
    cbn [lowercase length drop andb] in *; try discriminate H.
  - apply andb_true_iff in H as [_ H]. discriminate H.
  - apply andb_true_iff in H as [Ha H].
    apply andb_true_iff in H as [Hb _].
    apply String.eqb_eq in Ha, Hb. cbn in Ha, Hb. rewrite <- Ha, <- Hb.
    repeat split; reflexivity.
Qed.

(** A safe read under [/api/products] goes to the cache wrapper first. *)
Lemma dispatch_products (rq : Request) (i : Inputs) (st : Cache.Store) :
  mounted ["api"; "products"] (path rq) = true →
  is_get (method rq) = true →
  match Cache.get st (Cache.key_of rq) (now i) with
  | Some r => dispatch rq i st = (End r, 2%nat, st)
  | None =>
      ∀ r, handler i ProductRoutes = Responds r →
           dispatch rq i st
           = (End r, (2 + nested i)%nat,
              Cache.set st (Cache.key_of rq) r ttl (now i))
  end.
Proof.
  intros Hm Hg.
  destruct (under_products _ Hm) as (H1 & H2 & H3 & H4).
  unfold dispatch, routes. cbn [route].
  rewrite H1, H2, H3, H4, Hm, !andb_false_r.
  unfold Cache.cache, Cache.hit. rewrite safe_is_get, Hg. cbn [andb].
  destruct (Cache.get st (Cache.key_of rq) (now i)) as [r |] eqn:Hget.
  - rewrite bool_decide_true by eauto. reflexivity.
  - intros r ->. rewrite bool_decide_false by (intros [x Hx]; discriminate).
    reflexivity.
Qed.

(** C9.  When the external cache is enabled and connecting to it fails at
    startup, the failure is logged, followed by the notice that the
    in-memory cache is used, and (unless a failed store connection ends
    the serverless process) the application is served.  From then on the
    cache works on its in-process store: every request is handled as it
    is by an application configured with the in-process cache (the same
    response, the same stages, headers and delay, the same log records),
    so that no request meets an error or a wait of the outage; the
    external store is left alone; and what a product route has answered
    to a safe read is stored in the in-process store and served from it,
    without the route, to the same read within ten minutes. *)
Theorem cache_outage_tolerated
    (v : Variant) (file env : gmap string string) (a : App)
    (c : RedisClient) (reason : string)
    (readyState : Z) (store : Settled) (store_first : bool) :
  load_app v file env = Loaded a →
  use_redis (conf a) = true →
  isOpen c = false →
  v = Server ∨ readyState ≠ 0 ∨ store = Fulfilled →
  let b := boot v file env (Some c) (Rejected reason)
                readyState store store_first in
  (∃ before after,
     b = Serving a (Some c)
           (before
            ++ [ LogText LError "Redis connection error:" (Some reason);
                 LogText LInfo "Continuing with in-memory cache" None ]
            ++ after))
  ∧ outage (cache_store (serving_state b))
  ∧ (∀ hostname rq i s,
       outage (cache_store s) →
       serve hostname b rq i s = Some (handle hostname a rq i s)
       ∧ response (handle hostname a rq i s)
         = response (handle hostname a rq i
                       (set_cache (in_process (cache_store s)) s))
       ∧ context (handle hostname a rq i s)
         = context (handle hostname a rq i
                      (set_cache (in_process (cache_store s)) s))
       ∧ log (state (handle hostname a rq i s))
         = log (state (handle hostname a rq i
                         (set_cache (in_process (cache_store s)) s)))
       ∧ outage (cache_store (state (handle hostname a rq i s)))
       ∧ Cache.external (cache_store (state (handle hostname a rq i s)))
         = Cache.external (cache_store s))
  ∧ (∀ hostname rq i1 i2 s r,
       outage (cache_store s) →
       is_get (method rq) = true →
       mounted ["api"; "products"] (path rq) = true →
       admitted (handle hostname a rq i1 s) →
       Cache.get (cache_store s) (Cache.key_of rq) (now i1) = None →
       handler i1 ProductRoutes = Responds r →
       admitted (handle hostname a rq i2 (state (handle hostname a rq i1 s))) →
       now i2 < now i1 + ttl →
       response (handle hostname a rq i1 s) = r
       ∧ Cache.local (cache_store (state (handle hostname a rq i1 s)))
           !! Cache.key_of rq
         = Some {| Cache.value := r; Cache.expiresAt := now i1 + ttl |}
       ∧ response (handle hostname a rq i2
                     (state (handle hostname a rq i1 s))) = r).
Proof.
  intros Hl Hu Ho Hstore b.
  assert (Hb : ∃ before after,
     b = Serving a (Some c)
           (before
            ++ [ LogText LError "Redis connection error:" (Some reason);
                 LogText LInfo "Continuing with in-memory cache" None ]
            ++ after)).
  { subst b. unfold boot. rewrite Hl. unfold cache_awaits, redis_init.
    rewrite Hu, Ho. cbn [andb negb].
    unfold Store.connect.
    destruct (Z.eqb_spec readyState 0) as [Hz | Hz].
    - destruct store as [| e].
      + destruct store_first; cbn.
        * exists [LogText LInfo "✅ Successfully connected to MongoDB" None], [].
          reflexivity.
        * exists [], [LogText LInfo "✅ Successfully connected to MongoDB" None].
          reflexivity.
      + destruct Hstore as [-> | [Hn | Hf]]; [| contradiction | discriminate].
        destruct store_first; cbn.
        * exists [LogText LError "❌ Error connecting to MongoDB:" (Some e)], [].
          reflexivity.
        * exists [], [LogText LError "❌ Error connecting to MongoDB:" (Some e)].
          reflexivity.
    - destruct store_first; cbn; exists [], []; reflexivity. }
  destruct Hb as (before & after & Hb).
  split; [eauto |]. rewrite Hb.
  split; [| split].
  - unfold serving_state, outage, Cache.init. cbn. now rewrite Hu.
  - intros hostname rq i s Hs.
    destruct (handle_outage hostname a rq i s Hs) as (Hr & Hc & Hg & Ho' & He).
    cbn [serve]. split; [reflexivity |].
    split; [symmetry; exact Hr |]. split; [symmetry; exact Hc |].
    split; [symmetry; exact Hg |]. split; [exact Ho' | exact He].
  - intros hostname rq i1 i2 s r Hs Hg Hm Ha1 Hmiss Hh Ha2 Ht.
    destruct (handle_routes hostname a rq i1 s) as [H1 _].
    destruct (H1 Ha1) as [Hc1 Hr1].
    pose proof (dispatch_products rq i1 (cache_store s) Hm Hg) as Hd1.
    rewrite Hmiss in Hd1. specialize (Hd1 r Hh).
    rewrite Hd1 in Hc1, Hr1. cbn [fst snd] in Hc1, Hr1.
    destruct (Hr1 r eq_refl) as (Hresp1 & _).
    destruct (CacheFacts.set_outage (cache_store s) (Cache.key_of rq) r ttl
                (now i1) Hs) as (_ & _ & _ & Hloc).
    split; [exact Hresp1 | split].
    + rewrite Hc1, Hloc. apply lookup_insert_eq.
    + destruct (handle_routes hostname a rq i2
                  (state (handle hostname a rq i1 s))) as [H2 _].
      destruct (H2 Ha2) as [_ Hr2].
      pose proof (dispatch_products rq i2
                    (cache_store (state (handle hostname a rq i1 s))) Hm Hg)
        as Hd2.
      rewrite Hc1, (CacheFacts.get_set _ _ _ _ _ _ Ht) in Hd2.
      rewrite Hc1, Hd2 in Hr2. cbn [fst snd] in Hr2.
      destruct (Hr2 r eq_refl) as (Hresp2 & _). exact Hresp2.
Qed.

Lemma cache_outage_tolerated_witness :
  load_app Server ∅ Sample.env = Loaded (Sample.app_of Sample.env)
  ∧ use_redis (conf (Sample.app_of Sample.env)) = true
  ∧ ∃ before after,
      boot Server ∅ Sample.env (Some {| isOpen := false |})
           (Rejected "connect ECONNREFUSED 127.0.0.1:6379") 0 Fulfilled false
      = Serving (Sample.app_of Sample.env) (Some {| isOpen := false |})
          (before
           ++ [ LogText LError "Redis connection error:"
                  (Some "connect ECONNREFUSED 127.0.0.1:6379");
                LogText LInfo "Continuing with in-memory cache" None ]
           ++ after).
Proof.
  assert (H : load_app Server ∅ Sample.env = Loaded (Sample.app_of Sample.env)).
  { vm_compute. reflexivity. }
  assert (Hu : use_redis (conf (Sample.app_of Sample.env)) = true).
  { vm_compute. reflexivity. }
  split; [exact H | split; [exact Hu |]].
  destruct (cache_outage_tolerated Server ∅ Sample.env
              (Sample.app_of Sample.env) {| isOpen := false |}
              "connect ECONNREFUSED 127.0.0.1:6379" 0 Fulfilled false
              H Hu eq_refl (or_introl eq_refl)) as [Hb _].
  exact Hb.
Defined.

(** The same read twice during an outage: the route answers the first,
    the in-process cache the second, whatever the route would do then. *)
Example second_read_from_the_cache :
  let s := serving_state
             (boot Server ∅ Sample.env (Some {| isOpen := false |})
                   (Rejected "connect ECONNREFUSED 127.0.0.1:6379")
                   0 Fulfilled false) in
  let first := handle Sample.hostname (Sample.app_of Sample.env)
                 (Sample.get ["api"; "products"] None)
                 (Sample.inputs_at 1000 (Responds Sample.ok)) s in
  let second := handle Sample.hostname (Sample.app_of Sample.env)
                  (Sample.get ["api"; "products"] None)
                  (Sample.inputs_at 2000 (Throws Sample.not_found))
                  (state first) in
  response first = Sample.ok
  ∧ response second = Sample.ok
  ∧ Cache.external (cache_store (state second)) = ∅.
Proof. cbn zeta. repeat split; vm_compute; reflexivity. Qed.
(** * Further properties of the code *)

(** ** The check of the required variables *)

Lemma truthy_true (o : option string) :
  Js.truthy o = true ↔ ∃ s, o = Some s ∧ s ≠ "".
Proof.
  destruct o as [s |]; cbn.
  - rewrite negb_true_iff, String.eqb_neq. split.
    + intros H. exists s. auto.
    + intros (s' & [= <-] & H). exact H.
  - split; [discriminate | intros (s & H & _); discriminate].
Qed.

Lemma missing_none (env : gmap string string) :
  Env.missingEnvVars env = [] ↔
  Js.truthy (env !! "JWT_SECRET") = true ∧ Js.truthy (env !! "MONGODB_URI") = true.
Proof.
  unfold Env.missingEnvVars, Env.requiredEnvVars. cbn [List.filter].
  destruct (Js.truthy (env !! "JWT_SECRET")), (Js.truthy (env !! "MONGODB_URI"));
    cbn; split; intros H; try discriminate; try tauto; destruct H; discriminate.
Qed.

(** X1.  The application is built exactly when, after the [.env] file has
    been merged in, [JWT_SECRET] and [MONGODB_URI] both have a value that
    is not the empty string; it is then built with the configuration read
    from that merged environment. *)
Theorem application_built_iff
    (v : Variant) (file env : gmap string string) (a : App) :
  load_app v file env = Loaded a ↔
  (∃ secret uri,
     Env.dotenv_config file env !! "JWT_SECRET" = Some secret ∧ secret ≠ ""
     ∧ Env.dotenv_config file env !! "MONGODB_URI" = Some uri ∧ uri ≠ "")
  ∧ a = {| variant := v; conf := config_of_env (Env.dotenv_config file env) |}.
Proof.
  unfold load_app.
  destruct (Env.missingEnvVars (Env.dotenv_config file env)) as [| x l] eqn:Hm.
  - apply missing_none in Hm as [H1 H2].
    apply truthy_true in H1 as (secret & H1 & Hs).
    apply truthy_true in H2 as (uri & H2 & Hu).
    cbn. split.
    + intros [= <-]. split; [| reflexivity]. exists secret, uri. auto.
    + intros [_ ->]. reflexivity.
  - cbn. split.
    + destruct v; discriminate.
    + intros [(secret & uri & H1 & Hs & H2 & Hu) _]. exfalso.
      assert (Hn : Env.missingEnvVars (Env.dotenv_config file env) = []).
      { apply missing_none. split; apply truthy_true; eauto. }
      congruence.
Qed.

(** X2.  A required variable that the process environment sets to the
    empty string counts as missing, also when the [.env] file gives it a
    value: the file does not override what the environment defines. *)
Theorem empty_variable_counts_as_missing
    (v : Variant) (file env : gmap string string) (x : string) :
  In x Env.requiredEnvVars →
  env !! x = Some "" →
  (∀ a, load_app v file env ≠ Loaded a)
  ∧ In x (Env.missingEnvVars (Env.dotenv_config file env)).
Proof.
  intros Hx He.
  assert (Hl : Env.dotenv_config file env !! x = Some "").
  { unfold Env.dotenv_config. now apply lookup_union_Some_l. }
  assert (Hin : In x (Env.missingEnvVars (Env.dotenv_config file env))).
  { unfold Env.missingEnvVars. apply filter_In. split; [exact Hx |].
    rewrite Hl. reflexivity. }
  split; [| exact Hin].
  intros a Ha. unfold load_app in Ha.
  destruct (Env.missingEnvVars (Env.dotenv_config file env)); [destruct Hin |].
  cbn in Ha. destruct v; discriminate.
Qed.

Lemma empty_variable_counts_as_missing_witness :
  In "JWT_SECRET" Env.requiredEnvVars
  ∧ (<["JWT_SECRET" := ""]> Sample.env : gmap string string) !! "JWT_SECRET"
    = Some ""
  ∧ ∀ a, load_app Server {["JWT_SECRET" := "from-the-file"]}
           (<["JWT_SECRET" := ""]> Sample.env) ≠ Loaded a.
Proof.
  assert (H1 : In "JWT_SECRET" Env.requiredEnvVars) by (left; reflexivity).
  assert (H2 : (<["JWT_SECRET" := ""]> Sample.env : gmap string string)
               !! "JWT_SECRET" = Some "") by (vm_compute; reflexivity).
  split; [exact H1 | split; [exact H2 |]].
  apply (empty_variable_counts_as_missing Server
           {["JWT_SECRET" := "from-the-file"]}
           (<["JWT_SECRET" := ""]> Sample.env) "JWT_SECRET" H1 H2).
Defined.

(** ** The configuration of the ceiling stage *)

Lemma or_default_not_zero (n : option Z) (d : Z) :
  d ≠ 0 → Js.or_default n d ≠ 0.
Proof. intros Hd. destruct n as [[| p | p] |]; cbn; congruence. Qed.

Lemma parseInt_none : Js.parseInt None = None.
Proof. reflexivity. Qed.

(** X3.  Whatever the environment holds, the window and the ceiling of the
    ceiling stage are never zero: a value that is unset, that does not
    start with a number, or that reads as zero gives way to the default,
    which is 15 minutes for the window and 100 requests for the ceiling. *)
Theorem ceiling_configuration_never_zero (env : gmap string string) :
  windowMs (config_of_env env) ≠ 0
  ∧ max (config_of_env env) ≠ 0
  ∧ (env !! "RATE_LIMIT_WINDOW_MS" = None
     ∨ Js.parseInt (env !! "RATE_LIMIT_WINDOW_MS") = None
     ∨ Js.parseInt (env !! "RATE_LIMIT_WINDOW_MS") = Some 0 →
     windowMs (config_of_env env) = 900000)
  ∧ (env !! "RATE_LIMIT_MAX_REQUESTS" = None
     ∨ Js.parseInt (env !! "RATE_LIMIT_MAX_REQUESTS") = None
     ∨ Js.parseInt (env !! "RATE_LIMIT_MAX_REQUESTS") = Some 0 →
     max (config_of_env env) = 100).
Proof.
  unfold config_of_env. cbn [windowMs max].
  repeat split.
  - apply or_default_not_zero. discriminate.
  - apply or_default_not_zero. discriminate.
  - intros [-> | [-> | ->]]; reflexivity.
  - intros [-> | [-> | ->]]; reflexivity.
Qed.

Lemma digits_acc (d : Decimal.uint) :
  ∀ acc : positive,
    Js.digits 10 (Some (Z.pos acc)) (NilEmpty.string_of_uint d)
    = Some (Z.pos (Pos.of_uint_acc d acc)).
Proof.
  induction d; intros acc; cbn [NilEmpty.string_of_uint Js.digits Pos.of_uint_acc];
    [reflexivity | ..];
    (change (Js.digit 10 _) with (Some 0)
     || change (Js.digit 10 _) with (Some 1)
     || change (Js.digit 10 _) with (Some 2)
     || change (Js.digit 10 _) with (Some 3)
     || change (Js.digit 10 _) with (Some 4)
     || change (Js.digit 10 _) with (Some 5)
     || change (Js.digit 10 _) with (Some 6)
     || change (Js.digit 10 _) with (Some 7)
     || change (Js.digit 10 _) with (Some 8)
     || change (Js.digit 10 _) with (Some 9));
    cbn [default from_option id];
    rewrite <- IHd; do 2 f_equal; lia.
Qed.

Lemma digits_zero (d : Decimal.uint) :
  Js.digits 10 (Some 0) (NilEmpty.string_of_uint d)
  = Some (Z.of_N (Pos.of_uint d)).
Proof.
  induction d; cbn [NilEmpty.string_of_uint Js.digits Pos.of_uint];
    [reflexivity | exact IHd | ..];
    (change (Js.digit 10 _) with (Some 1)
     || change (Js.digit 10 _) with (Some 2)
     || change (Js.digit 10 _) with (Some 3)
     || change (Js.digit 10 _) with (Some 4)
     || change (Js.digit 10 _) with (Some 5)
     || change (Js.digit 10 _) with (Some 6)
     || change (Js.digit 10 _) with (Some 7)
     || change (Js.digit 10 _) with (Some 8)
     || change (Js.digit 10 _) with (Some 9));
    cbn [default from_option id];
    apply digits_acc.
Qed.

Lemma to_double_small (n : Z) : Z.abs n < 2 ^ 53 → Js.to_double n = n.
Proof.
  intros H. unfold Js.to_double.
  destruct (Z.ltb_spec (Z.abs n) (2 ^ 53)); [reflexivity | lia].
Qed.

Lemma parseInt_uint (d : Decimal.uint) :
  d ≠ Decimal.Nil →
  Js.parseInt (Some (NilEmpty.string_of_uint d))
  = Some (Js.to_double (Z.of_N (Pos.of_uint d))).
Proof.
  intros Hd. unfold Js.parseInt.
  assert (H1 : Js.trim_start (NilEmpty.string_of_uint d)
               = NilEmpty.string_of_uint d) by (destruct d; reflexivity).
  assert (H2 : Js.strip_sign (NilEmpty.string_of_uint d)
               = (false, NilEmpty.string_of_uint d)) by (destruct d; reflexivity).
  assert (H3 : Js.strip_hex (NilEmpty.string_of_uint d)
               = (10, NilEmpty.string_of_uint d)).
  { destruct d as [| d' | | | | | | | | |]; try reflexivity.
    destruct d'; reflexivity. }
  assert (H4 : Js.digits 10 None (NilEmpty.string_of_uint d)
               = Js.digits 10 (Some 0) (NilEmpty.string_of_uint d)).
  { destruct d; [contradiction | reflexivity ..]. }
  rewrite H1, H2, H3, H4, digits_zero. reflexivity.
Qed.

(** Reading back the decimal numeral of a positive number gives the
    number, as long as a double holds it exactly. *)
Lemma parseInt_decimal (p : positive) :
  Z.pos p < 2 ^ 53 → Js.parseInt (Some (decimal p)) = Some (Z.pos p).
Proof.
  intros Hp. unfold decimal. rewrite parseInt_uint.
  - rewrite Unsigned.of_to. cbn [Z.of_N]. now rewrite to_double_small by lia.
  - intros H. pose proof (Unsigned.of_to p) as Hq. rewrite H in Hq. discriminate.
Qed.

(** X4.  When [RATE_LIMIT_MAX_REQUESTS] holds the decimal numeral of a
    positive number below 2^53, that number is the ceiling; when
    [RATE_LIMIT_WINDOW_MS] does, that number is the length of the window in
    milliseconds.  (From 2^53 on a number is read as the nearest double.) *)
Theorem ceiling_read_from_environment
    (env : gmap string string) (p q : positive) :
  (env !! "RATE_LIMIT_MAX_REQUESTS" = Some (decimal p) →
   Z.pos p < 2 ^ 53 →
   max (config_of_env env) = Z.pos p)
  ∧ (env !! "RATE_LIMIT_WINDOW_MS" = Some (decimal q) →
     Z.pos q < 2 ^ 53 →
     windowMs (config_of_env env) = Z.pos q).
Proof.
  unfold config_of_env. cbn [max windowMs].
  split; intros -> H; rewrite parseInt_decimal by exact H; reflexivity.
Qed.

Lemma ceiling_read_from_environment_witness :
  ({["RATE_LIMIT_MAX_REQUESTS" := "250"]} : gmap string string)
    !! "RATE_LIMIT_MAX_REQUESTS" = Some (decimal 250)
  ∧ max (config_of_env {["RATE_LIMIT_MAX_REQUESTS" := "250"]}) = 250.
Proof.
  assert (H : ({["RATE_LIMIT_MAX_REQUESTS" := "250"]} : gmap string string)
                !! "RATE_LIMIT_MAX_REQUESTS" = Some (decimal 250))
    by (vm_compute; reflexivity).
  split; [exact H |].
  exact (proj1 (ceiling_read_from_environment
                  {["RATE_LIMIT_MAX_REQUESTS" := "250"]} 250 1) H eq_refl).
Defined.

(** Beyond 2^53 the ceiling is the double nearest to the numeral. *)
Example ceiling_beyond_exact_doubles :
  max (config_of_env {["RATE_LIMIT_MAX_REQUESTS" := "9007199254740993"]})
  = 9007199254740992.
Proof. vm_compute. reflexivity. Qed.

(** ** What every request goes through *)

(** What is attached to a request on its way, by how far it gets. *)
Lemma handle_context (hostname : string -> option string) (app : App)
    (rq : Request) (i : Inputs) (s : AppState) :
  headers (context (handle hostname app rq i s))
  = (let hs := helmet_headers i
               ++ (if origin_callback hostname (variant app) (origin rq)
                   then cors_headers (origin rq) else []) in
     match ended (context (handle hostname app rq i s)) with
     | Some _ => hs
     | None => set_header "Content-Security-Policy" "default-src 'none'" hs
     end)
  ∧ compressed (context (handle hostname app rq i s)) = true
  ∧ req_id (context (handle hostname app rq i s))
    = (if reaches_context hostname app rq
       then Some (Uuid.randomUUID (random i)) else None)
  ∧ started (context (handle hostname app rq i s))
    = (if reaches_context hostname app rq then Some (now i) else None).
Proof.
  unfold reaches_context.
  paths.
  all: cbn [andb negb is_next].
  all: rewrite ?app_nil_r; repeat split; reflexivity.
Qed.

(** What one request adds to the log, and what is answered when the
    terminal error handler has run. *)
Lemma handle_log (hostname : string -> option string) (app : App)
    (rq : Request) (i : Inputs) (s : AppState) :
  let res := handle hostname app rq i s in
  let id := req_id (context res) in
  let done :=
    if reaches_context hostname app rq
    then [completion rq i (removed (context res)) (response res) id]
    else [] in
  (In ErrorHandler (visited (context res)) →
   ∃ e, log (state res) = log s ++ error_records rq e id ++ done
        ∧ removed (context res) = 0%nat
        ∧ match send_json (error_response (conf app) id e) with
          | Some r => response res = r ∧ ended (context res) = Some ErrorHandler
          | None => response res = error_page (conf app) i
                    ∧ ended (context res) = None
          end)
  ∧ (¬ In ErrorHandler (visited (context res)) →
     log (state res) = log s ++ done
     ∧ ended (context res) ≠ Some ErrorHandler).
Proof.
  cbn zeta. unfold completion, error_records, error_page, reaches_context.
  paths.
  all: cbn [andb negb is_next].
  all: split; intros Hv;
       try (exfalso; cbn in Hv; intuition discriminate).
  all: try (split; [rewrite ?app_nil_r; reflexivity | discriminate]).
  all: match goal with
       | |- context [LogError (message ?e0)] => exists e0
       end.
  all: first
    [ rewrite send_json_cors
    | match goal with
      | H : send_json (error_response _ _ _) = _ |- _ => rewrite H
      end ].
  all: rewrite <- ?app_assoc, ?app_nil_r; repeat split.
Qed.

(** How far a request gets, and where it is answered. *)
Lemma handle_stages (hostname : string -> option string) (app : App)
    (rq : Request) (i : Inputs) (s : AppState) :
  (In Limiter (visited (context (handle hostname app rq i s))) →
   reaches_admission hostname app rq = true)
  ∧ (admitted (handle hostname app rq i s) →
     reaches_context hostname app rq = true)
  ∧ (reaches_admission hostname app rq = false →
     delayed (context (handle hostname app rq i s)) = 0
     ∧ ¬ In Limiter (visited (context (handle hostname app rq i s)))
     ∧ ¬ In SpeedLimiter (visited (context (handle hostname app rq i s))))
  ∧ (reaches_context hostname app rq = true →
     mounted ["api"] (path rq) = false
     ∨ snd (Admission.limiter (conf app) (limiter_store s) (ip rq) (now i)) = None →
     admitted (handle hostname app rq i s))
  ∧ (ended (context (handle hostname app rq i s)) = Some Limiter →
     removed (context (handle hostname app rq i s)) = 1%nat)
  ∧ (ended (context (handle hostname app rq i s)) = Some Cors
     ∨ ended (context (handle hostname app rq i s)) = None →
     removed (context (handle hostname app rq i s)) = 0%nat)
  ∧ (ended (context (handle hostname app rq i s)) = Some Dispatch →
     admitted (handle hostname app rq i s)
     ∧ ∃ r, fst (fst (dispatch rq i (cache_store s))) = End r).
Proof.
  unfold reaches_admission, reaches_context, admitted.
  paths.
  all: cbn [andb negb is_next].
  all: repeat split; intros; try discriminate; try reflexivity;
       try (cbn in *; intuition discriminate); try lia.
  all: try (cbn; tauto).
  all: clash; eauto.
Qed.

Ltac in_list := cbn [In]; repeat first [left; reflexivity | right].

Ltac not_in H :=
  cbn [In] in H;
  repeat (destruct H as [H | H];
          [first [discriminate H | injection H as ?; subst] |]);
  try contradiction.

(** X5.  Every response, also the error responses and the rejections of
    the ceiling stage, carries the two cross-origin policies that [helmet]
    is configured with, and exactly one content security policy: the one
    of [helmet], which begins with the five configured directives, when a
    layer of the application has sent the response, and the policy
    [default-src 'none'] of Express's own pages when none has.  A request
    whose origin is denied, or that names no origin, gets no
    [Access-Control-Allow-Origin] header; a request from an allowed origin
    gets that header with its own origin, and credentials are allowed. *)
Theorem security_headers_on_every_response
    (hostname : string -> option string) (app : App)
    (rq : Request) (i : Inputs) (s : AppState) :
  In ("Cross-Origin-Resource-Policy", "cross-origin")
     (headers (context (handle hostname app rq i s)))
  ∧ In ("Cross-Origin-Opener-Policy", "same-origin")
       (headers (context (handle hostname app rq i s)))
  ∧ (∀ v, In ("Content-Security-Policy", v)
             (headers (context (handle hostname app rq i s))) ↔
          v = match ended (context (handle hostname app rq i s)) with
              | Some _ =>
                  Js.join ";"
                    ([ "default-src 'self'";
                       "script-src 'self' 'unsafe-inline'";
                       "style-src 'self' 'unsafe-inline'";
                       "img-src 'self' data: https: http:";
                       "connect-src 'self' https: http:" ]
                     ++ csp_defaults i)
              | None => "default-src 'none'"
              end)
  ∧ (origin_callback hostname (variant app) (origin rq) = false
     ∨ Js.truthy (origin rq) = false →
     ∀ o, ¬ In ("Access-Control-Allow-Origin", o)
               (headers (context (handle hostname app rq i s))))
  ∧ (origin_callback hostname (variant app) (origin rq) = true →
     ∀ o, origin rq = Some o → o ≠ "" →
          In ("Access-Control-Allow-Origin", o)
             (headers (context (handle hostname app rq i s)))
          ∧ In ("Access-Control-Allow-Credentials", "true")
               (headers (context (handle hostname app rq i s)))).
Proof.
  destruct (handle_context hostname app rq i s) as (Hh & _).
  rewrite Hh. clear Hh. cbn zeta.
  unfold helmet_headers, cors_headers, set_header, csp_directives.
  destruct (ended (context (handle hostname app rq i s))) as [st |];
    destruct (origin_callback hostname (variant app) (origin rq));
    destruct (origin rq) as [o' |]; cbn [Js.truthy];
    try destruct (String.eqb_spec o' "") as [-> | Ho'];
    cbn [negb List.app List.filter fst String.eqb Ascii.eqb Bool.eqb
         default from_option id].
  all: split; [in_list | split; [in_list | split; [| split]]].
  all: try (intros v; split;
            [intros H; not_in H; reflexivity | intros ->; in_list]).
  all: try (intros _ o H; not_in H; fail).
  all: try (intros [H | H]; try discriminate H; intros o Hin; not_in Hin; fail).
  all: try (intros H; discriminate H).
  all: try (intros _ o [= <-] Hne; try contradiction; split; in_list).
Qed.



(** X7.  The request gets its identifier exactly when it passes the origin
    check and the body parsers, and always before the admission stages and
    the routes: whenever one of them has run, the identifier is there. *)
Theorem identifier_before_admission_and_routes
    (hostname : string -> option string) (app : App)
    (rq : Request) (i : Inputs) (s : AppState) :
  req_id (context (handle hostname app rq i s))
  = (if reaches_context hostname app rq
     then Some (Uuid.randomUUID (random i)) else None)
  ∧ (In Limiter (visited (context (handle hostname app rq i s)))
     ∨ In Dispatch (visited (context (handle hostname app rq i s))) →
     req_id (context (handle hostname app rq i s))
     = Some (Uuid.randomUUID (random i))).
Proof.
  destruct (handle_context hostname app rq i s) as (_ & _ & Hid & _).
  destruct (handle_stages hostname app rq i s) as (Hl & Hd & _).
  split; [exact Hid |].
  intros [H | H]; rewrite Hid.
  - apply Hl in H. unfold reaches_admission in H.
    apply andb_true_iff in H as [-> _]. reflexivity.
  - apply Hd in H. now rewrite H.
Qed.

(** X8.  A request that does not get to the admission stages (its origin
    is denied, it is a preflight, its body is rejected, or its path is
    outside [/api]) is not counted by either stage and is not delayed. *)
Theorem uncounted_requests_cost_nothing
    (hostname : string -> option string) (app : App)
    (rq : Request) (i : Inputs) (s : AppState) :
  reaches_admission hostname app rq = false →
  limiter_store (state (handle hostname app rq i s)) = limiter_store s
  ∧ speed_store (state (handle hostname app rq i s)) = speed_store s
  ∧ delayed (context (handle hostname app rq i s)) = 0.
Proof.
  intros H.
  destruct (handle_admission hostname app rq i s) as [Hout _].
  destruct (handle_stages hostname app rq i s) as (_ & _ & Hd & _).
  destruct (Hout H) as [H1 H2]. destruct (Hd H) as [H3 _]. auto.
Qed.

Lemma uncounted_requests_cost_nothing_witness :
  reaches_admission Sample.hostname (Sample.app Server)
    (Sample.get ["api"; "orders"] (Some "https://evil.example.com")) = false
  ∧ limiter_store
      (state (handle Sample.hostname (Sample.app Server)
                (Sample.get ["api"; "orders"] (Some "https://evil.example.com"))
                (Sample.inputs (Responds Sample.ok)) Sample.busy))
    = limiter_store Sample.busy.
Proof.
  assert (H : reaches_admission Sample.hostname (Sample.app Server)
                (Sample.get ["api"; "orders"] (Some "https://evil.example.com"))
              = false) by reflexivity.
  split; [exact H |].
  apply (uncounted_requests_cost_nothing Sample.hostname (Sample.app Server)
           (Sample.get ["api"; "orders"] (Some "https://evil.example.com"))
           (Sample.inputs (Responds Sample.ok)) Sample.busy H).
Defined.




(** The health check in letters of either case, from a client that has
    used up its ceiling. *)
Example health_check_of_a_busy_client :
  response (handle Sample.hostname (Sample.app Server)
              (Sample.get ["HEALTH"] None) (Sample.inputs Unmatched)
              Sample.busy)
  = {| statusCode := 200;
       payload := JsonBody [ ("status", JString "healthy");
                             ("timestamp", JString "2024-01-01T00:00:00.000Z");
                             ("uptime", JNumber "12.5") ] |}.
Proof. vm_compute. reflexivity. Qed.
(** ** The error layers *)

(** X10.  Whenever the terminal error handler runs, whichever stage raised
    the error, the error is logged before anything is answered: the log
    gains the record of [errorLogger] and then the line of the terminal
    handler, both for the same error and both with what the request has as
    identifier at that moment (nothing, shown as [undefined], when the
    error came before the identifier was assigned), and after them nothing
    but a completion record.  What is answered is made from that error:
    if the status that the terminal handler sets is one that can be sent
    (100 to 999), the response has that status and, unless the status is
    one that is sent without a body, the body of the terminal handler; if
    it is not, the terminal handler throws and Express answers with its
    own page for status 500. *)
Theorem errors_are_logged_before_they_are_answered
    (hostname : string -> option string) (app : App)
    (rq : Request) (i : Inputs) (s : AppState) :
  In ErrorHandler (visited (context (handle hostname app rq i s))) →
  ∃ e rest,
    log (state (handle hostname app rq i s))
    = log s
      ++ [ LogError (message e) (stack e) (method_name (method rq)) (url rq)
                    (req_id (context (handle hostname app rq i s)));
           LogText LError
             ("[Error] ["
              ++ Js.template (req_id (context (handle hostname app rq i s)))
              ++ "] " ++ stack e)%string
             None ]
      ++ rest
    ∧ Forall (fun r => is_completion r = true) rest
    ∧ let sent := error_response (conf app)
                    (req_id (context (handle hostname app rq i s))) e in
      if (100 <=? statusCode sent) && (statusCode sent <=? 999)
      then statusCode (response (handle hostname app rq i s)) = statusCode sent
           ∧ ended (context (handle hostname app rq i s)) = Some ErrorHandler
           ∧ (if bodyless (statusCode sent)
              then payload (response (handle hostname app rq i s)) = NoBody
              else response (handle hostname app rq i s) = sent)
      else response (handle hostname app rq i s)
           = {| statusCode := 500;
                payload := TextBody (if production (conf app)
                                     then "Internal Server Error"
                                     else thrown i) |}
           ∧ ended (context (handle hostname app rq i s)) = None.
Proof.
  intros Hin.
  destruct (handle_log hostname app rq i s) as [Herr _].
  destruct (Herr Hin) as (e & Hl & _ & Hsend). cbn zeta in Hl.
  exists e. eexists. split; [exact Hl | split].
  - destruct (reaches_context hostname app rq); repeat constructor.
  - cbn zeta. unfold send_json, valid_status in Hsend.
    destruct ((100 <=? statusCode _) && (statusCode _ <=? 999)).
    + destruct Hsend as [-> ->].
      destruct (bodyless (statusCode _)); repeat split.
    + exact Hsend.
Qed.

Lemma errors_are_logged_before_they_are_answered_witness :
  In ErrorHandler
     (visited (context (handle Sample.hostname (Sample.app Server)
                          (Sample.get ["api"; "orders"]
                                      (Some "https://evil.example.com"))
                          (Sample.inputs (Responds Sample.ok)) initial_state)))
  ∧ ∃ e rest,
      log (state (handle Sample.hostname (Sample.app Server)
                    (Sample.get ["api"; "orders"]
                                (Some "https://evil.example.com"))
                    (Sample.inputs (Responds Sample.ok)) initial_state))
      = log initial_state
        ++ [ LogError (message e) (stack e) "GET" "/api/orders" None;
             LogText LError ("[Error] [undefined] " ++ stack e)%string None ]
        ++ rest.
Proof.
  assert (H : In ErrorHandler
     (visited (context (handle Sample.hostname (Sample.app Server)
                          (Sample.get ["api"; "orders"]
                                      (Some "https://evil.example.com"))
                          (Sample.inputs (Responds Sample.ok)) initial_state)))).
  { vm_compute. tauto. }
  split; [exact H |].
  destruct (errors_are_logged_before_they_are_answered Sample.hostname
              (Sample.app Server)
              (Sample.get ["api"; "orders"] (Some "https://evil.example.com"))
              (Sample.inputs (Responds Sample.ok)) initial_state H)
    as (e & rest & Hl & _).
  exists e, rest. exact Hl.
Defined.

(** What is answered when a router has raised an error. *)
Lemma handle_raised (hostname : string -> option string) (app : App)
    (rq : Request) (i : Inputs) (s : AppState) (e : JsError) :
  admitted (handle hostname app rq i s) →
  fst (fst (dispatch rq i (cache_store s))) = NextErr e →
  match send_json (error_response (conf app)
                     (Some (Uuid.randomUUID (random i))) e) with
  | Some r => response (handle hostname app rq i s) = r
  | None => response (handle hostname app rq i s) = error_page (conf app) i
  end.
Proof.
  unfold admitted, error_page.
  paths.
  all: intros Ha Hd; try (exfalso; cbn in Ha; intuition discriminate).
  all: clash; simplify_eq.
  all: reflexivity.
Qed.

(** X11.  When a router raises an error for a request that was admitted,
    the status of the response is 400 for a [ValidationError] and 401 for an
    [UnauthorizedError], whatever status the error itself declares; for any
    other error it is the status the error declares if that is a status
    from 100 to 999, and 500 when the error declares none, or zero, or a
    number that is no such status.  The label is [Validation Error],
    [Authentication Error], and [Internal Server Error] for every other
    error that is answered with a body, also for one that declares status
    404; there is no label when the declared status is one that is sent
    without a body, or none that can be sent. *)
Theorem raised_errors_are_classified_by_name
    (hostname : string -> option string) (app : App)
    (rq : Request) (i : Inputs) (s : AppState) (e : JsError) :
  admitted (handle hostname app rq i s) →
  fst (fst (dispatch rq i (cache_store s))) = NextErr e →
  statusCode (response (handle hostname app rq i s)) =
    (if String.eqb (name e) "ValidationError" then 400
     else if String.eqb (name e) "UnauthorizedError" then 401
     else match status e with
          | Some 0 | None => 500
          | Some c => if (100 <=? c) && (c <=? 999) then c else 500
          end)
  ∧ field "error" (response (handle hostname app rq i s)) =
      (if String.eqb (name e) "ValidationError"
       then Some (JString "Validation Error")
       else if String.eqb (name e) "UnauthorizedError"
       then Some (JString "Authentication Error")
       else match status e with
            | Some 0 | None => Some (JString "Internal Server Error")
            | Some c =>
                if (200 <=? c) && (c <=? 999)
                   && negb ((c =? 204) || (c =? 205) || (c =? 304))
                then Some (JString "Internal Server Error")
                else None
            end).
Proof.
  intros Ha Hd. pose proof (handle_raised hostname app rq i s e Ha Hd) as H.
  unfold send_json, valid_status, bodyless, error_response, error_page in H.
  destruct (String.eqb (name e) "ValidationError");
    [| destruct (String.eqb (name e) "UnauthorizedError")];
    cbn [statusCode Js.or_default] in H.
  - cbn in H. rewrite H. split; reflexivity.
  - cbn in H. rewrite H. split; reflexivity.
  - destruct (status e) as [[| c | c] |]; cbn [Js.or_default] in H.
    + cbn in H. rewrite H. split; reflexivity.
    + destruct (Z.leb_spec 100 (Z.pos c)), (Z.leb_spec (Z.pos c) 999),
        (Z.leb_spec 200 (Z.pos c)), (Z.ltb_spec (Z.pos c) 200),
        (Z.eqb_spec (Z.pos c) 204), (Z.eqb_spec (Z.pos c) 205),
        (Z.eqb_spec (Z.pos c) 304);
        cbn [andb orb negb] in *; try lia; rewrite H; split; reflexivity.
    + cbn in H. rewrite H. split; reflexivity.
    + cbn in H. rewrite H. split; reflexivity.
Qed.

Lemma raised_errors_are_classified_by_name_witness :
  admitted (handle Sample.hostname (Sample.app Server)
              (Sample.get ["api"; "cart"] None)
              (Sample.inputs (Throws Sample.invalid)) initial_state)
  ∧ fst (fst (dispatch (Sample.get ["api"; "cart"] None)
                (Sample.inputs (Throws Sample.invalid))
                (cache_store initial_state)))
    = NextErr Sample.invalid
  ∧ statusCode
      (response (handle Sample.hostname (Sample.app Server)
                   (Sample.get ["api"; "cart"] None)
                   (Sample.inputs (Throws Sample.invalid)) initial_state)) = 400.
Proof.
  assert (H1 : admitted (handle Sample.hostname (Sample.app Server)
              (Sample.get ["api"; "cart"] None)
              (Sample.inputs (Throws Sample.invalid)) initial_state))
    by (vm_compute; tauto).
  assert (H2 : fst (fst (dispatch (Sample.get ["api"; "cart"] None)
                (Sample.inputs (Throws Sample.invalid))
                (cache_store initial_state)))
               = NextErr Sample.invalid) by reflexivity.
  split; [exact H1 | split; [exact H2 |]].
  destruct (raised_errors_are_classified_by_name Sample.hostname
              (Sample.app Server) (Sample.get ["api"; "cart"] None)
              (Sample.inputs (Throws Sample.invalid)) initial_state
              Sample.invalid H1 H2) as [Hs _].
  exact Hs.
Defined.

(** An error that declares a status which is no HTTP status: the terminal
    handler logs it and throws, and Express answers with its own page for
    status 500, which has no identifier. *)
Example error_with_an_impossible_status :
  let res := handle Sample.hostname (Sample.app Server)
               (Sample.get ["api"; "orders"] None)
               (Sample.inputs (Throws Sample.odd)) initial_state in
  statusCode (response res) = 500
  ∧ payload (response res)
    = TextBody "RangeError [ERR_HTTP_INVALID_STATUS_CODE]: Invalid status code: -1"
  ∧ field "requestId" (response res) = None
  ∧ ended (context res) = None
  ∧ log (state res) =
      [ LogError "odd" "Error: odd" "GET" "/api/orders"
          (Some "010203ff-1011-4213-9415-161718191a1b");
        LogText LError
          "[Error] [010203ff-1011-4213-9415-161718191a1b] Error: odd" None;
        LogRequest "GET" "/api/orders" 500 7
          (Some "010203ff-1011-4213-9415-161718191a1b") ].
Proof. cbn zeta. repeat split; vm_compute; reflexivity. Qed.

Lemma error_response_message (cfg : Config) (id : option string) (e : JsError) :
  (field "message" (error_response cfg id e) = None
   ∧ field "details" (error_response cfg id e) = Some (JString (message e)))
  ∨ (field "message" (error_response cfg id e)
     = Some (JString (if production cfg then "Something went wrong"
                      else message e))
     ∧ field "details" (error_response cfg id e) = None).
Proof.
  unfold error_response.
  destruct (String.eqb (name e) "ValidationError");
    [left; destruct id; split; reflexivity |].
  destruct (String.eqb (name e) "UnauthorizedError");
    [left; destruct id; split; reflexivity |].
  right. destruct id; split; reflexivity.
Qed.

(** X12.  In production mode no response of the terminal error handler
    carries an error's own text in its [message] field: the field is either
    absent or holds [Something went wrong]. *)
Theorem production_hides_the_message
    (hostname : string -> option string) (app : App)
    (rq : Request) (i : Inputs) (s : AppState) :
  production (conf app) = true →
  In ErrorHandler (visited (context (handle hostname app rq i s))) →
  ∀ v, field "message" (response (handle hostname app rq i s)) = Some v →
       v = JString "Something went wrong".
Proof.
  intros Hp Hin v Hv.
  destruct (handle_log hostname app rq i s) as [Herr _].
  destruct (Herr Hin) as (e & _ & _ & Hsend).
  destruct (send_json _) as [r |] eqn:Hs.
  - destruct Hsend as [Hr _]. rewrite Hr in Hv.
    apply send_json_cases in Hs as (_ & _ & Hkeep & Hdrop).
    destruct (bodyless (statusCode (error_response (conf app)
                (req_id (context (handle hostname app rq i s))) e))).
    + unfold field in Hv. rewrite (Hdrop eq_refl) in Hv. discriminate.
    + rewrite (Hkeep eq_refl) in Hv.
      destruct (error_response_message (conf app)
                  (req_id (context (handle hostname app rq i s))) e)
        as [[Hm _] | [Hm _]]; rewrite Hm in Hv.
      * discriminate.
      * rewrite Hp in Hv. congruence.
  - destruct Hsend as [Hr _]. rewrite Hr in Hv. discriminate.
Qed.

Lemma production_hides_the_message_witness :
  production (conf Sample.production_app) = true
  ∧ In ErrorHandler
       (visited (context (handle Sample.hostname Sample.production_app
                            (Sample.get ["api"; "orders"] None)
                            (Sample.inputs (Throws Sample.not_found))
                            initial_state)))
  ∧ ∀ v, field "message"
           (response (handle Sample.hostname Sample.production_app
                        (Sample.get ["api"; "orders"] None)
                        (Sample.inputs (Throws Sample.not_found)) initial_state))
         = Some v → v = JString "Something went wrong".
Proof.
  assert (H1 : production (conf Sample.production_app) = true)
    by (vm_compute; reflexivity).
  assert (H2 : In ErrorHandler
       (visited (context (handle Sample.hostname Sample.production_app
                            (Sample.get ["api"; "orders"] None)
                            (Sample.inputs (Throws Sample.not_found))
                            initial_state)))) by (vm_compute; tauto).
  split; [exact H1 | split; [exact H2 |]].
  exact (production_hides_the_message Sample.hostname Sample.production_app
           (Sample.get ["api"; "orders"] None)
           (Sample.inputs (Throws Sample.not_found)) initial_state H1 H2).
Defined.

(** In production the handler-declared not-found error is answered with its
    own status and the general message. *)
Example not_found_in_production :
  let res := handle Sample.hostname Sample.production_app
               (Sample.get ["api"; "orders"] None)
               (Sample.inputs (Throws Sample.not_found)) initial_state in
  statusCode (response res) = 404
  ∧ field "error" (response res) = Some (JString "Internal Server Error")
  ∧ field "message" (response res) = Some (JString "Something went wrong").
Proof. cbn zeta. repeat split; vm_compute; reflexivity. Qed.

(** ** Shutdown in every configuration *)

Module ShutdownMore.
Import Shutdown ShutdownFacts.

Lemma run_cons (p : Proc) (ev : Event) (evs : list Event) :
  run p (ev :: evs) = run (step p ev) evs.
Proof. reflexivity. Qed.

Lemma run_exited (evs : list Event) :
  ∀ p c, exited p = Some c → run p evs = p.
Proof.
  induction evs as [| ev evs IH]; intros p c H; [reflexivity |].
  rewrite run_cons. unfold step at 1. rewrite H. now apply (IH p c).
Qed.

(** The three ways an invocation can start. *)
Lemma signal_cases (p : Proc) :
  (tasks (signal p) = tasks p ++ [AwaitQuit]
   ∧ exited (signal p) = exited p
   ∧ readyState (signal p) = readyState p
   ∧ useRedis p = true ∧ is_Some (redisClient p))
  ∨ (tasks (signal p) = tasks p ++ [AwaitClose]
     ∧ exited (signal p) = exited p
     ∧ readyState p ≠ 0)
  ∨ (exited (signal p) = Some 0 ∧ readyState p = 0).
Proof.
  destruct p as [u c rs ts es ex].
  unfold signal, store_phase, set_task, set_readyState, emit, exit.
  cbn [useRedis redisClient readyState tasks effects exited].
  destruct c as [c |], u; cbn [negb].
  - left. rewrite insert_new_task. repeat split; eauto.
  - destruct (Z.eqb_spec rs 0) as [-> | Hne]; cbn [negb].
    + right; right. split; reflexivity.
    + right; left. rewrite insert_new_task. repeat split; assumption.
  - destruct (Z.eqb_spec rs 0) as [-> | Hne]; cbn [negb].
    + right; right. split; reflexivity.
    + right; left. rewrite insert_new_task. repeat split; assumption.
  - destruct (Z.eqb_spec rs 0) as [-> | Hne]; cbn [negb].
    + right; right. split; reflexivity.
    + right; left. rewrite insert_new_task. repeat split; assumption.
Qed.

(** What settling the awaited [quit] leads to. *)
Lemma settle_quit_cases (p : Proc) (t : nat) (r : Settled) :
  tasks p !! t = Some AwaitQuit →
  (tasks (settle t r p) = <[t := AwaitClose]> (tasks p)
   ∧ exited (settle t r p) = exited p)
  ∨ exited (settle t r p) = Some 0.
Proof.
  intros Ht. unfold settle. rewrite Ht.
  destruct p as [u c rs ts es ex].
  destruct r; unfold store_phase, set_task, set_readyState, emit, exit, set_redis;
    cbn [useRedis redisClient readyState tasks effects exited];
    destruct (negb (rs =? 0));
    cbn [useRedis redisClient readyState tasks effects exited]; auto.
Qed.

Lemma settle_close_exits (p : Proc) (t : nat) (r : Settled) :
  tasks p !! t = Some AwaitClose →
  exited (settle t r p) = Some (match r with Fulfilled => 0 | Rejected _ => 1 end).
Proof. intros Ht. rewrite (settle_close p t r Ht). reflexivity. Qed.

End ShutdownMore.

(** X13.  A shutdown always ends the process.  In a process that has not
    exited, whatever its configuration and whatever else is in progress,
    once the signal has arrived and the promises that its invocation awaits
    ([quit], then [close], where they are called) have settled, in whatever
    way, the process has exited, with status 0 or 1. *)
Theorem shutdown_always_exits (p : Shutdown.Proc) (first second : Settled) :
  Shutdown.exited p = None →
  let t := length (Shutdown.tasks p) in
  let final := Shutdown.run p
                 [Shutdown.Signal; Shutdown.Settle t first;
                  Shutdown.Settle t second] in
  Shutdown.exited final = Some 0 ∨ Shutdown.exited final = Some 1.
Proof.
  intros He t final. subst final.
  rewrite ShutdownMore.run_cons, (ShutdownFacts.step_signal p He).
  assert (Hdone : ∀ q evs, Shutdown.exited q = Some 0 ∨ Shutdown.exited q = Some 1 →
            Shutdown.exited (Shutdown.run q evs) = Some 0
            ∨ Shutdown.exited (Shutdown.run q evs) = Some 1).
  { intros q evs [H | H]; rewrite (ShutdownMore.run_exited evs q _ H); auto. }
  destruct (ShutdownMore.signal_cases p) as
    [(Ht & Hx & _) | [(Ht & Hx & _) | [Hx _]]].
  - (* the invocation waits for quit *)
    rewrite He in Hx.
    rewrite ShutdownMore.run_cons, (ShutdownFacts.step_settle _ _ _ Hx).
    assert (Hl : Shutdown.tasks (Shutdown.signal p) !! t = Some Shutdown.AwaitQuit).
    { rewrite Ht. now apply list_lookup_middle. }
    destruct (ShutdownMore.settle_quit_cases _ t first Hl) as [[Ht2 Hx2] | Hx2].
    + rewrite Hx in Hx2.
      rewrite ShutdownMore.run_cons, (ShutdownFacts.step_settle _ _ _ Hx2).
      cbn [Shutdown.run fold_left]. 
      rewrite ShutdownMore.settle_close_exits.
      * destruct second; auto.
      * rewrite Ht2. apply list_lookup_insert_eq.
        rewrite Ht, length_app. cbn. subst t. lia.
    + apply Hdone. auto.
  - (* the invocation waits for close *)
    rewrite He in Hx.
    rewrite ShutdownMore.run_cons, (ShutdownFacts.step_settle _ _ _ Hx).
    apply Hdone. rewrite ShutdownMore.settle_close_exits.
    + destruct first; auto.
    + rewrite Ht. now apply list_lookup_middle.
  - apply Hdone. auto.
Qed.

Lemma shutdown_always_exits_witness :
  Shutdown.exited Sample.process_without_store = None
  ∧ (Shutdown.exited
       (Shutdown.run Sample.process_without_store
          [Shutdown.Signal; Shutdown.Settle 0 (Rejected "Socket closed");
           Shutdown.Settle 0 Fulfilled]) = Some 0
     ∨ Shutdown.exited
         (Shutdown.run Sample.process_without_store
            [Shutdown.Signal; Shutdown.Settle 0 (Rejected "Socket closed");
             Shutdown.Settle 0 Fulfilled]) = Some 1).
Proof.
  split; [reflexivity |].
  exact (shutdown_always_exits Sample.process_without_store
           (Rejected "Socket closed") Fulfilled eq_refl).
Defined.

Module ShutdownInvariants.
Import Shutdown ShutdownFacts ShutdownMore.

Lemma step_exit_explained (p : Proc) (ev : Event) :
  exit_explained p → exit_explained (step p ev).
Proof.
  unfold exit_explained, step.
  destruct (exited p) as [code |] eqn:He; [now rewrite He |].
  intros _. destruct p as [u c rs ts es ex]. cbn in He. subst ex.
  destruct ev as [| t r].
  - unfold signal, store_phase, set_task, set_readyState, emit, exit.
    cbn [useRedis redisClient readyState tasks effects exited].
    destruct c as [cl |], u, (negb (rs =? 0));
      cbn [useRedis redisClient readyState tasks effects exited]; auto.
  - unfold settle. cbn [tasks].
    destruct (ts !! t) as [[| |] |];
      cbn [useRedis redisClient readyState tasks effects exited]; auto.
    + destruct r; unfold store_phase, set_task, set_readyState, emit, exit,
        set_redis;
        cbn [useRedis redisClient readyState tasks effects exited];
        destruct (negb (rs =? 0));
        cbn [useRedis redisClient readyState tasks effects exited]; auto.
    + destruct r as [| e]; unfold set_task, set_readyState, emit, exit;
        cbn [useRedis redisClient readyState tasks effects exited]; auto.
      right. split; [reflexivity |]. exists e.
      unfold shutdown_failure. rewrite !in_app_iff. cbn. auto.
Qed.

Lemma run_exit_explained (evs : list Event) :
  ∀ p, exit_explained p → exit_explained (run p evs).
Proof.
  induction evs as [| ev evs IH]; intros p H; [exact H |].
  rewrite run_cons. apply IH, step_exit_explained, H.
Qed.

Lemma step_cache_off (p : Proc) (ev : Event) :
  cache_off p →
  cache_off (step p ev)
  ∧ quit_calls (effects (step p ev)) = quit_calls (effects p).
Proof.
  unfold cache_off, step. intros [Hoff Hts].
  destruct (exited p) as [code |] eqn:He; [repeat split; auto |].
  destruct p as [u c rs ts es ex]. cbn in He, Hoff, Hts. subst ex.
  assert (Hnew : ∀ a, a ≠ AwaitQuit →
            Forall (fun a => a ≠ AwaitQuit)
                   (<[length ts := a]> (ts ++ [Returned]))).
  { intros a Ha. rewrite insert_new_task. apply Forall_app. split; [exact Hts |].
    constructor; [exact Ha | constructor]. }
  assert (Hset : ∀ t a, a ≠ AwaitQuit →
            Forall (fun a => a ≠ AwaitQuit) (<[t := a]> ts)).
  { intros t a Ha. apply Forall_insert; assumption. }
  destruct ev as [| t r].
  - unfold signal, store_phase, set_task, set_readyState, emit, exit.
    cbn [useRedis redisClient readyState tasks effects exited].
    destruct c as [cl |], u; try (destruct Hoff; discriminate);
      destruct (negb (rs =? 0));
      cbn [useRedis redisClient readyState tasks effects exited];
      (split; [split; [auto | apply Hnew; discriminate] |]);
      unfold quit_calls; rewrite ?List.filter_app; cbn;
      rewrite ?app_nil_r; reflexivity.
  - unfold settle. cbn [tasks].
    destruct (ts !! t) as [[| |] |] eqn:Ht;
      cbn [useRedis redisClient readyState tasks effects exited]; auto.
    + exfalso. apply (Forall_lookup_1 _ _ _ _ Hts Ht). reflexivity.
    + destruct r; unfold set_task, set_readyState, emit, exit;
        cbn [useRedis redisClient readyState tasks effects exited];
        (split; [split; [auto | apply Hset; discriminate] |]);
        unfold quit_calls; rewrite ?List.filter_app; cbn;
        rewrite ?app_nil_r; reflexivity.
Qed.

Lemma run_cache_off (evs : list Event) :
  ∀ p, cache_off p →
       quit_calls (effects (run p evs)) = quit_calls (effects p).
Proof.
  induction evs as [| ev evs IH]; intros p H; [reflexivity |].
  rewrite run_cons. destruct (step_cache_off p ev H) as [H' Hq].
  rewrite (IH _ H'). exact Hq.
Qed.

Lemma step_store_off (p : Proc) (ev : Event) :
  store_off p →
  store_off (step p ev)
  ∧ close_calls (effects (step p ev)) = close_calls (effects p)
  ∧ (exited p ≠ Some 1 → exited (step p ev) ≠ Some 1).
Proof.
  unfold store_off, step. intros [Hrs Hts].
  destruct (exited p) as [code |] eqn:He;
    [split; [split; assumption | split; [reflexivity | rewrite He; tauto]] |].
  destruct p as [u c rs ts es ex]. cbn in He, Hrs, Hts. subst ex rs.
  assert (Hnew : ∀ a, a ≠ AwaitClose →
            Forall (fun a => a ≠ AwaitClose)
                   (<[length ts := a]> (ts ++ [Returned]))).
  { intros a Ha. rewrite insert_new_task. apply Forall_app. split; [exact Hts |].
    constructor; [exact Ha | constructor]. }
  assert (Hset : ∀ t a, a ≠ AwaitClose →
            Forall (fun a => a ≠ AwaitClose) (<[t := a]> ts)).
  { intros t a Ha. apply Forall_insert; assumption. }
  destruct ev as [| t r].
  - unfold signal, store_phase, set_task, set_readyState, emit, exit.
    cbn [useRedis redisClient readyState tasks effects exited].
    destruct c as [cl |], u;
      cbn [useRedis redisClient readyState tasks effects exited negb Z.eqb];
      (split; [split; [reflexivity | apply Hnew; discriminate] |]);
      (split; [| intros _; discriminate]);
      unfold close_calls; rewrite ?List.filter_app; cbn;
      rewrite ?app_nil_r; reflexivity.
  - unfold settle. cbn [tasks].
    destruct (ts !! t) as [[| |] |] eqn:Ht;
      cbn [useRedis redisClient readyState tasks effects exited]; auto.
    + destruct r; unfold store_phase, set_task, set_readyState, emit, exit,
        set_redis;
        cbn [useRedis redisClient readyState tasks effects exited negb Z.eqb];
        (split; [split; [reflexivity | apply Hset; discriminate] |]);
        (split; [| intros _; discriminate]);
        unfold close_calls; rewrite ?List.filter_app; cbn;
        rewrite ?app_nil_r; reflexivity.
    + exfalso. apply (Forall_lookup_1 _ _ _ _ Hts Ht). reflexivity.
Qed.

Lemma run_store_off (evs : list Event) :
  ∀ p, store_off p → exited p ≠ Some 1 →
       close_calls (effects (run p evs)) = close_calls (effects p)
       ∧ exited (run p evs) ≠ Some 1.
Proof.
  induction evs as [| ev evs IH]; intros p H Hx; [auto |].
  rewrite run_cons. destruct (step_store_off p ev H) as (H' & Hq & Hx').
  destruct (IH _ H' (Hx' Hx)) as [Hc Hn]. rewrite Hc. auto.
Qed.

End ShutdownInvariants.

(** X14.  Whatever signals arrive and however the awaited promises settle,
    a process that was running exits, if it does, with status 0 or 1, and
    with status 1 only after the failure of the close sequence has been
    logged as [Error during shutdown:]. *)
Theorem exit_status_is_explained
    (p : Shutdown.Proc) (evs : list Shutdown.Event) (code : Z) :
  Shutdown.exited p = None →
  Shutdown.exited (Shutdown.run p evs) = Some code →
  code = 0
  ∨ (code = 1
     ∧ ∃ e, In (shutdown_failure e) (Shutdown.effects (Shutdown.run p evs))).
Proof.
  intros He Hc.
  assert (H : exit_explained (Shutdown.run p evs)).
  { apply ShutdownInvariants.run_exit_explained.
    unfold exit_explained. now rewrite He. }
  unfold exit_explained in H. now rewrite Hc in H.
Qed.

Lemma exit_status_is_explained_witness :
  Shutdown.exited Sample.process = None
  ∧ Shutdown.exited
      (Shutdown.run Sample.process
         [Shutdown.Signal; Shutdown.Settle 0 Fulfilled;
          Shutdown.Settle 0 (Rejected "connection lost")]) = Some 1
  ∧ (1 = 0
     ∨ (1 = 1
        ∧ ∃ e, In (shutdown_failure e)
                  (Shutdown.effects
                     (Shutdown.run Sample.process
                        [Shutdown.Signal; Shutdown.Settle 0 Fulfilled;
                         Shutdown.Settle 0 (Rejected "connection lost")])))).
Proof.
  split; [reflexivity | split; [reflexivity |]].
  exact (exit_status_is_explained Sample.process
           [Shutdown.Signal; Shutdown.Settle 0 Fulfilled;
            Shutdown.Settle 0 (Rejected "connection lost")] 1
           eq_refl eq_refl).
Defined.

(** X15.  With the external cache switched off ([USE_REDIS] is not [true],
    or there is no client) and no invocation waiting for the cache's [quit]
    to begin with, no signal and no settled promise ever makes the process
    call [quit]. *)
Theorem quit_only_with_cache
    (p : Shutdown.Proc) (evs : list Shutdown.Event) :
  Shutdown.useRedis p = false ∨ Shutdown.redisClient p = None →
  Forall (fun a => a ≠ Shutdown.AwaitQuit) (Shutdown.tasks p) →
  quit_calls (Shutdown.effects (Shutdown.run p evs))
  = quit_calls (Shutdown.effects p).
Proof.
  intros Hoff Hts. apply ShutdownInvariants.run_cache_off. split; assumption.
Qed.

Lemma quit_only_with_cache_witness :
  (Shutdown.useRedis Sample.process_without_cache = false
   ∨ Shutdown.redisClient Sample.process_without_cache = None)
  ∧ quit_calls
      (Shutdown.effects
         (Shutdown.run Sample.process_without_cache
            [Shutdown.Signal; Shutdown.Signal; Shutdown.Settle 0 Fulfilled]))
    = quit_calls (Shutdown.effects Sample.process_without_cache).
Proof.
  assert (H : Shutdown.useRedis Sample.process_without_cache = false
              ∨ Shutdown.redisClient Sample.process_without_cache = None)
    by (left; reflexivity).
  split; [exact H |].
  exact (quit_only_with_cache Sample.process_without_cache
           [Shutdown.Signal; Shutdown.Signal; Shutdown.Settle 0 Fulfilled]
           H (List.Forall_nil _)).
Defined.

(** X16.  While the store connection is disconnected ([readyState] is 0),
    in a running process where no invocation waits for the store's [close]
    to begin with, no signal and no settled promise ever makes the process
    call [close], and the process never exits with status 1: a failure of
    the cache's [quit] alone does not make the shutdown fail. *)
Theorem close_only_when_connected
    (p : Shutdown.Proc) (evs : list Shutdown.Event) :
  Shutdown.readyState p = 0 →
  Forall (fun a => a ≠ Shutdown.AwaitClose) (Shutdown.tasks p) →
  Shutdown.exited p = None →
  close_calls (Shutdown.effects (Shutdown.run p evs))
  = close_calls (Shutdown.effects p)
  ∧ Shutdown.exited (Shutdown.run p evs) ≠ Some 1.
Proof.
  intros Hrs Hts He. apply ShutdownInvariants.run_store_off.
  - split; assumption.
  - rewrite He. discriminate.
Qed.

Lemma close_only_when_connected_witness :
  Shutdown.readyState Sample.process_without_store = 0
  ∧ Shutdown.exited Sample.process_without_store = None
  ∧ Shutdown.exited
      (Shutdown.run Sample.process_without_store
         [Shutdown.Signal; Shutdown.Settle 0 (Rejected "Socket closed")])
    ≠ Some 1.
Proof.
  split; [reflexivity | split; [reflexivity |]].
  exact (proj2 (close_only_when_connected Sample.process_without_store
                  [Shutdown.Signal; Shutdown.Settle 0 (Rejected "Socket closed")]
                  eq_refl (List.Forall_nil _) eq_refl)).
Defined.

Example shutdown_without_store :
  Shutdown.effects
    (Shutdown.run Sample.process_without_store
       [Shutdown.Signal; Shutdown.Settle 0 (Rejected "Socket closed")])
  = [ Shutdown.info "Received shutdown signal, starting graceful shutdown...";
      Shutdown.RedisQuit;
      Shutdown.Logged (LogText LWarn "Redis quit error (ignored):"
                                     (Some "Socket closed"));
      Shutdown.ProcessExit 0 ].
Proof. reflexivity. Qed.

(** ** Connections at startup *)

(** X17.  The initialisation of the cache connection is best effort: it
    never throws; it only adds to the log; and afterwards the client is
    connected exactly when it was connected before, or the cache is
    enabled and the attempt to connect succeeded.  So the module load never
    ends in an unhandled rejection because of the cache: it does so only
    in the serverless variant, when the store was disconnected and the
    attempt to connect to it failed, and then with the reason of that
    failure. *)
Theorem cache_initialisation_is_best_effort
    (cfg : Config) (client : option RedisClient) (connect : Settled)
    (lg : list LogRecord) :
  (∃ client' new,
     redis_init cfg client connect lg = (inl client', lg ++ new)
     ∧ is_open client'
       = (is_open client
          || (use_redis cfg && bool_decide (is_Some client)
              && is_fulfilled connect)))
  ∧ (∀ v file env readyState store store_first reason lg',
       boot v file env client connect readyState store store_first
       = Crashed reason lg' →
       v = Serverless ∧ readyState = 0 ∧ store = Rejected reason).
Proof.
  assert (H : ∀ cfg lg, ∃ client' new,
     redis_init cfg client connect lg = (inl client', lg ++ new)
     ∧ is_open client'
       = (is_open client
          || (use_redis cfg && bool_decide (is_Some client)
              && is_fulfilled connect))).
  { clear cfg lg. intros cfg lg. unfold redis_init.
    destruct client as [c |]; [destruct (use_redis cfg) |].
    - unfold Task.try_catch. destruct c as [[|]]; cbn.
      + exists (Some {| isOpen := true |}), []. now rewrite app_nil_r.
      + destruct connect; cbn.
        * eexists (Some {| isOpen := true |}), _. split; reflexivity.
        * eexists (Some {| isOpen := false |}), _.
          rewrite <- app_assoc. split; reflexivity.
    - cbn. eexists (Some c), _. split; [reflexivity |].
      cbn. now rewrite orb_false_r.
    - cbn. eexists None, _. split; [reflexivity |].
      cbn. now rewrite andb_false_r. }
  split; [apply H |].
  intros v file env readyState store store_first reason lg'. unfold boot.
  destruct (load_app v file env) as [| | a]; try discriminate.
  assert (Hdb : ∀ lg0 e lg1,
            Store.connect v readyState store lg0 = (inr e, lg1) →
            v = Serverless ∧ readyState = 0 ∧ store = Rejected e).
  { intros lg0 e lg1. unfold Store.connect.
    destruct (Z.eqb_spec readyState 0) as [-> | Hne]; [| discriminate].
    destruct store as [| e'], v; cbn; intros [= <- <-]; auto. }
  destruct (store_first && cache_awaits (conf a) client).
  - unfold Task.bind.
    destruct (Store.connect v readyState store []) as [[[] | e] lg0] eqn:Hc.
    + destruct (H (conf a) lg0) as (c' & new & Hr & _). rewrite Hr. discriminate.
    + intros [= <- <-]. exact (Hdb _ _ _ Hc).
  - unfold Task.bind.
    destruct (H (conf a) []) as (c' & new & Hr & _). rewrite Hr.
    destruct (Store.connect v readyState store ([] ++ new))
      as [[[] | e] lg0] eqn:Hc.
    + discriminate.
    + intros [= <- <-]. exact (Hdb _ _ _ Hc).
Qed.

(** The serverless variant when the store cannot be reached: the failure
    is logged and the rejection, which nothing handles, ends the process;
    the server variant logs it and serves. *)
Example store_outage_by_variant :
  boot Serverless ∅ Sample.env None Fulfilled 0
       (Rejected "connect ECONNREFUSED 127.0.0.1:27017") false
  = Crashed "connect ECONNREFUSED 127.0.0.1:27017"
      [ LogText LInfo "Running with in-memory cache (Redis disabled)" None;
        LogText LError "❌ Error connecting to MongoDB:"
          (Some "connect ECONNREFUSED 127.0.0.1:27017") ]
  ∧ ∃ a, boot Server ∅ Sample.env None Fulfilled 0
              (Rejected "connect ECONNREFUSED 127.0.0.1:27017") false
         = Serving a None
             [ LogText LInfo "Running with in-memory cache (Redis disabled)" None;
               LogText LError "❌ Error connecting to MongoDB:"
                 (Some "connect ECONNREFUSED 127.0.0.1:27017") ].
Proof. split; [| eexists]; vm_compute; reflexivity. Qed.

(** X18.  No connection to the cache is attempted when the cache is
    switched off, when there is no client, or when the client is connected
    already: what the initialisation does is then the same however an
    attempt would have ended.  With the cache switched off it logs that the
    in-memory cache is used; with a connected client it logs nothing. *)
Theorem no_needless_cache_connection
    (cfg : Config) (client : option RedisClient) (lg : list LogRecord) :
  use_redis cfg = false ∨ client = None ∨ is_open client = true →
  (∀ c1 c2, redis_init cfg client c1 lg = redis_init cfg client c2 lg)
  ∧ ∀ c, redis_init cfg client c lg
         = (inl client,
            if use_redis cfg && bool_decide (is_Some client)
            then lg
            else lg ++ [LogText LInfo
                          "Running with in-memory cache (Redis disabled)" None]).
Proof.
  intros H.
  assert (Hc : ∀ c, redis_init cfg client c lg
         = (inl client,
            if use_redis cfg && bool_decide (is_Some client)
            then lg
            else lg ++ [LogText LInfo
                          "Running with in-memory cache (Redis disabled)" None])).
  { intros c. unfold redis_init.
    destruct client as [[[|]] |]; cbn in H.
    - destruct (use_redis cfg); reflexivity.
    - destruct (use_redis cfg).
      + destruct H as [H | [H | H]]; discriminate.
      + reflexivity.
    - destruct (use_redis cfg); reflexivity. }
  split; [| exact Hc].
  intros c1 c2. now rewrite (Hc c1), (Hc c2).
Qed.

Lemma no_needless_cache_connection_witness :
  (use_redis (config_of_env Sample.env) = false
   ∨ Some {| isOpen := true |} = None
   ∨ is_open (Some {| isOpen := true |}) = true)
  ∧ redis_init (config_of_env Sample.env) (Some {| isOpen := true |})
      (Rejected "connect ECONNREFUSED") []
    = redis_init (config_of_env Sample.env) (Some {| isOpen := true |})
        Fulfilled [].
Proof.
  assert (H : use_redis (config_of_env Sample.env) = false
              ∨ Some {| isOpen := true |} = None
              ∨ is_open (Some {| isOpen := true |}) = true)
    by (right; right; reflexivity).
  split; [exact H |].
  exact (proj1 (no_needless_cache_connection (config_of_env Sample.env)
                  (Some {| isOpen := true |}) [] H)
               (Rejected "connect ECONNREFUSED") Fulfilled).
Defined.

(** X19.  The two variants differ in what a failed connection to the store
    does at startup: both log it, the server variant then carries on, the
    serverless variant raises the error again.  So the connection attempt
    ends in an error exactly in the serverless variant, when the connection
    was disconnected and the attempt failed, and with the reason of that
    failure.  While the connection is not disconnected nothing is attempted
    and nothing is logged. *)
Theorem store_connection_failure_by_variant
    (v : Variant) (readyState : Z) (outcome : Settled) (lg : list LogRecord) :
  (∀ e, fst (Store.connect v readyState outcome lg) = inr e
        ↔ v = Serverless ∧ readyState = 0 ∧ outcome = Rejected e)
  ∧ (∀ e, readyState = 0 → outcome = Rejected e →
          snd (Store.connect v readyState outcome lg)
          = lg ++ [LogText LError "❌ Error connecting to MongoDB:" (Some e)])
  ∧ (readyState = 0 → outcome = Fulfilled →
     Store.connect v readyState outcome lg
     = (inl tt, lg ++ [LogText LInfo "✅ Successfully connected to MongoDB" None]))
  ∧ (readyState ≠ 0 → Store.connect v readyState outcome lg = (inl tt, lg)).
Proof.
  unfold Store.connect.
  destruct (Z.eqb_spec readyState 0) as [-> | Hne].
  - destruct outcome as [| e'], v; cbn; repeat split;
      try (intros; discriminate); try congruence;
      try (intros (? & ? & ?); congruence).
  - cbn. repeat split; try (intros; discriminate); try congruence;
      intros (? & ? & ?); congruence.
Qed.

Lemma log_two (l : list LogRecord) (a b : LogRecord) :
  (l ++ [a]) ++ [b] = l ++ [a; b].
Proof. now rewrite <- app_assoc. Qed.

(** X20.  The maintenance of the indexes never raises an error: a failure
    of either of its two steps is logged and swallowed, and the success is
    logged only when both steps succeeded.  Since the listener is
    registered with [once], however often the connection opens the
    maintenance runs at most once, and exactly once when the listener was
    still registered and the connection opened at all. *)
Theorem index_maintenance_runs_once
    (v : Variant) (armed : bool) (events : list (Settled * Settled))
    (lg : list LogRecord) :
  (∀ model drop,
     ∃ new, Store.on_open v model drop lg = (inl tt, lg ++ new)
            ∧ (In (LogText LInfo
                     "Successfully dropped all indexes from cart collection" None)
                  new
               ↔ model = Fulfilled ∧ drop = Fulfilled)
            ∧ length (List.filter Store.about_indexes new) = 1%nat)
  ∧ ∃ new,
      Store.open_events v armed events lg
      = (inl (match events with [] => armed | _ => false end), lg ++ new)
      ∧ length (List.filter Store.about_indexes new)
        = (if armed then match events with [] => 0 | _ => 1 end else 0)%nat.
Proof.
  assert (Hopen : ∀ lg model drop,
     ∃ new, Store.on_open v model drop lg = (inl tt, lg ++ new)
            ∧ (In (LogText LInfo
                     "Successfully dropped all indexes from cart collection" None)
                  new
               ↔ model = Fulfilled ∧ drop = Fulfilled)
            ∧ length (List.filter Store.about_indexes new) = 1%nat).
  { intros lg0 model drop. unfold Store.on_open.
    destruct v, model as [| e1], drop as [| e2];
      unfold Store.await, Task.try_catch, Task.bind, Task.say, Task.ret,
        Task.throw; cbn;
      eexists;
      (split; [first [reflexivity | rewrite log_two; reflexivity] |]);
      (split; [| reflexivity]); cbn; split;
      try (intros [? ?]; discriminate); intuition discriminate. }
  split; [apply Hopen |].
  assert (Hoff : ∀ evs lg0,
            Store.open_events v false evs lg0 = (inl false, lg0)).
  { induction evs as [| [m d] evs IH]; intros lg0; [reflexivity |].
    cbn [Store.open_events]. apply IH. }
  destruct events as [| [model drop] rest].
  - exists []. rewrite app_nil_r. destruct armed; split; reflexivity.
  - destruct armed.
    + cbn [Store.open_events]. unfold Task.bind.
      destruct (Hopen lg model drop) as (new & Hn & _ & Hlen).
      rewrite Hn, Hoff. exists new. split; [reflexivity | exact Hlen].
    + cbn [Store.open_events]. rewrite Hoff. exists [].
      rewrite app_nil_r. split; reflexivity.
Qed.

(** ** Where the log records go *)

Lemma filter_all {A} (f : A → bool) (l : list A) :
  (∀ x, f x = true) → List.filter f l = l.
Proof.
  intros H. induction l as [| x l IH]; [reflexivity |].
  cbn. now rewrite H, IH.
Qed.

Lemma filter_none {A} (f : A → bool) (l : list A) :
  (∀ x, f x = false) → List.filter f l = [].
Proof.
  intros H. induction l as [| x l IH]; [reflexivity |].
  cbn. now rewrite H, IH.
Qed.

Lemma filter_same {A} (f g : A → bool) (l : list A) :
  (∀ x, f x = g x) → List.filter f l = List.filter g l.
Proof.
  intros H. induction l as [| x l IH]; [reflexivity |].
  cbn. now rewrite H, IH.
Qed.

Lemma accepts_any (l : Level) :
  Winston.accepts {| Winston.sink := Winston.Console; Winston.level := None |} l
  = true.
Proof. destruct l; reflexivity. Qed.

Lemma records_reach_their_transports_aux (env : gmap string string) :
  env !! "ENABLE_FILE_LOGS" = Some "true" →
  ∀ lg, Winston.written env (Winston.File "logs/error.log") lg
        = List.filter
            (fun r => match Winston.level_of r with LError => true | _ => false end)
            lg.
Proof.
  intros He lg. unfold Winston.written, Winston.transports.
  rewrite He. cbn [Js.strict_eq]. rewrite String.eqb_refl.
  apply filter_same. intros r. cbn.
  destruct (Winston.level_of r); reflexivity.
Qed.

(** X21.  Every record that is logged goes to the console, whatever the
    environment.  Files are written only when [ENABLE_FILE_LOGS] is exactly
    [true]: then [logs/combined.log] receives every record and
    [logs/error.log] receives the records logged at the level [error] and
    no others, in the order they were logged; otherwise no file receives
    anything. *)
Theorem records_reach_their_transports
    (env : gmap string string) (lg : list LogRecord) :
  Winston.written env Winston.Console lg = lg
  ∧ (env !! "ENABLE_FILE_LOGS" = Some "true" →
     Winston.written env (Winston.File "logs/combined.log") lg = lg
     ∧ Winston.written env (Winston.File "logs/error.log") lg
       = List.filter
           (fun r => match Winston.level_of r with LError => true | _ => false end)
           lg)
  ∧ (env !! "ENABLE_FILE_LOGS" ≠ Some "true" →
     ∀ f, Winston.written env (Winston.File f) lg = []).
Proof.
  unfold Winston.written, Winston.transports.
  split; [| split].
  - apply filter_all. intros r. cbn [existsb Winston.sink Winston.sink_eqb andb].
    now rewrite accepts_any.
  - intros ->. cbn [Js.strict_eq]. rewrite String.eqb_refl. split.
    + apply filter_all. intros r. cbn. destruct (Winston.level_of r); reflexivity.
    + apply filter_same. intros r. cbn.
      destruct (Winston.level_of r); reflexivity.
  - intros Hne f.
    assert (Hs : Js.strict_eq (env !! "ENABLE_FILE_LOGS") "true" = false).
    { destruct (env !! "ENABLE_FILE_LOGS") as [x |]; [| reflexivity].
      cbn. apply String.eqb_neq. congruence. }
    rewrite Hs. apply filter_none. intros r. reflexivity.
Qed.

(** X22.  Of what one request adds to the log, the completion record is
    logged at the level [info] and so never reaches [logs/error.log], while
    the two records of the error layers are logged at the level [error]:
    with file logging enabled, the error file gains exactly those two
    records, both for the same error, whenever the terminal error handler
    has run (also when it could not send its answer and Express answered
    in its place, with status 500), and nothing for any other request. *)
Theorem error_file_gains_the_error_records
    (hostname : string -> option string) (app : App)
    (rq : Request) (i : Inputs) (s : AppState) (env : gmap string string) :
  env !! "ENABLE_FILE_LOGS" = Some "true" →
  ∃ new,
    Winston.written env (Winston.File "logs/error.log")
      (log (state (handle hostname app rq i s)))
    = Winston.written env (Winston.File "logs/error.log") (log s) ++ new
    ∧ (In ErrorHandler (visited (context (handle hostname app rq i s))) →
       ∃ e,
         new = [ LogError (message e) (stack e) (method_name (method rq))
                   (url rq) (req_id (context (handle hostname app rq i s)));
                 LogText LError
                   ("[Error] ["
                    ++ Js.template
                         (req_id (context (handle hostname app rq i s)))
                    ++ "] " ++ stack e)%string
                   None ]
         ∧ let sent := error_response (conf app)
                         (req_id (context (handle hostname app rq i s))) e in
           statusCode (response (handle hostname app rq i s))
           = if (100 <=? statusCode sent) && (statusCode sent <=? 999)
             then statusCode sent else 500)
    ∧ (¬ In ErrorHandler (visited (context (handle hostname app rq i s))) →
       new = []).
Proof.
  intros He.
  pose proof (records_reach_their_transports_aux env He) as Hw.
  destruct (handle_log hostname app rq i s) as [Herr Hok].
  cbn zeta in Herr, Hok.
  destruct (in_dec Stage_eq_dec ErrorHandler
              (visited (context (handle hostname app rq i s)))) as [Hin | Hout].
  - destruct (Herr Hin) as (e & Hl & _ & Hsend).
    rewrite Hl, !Hw, !List.filter_app.
    eexists. split; [reflexivity |]. split; [| contradiction].
    intros _. exists e. split.
    + destruct (reaches_context hostname app rq); reflexivity.
    + cbn zeta. unfold send_json, valid_status in Hsend.
      destruct ((100 <=? statusCode _) && (statusCode _ <=? 999)).
      * destruct Hsend as [-> _].
        destruct (bodyless (statusCode _)); reflexivity.
      * destruct Hsend as [-> _]. reflexivity.
  - destruct (Hok Hout) as [Hl _]. rewrite Hl, !Hw, !List.filter_app.
    eexists. split; [reflexivity |]. split; [contradiction |].
    intros _. destruct (reaches_context hostname app rq); reflexivity.
Qed.

Lemma error_file_gains_the_error_records_witness :
  ({["ENABLE_FILE_LOGS" := "true"]} : gmap string string)
    !! "ENABLE_FILE_LOGS" = Some "true"
  ∧ ∃ new,
      Winston.written {["ENABLE_FILE_LOGS" := "true"]}
        (Winston.File "logs/error.log")
        (log (state (handle Sample.hostname (Sample.app Server)
                       (Sample.get ["api"; "orders"] None)
                       (Sample.inputs (Throws Sample.odd)) initial_state)))
      = Winston.written {["ENABLE_FILE_LOGS" := "true"]}
          (Winston.File "logs/error.log") (log initial_state) ++ new
      ∧ length new = 2%nat.
Proof.
  assert (H : ({["ENABLE_FILE_LOGS" := "true"]} : gmap string string)
                !! "ENABLE_FILE_LOGS" = Some "true") by (vm_compute; reflexivity).
  assert (Hin : In ErrorHandler
     (visited (context (handle Sample.hostname (Sample.app Server)
                          (Sample.get ["api"; "orders"] None)
                          (Sample.inputs (Throws Sample.odd)) initial_state))))
    by (vm_compute; tauto).
  split; [exact H |].
  destruct (error_file_gains_the_error_records Sample.hostname
              (Sample.app Server) (Sample.get ["api"; "orders"] None)
              (Sample.inputs (Throws Sample.odd)) initial_state
              {["ENABLE_FILE_LOGS" := "true"]} H) as (new & Hw & Herr & _).
  exists new. split; [exact Hw |].
  destruct (Herr Hin) as (e & -> & _). reflexivity.
Defined.

(** With file logging enabled, the error of a route is in the error file
    with the identifier of its request, the completion record is not. *)
Example error_file_of_a_failed_request :
  Winston.written {["ENABLE_FILE_LOGS" := "true"]}
    (Winston.File "logs/error.log")
    (log (state (handle Sample.hostname (Sample.app Server)
                   (Sample.get ["api"; "orders"] None)
                   (Sample.inputs (Throws Sample.not_found)) initial_state)))
  = [ LogError "Order not found" "NotFoundError: Order not found" "GET"
        "/api/orders" (Some "010203ff-1011-4213-9415-161718191a1b");
      LogText LError
        "[Error] [010203ff-1011-4213-9415-161718191a1b] NotFoundError: Order not found"
        None ].
Proof. vm_compute. reflexivity. Qed.

(** ** The two allow-lists *)

(** X23.  The serverless variant allows every origin that the server
    variant allows, except the Netlify site, which only the server variant
    has on its list. *)
Theorem serverless_allows_what_server_allows
    (hostname : string -> option string) (origin : option string) :
  origin_callback hostname Server origin = true →
  origin ≠ Some "https://delibup.netlify.app" →
  origin_callback hostname Serverless origin = true.
Proof.
  unfold origin_callback, isAllowedOrigin.
  destruct (Js.truthy origin); [| reflexivity].
  destruct origin as [o |]; cbn [negb default from_option id];
    [| intros; discriminate].
  destruct (includes (allowedOrigins Server) o) eqn:Hs; [| discriminate].
  intros _ Hne. apply includes_In in Hs.
  assert (Hin : In o (allowedOrigins Serverless)).
  { cbn in Hs. cbn.
    repeat (destruct Hs as [Hs | Hs]; [subst o; try tauto; congruence |]).
    destruct Hs. }
  apply includes_In in Hin. now rewrite Hin.
Qed.

Lemma serverless_allows_what_server_allows_witness :
  origin_callback Sample.hostname Server (Some "capacitor://localhost") = true
  ∧ Some "capacitor://localhost" ≠ Some "https://delibup.netlify.app"
  ∧ origin_callback Sample.hostname Serverless (Some "capacitor://localhost")
    = true.
Proof.
  assert (H1 : origin_callback Sample.hostname Server
                 (Some "capacitor://localhost") = true) by reflexivity.
  assert (H2 : Some "capacitor://localhost" ≠ Some "https://delibup.netlify.app")
    by discriminate.
  split; [exact H1 | split; [exact H2 |]].
  exact (serverless_allows_what_server_allows Sample.hostname
           (Some "capacitor://localhost") H1 H2).
Defined.

